(** * Loan calculator: amortization engine and refinance break-even

    A shallow embedding of [script.js]: its numeric core
    ([calculateAmortization], [calculateMonthlyPayment],
    [calculateRefinanceBreakEven]), the functions that present the results
    ([formatPayoffTime], [formatDate], [formatCurrency],
    [updateCurrencyDisplay], [populateAmortizationTable], [createLoanChart],
    [displayResults], [displayRefinanceResults]) and the submit handlers of
    its two forms, with the properties checked against them.

    A JavaScript Number is an IEEE 754 binary64 value, which is what Rocq's
    primitive [float] is, so [+ - * /] and the comparisons of the source are
    the primitive ones.  [Math.round], [Math.floor], [Math.max], [Math.abs]
    and [%] are written out after ECMA-262.  [Math.pow] is
    implementation-approximated and [Date] depends on the host, so both are
    taken from a [Host]; number formatting and the rest of what the
    presentation takes from the browser is a [Browser]. *)

From Stdlib Require Import String Ascii DecimalString.
From Stdlib Require Import ZArith List Bool Lia.
From Stdlib Require Import Floats.
Import ListNotations.

Set Warnings "-inexact-float".
Local Open Scope float_scope.

(** ** Numbers *)

Module Num.

(** The double nearest to the integer [k]. *)
Definition of_Z (k : Z) : float :=
  SF2Prim (binary_normalize prec emax k 0 false).

Definition of_nat (n : nat) : float := of_Z (Z.of_nat n).

(** [Math.round]: the integer nearest to [x], a tie going towards
    +infinity; an [x] that is integral, infinite or NaN is returned as it
    is, and a result of zero keeps the sign of [x]. *)
Definition Math_round (x : float) : float :=
  match Prim2SF x with
  | S754_finite s m e =>
      if (0 <=? e)%Z then x
      else
        let k := ((cond_Zopp s (Zpos m) * 2 + 2 ^ (- e)) / 2 ^ (- e + 1))%Z in
        if (k =? 0)%Z then (if s then neg_zero else zero) else of_Z k
  | _ => x
  end.

(** [Math.max] of two numbers: NaN if either is, and +0 above -0. *)
Definition Math_max (a b : float) : float :=
  if is_nan a || is_nan b then nan
  else if a <? b then b
  else if b <? a then a
  else if get_sign a then b else a.

Definition Math_abs (x : float) : float := abs x.

(** The idiom [Math.round(x * 100) / 100] of the source. *)
Definition round2 (x : float) : float := Math_round (x * 100) / 100.

End Num.
Export Num.

(** ** The host: what the source takes from the JavaScript runtime *)

Class Host := {
  (** [Math.pow(base, exponent)] *)
  Math_pow : float -> float -> float;
  (** [Date] objects *)
  Date : Type;
  (** [d = new Date(startDate); d.setDate(1)] *)
  Date_firstOfMonth : Date -> Date;
  (** [d = new Date(base); d.setMonth(base.getMonth() + n)] *)
  Date_addMonths : Date -> float -> Date
}.

(** ** Results of a call *)

Inductive Error := InvalidInput.

(** A call returns, throws, or is still running when the fuel is spent. *)
Inductive completion (A : Type) :=
| Returned (a : A)
| Threw (e : Error)
| OutOfFuel.
Arguments Returned {A} a.
Arguments Threw {A} e.
Arguments OutOfFuel {A}.

Section Engine.
Context {JS : Host}.

(** The objects pushed on [schedule]. *)
Record PaymentRecord := {
  paymentNumber : float;
  date : Date;
  interestPaid : float;
  principalPaid : float;
  remainingBalance : float
}.

(** The object [calculateAmortization] returns. *)
Record AmortizationResult := {
  monthsToPayoff : float;
  totalInterestPaid : float;
  totalInterestSaved : float;
  monthlyPayment : float;
  schedule : list PaymentRecord
}.

(** The variables the [while] loop reads and writes. *)
Record LoopState := {
  st_balance : float;
  st_totalInterestPaid : float;
  st_monthsToPayoff : float;
  st_schedule : list PaymentRecord
}.

Section Loop.
(** The constants of one call. *)
Variables (monthlyRate monthlyPayment0 extraMonthlyPayment maxMonths : float)
          (baseDate : Date).

(** [balance > 0.01 && monthsToPayoff < maxMonths] *)
Definition loop_cond (s : LoopState) : bool :=
  (0.01 <? st_balance s) && (st_monthsToPayoff s <? maxMonths).

(** One pass through the body of the loop. *)
Definition loop_body (s : LoopState) : LoopState :=
  let monthsToPayoff := st_monthsToPayoff s + 1 in
  let monthlyInterest := st_balance s * monthlyRate in
  let totalInterestPaid := st_totalInterestPaid s + monthlyInterest in
  let principalPayment := monthlyPayment0 - monthlyInterest in
  let totalPrincipalPayment := principalPayment + extraMonthlyPayment in
  let paymentNumber := monthsToPayoff in
  let interestPaid := round2 monthlyInterest in
  let principalPaid := round2 totalPrincipalPayment in
  let balance := st_balance s - totalPrincipalPayment in
  let '(totalInterestPaid, remainingBalance) :=
    if balance <? 0 then
      let overpayment := Math_abs balance in
      (Math_max 0 (totalInterestPaid - overpayment), 0)
    else (totalInterestPaid, balance) in
  let remainingBalance := round2 remainingBalance in
  let currentPaymentDate := Date_addMonths baseDate paymentNumber in
  {| st_balance := remainingBalance;
     st_totalInterestPaid := totalInterestPaid;
     st_monthsToPayoff := monthsToPayoff;
     st_schedule := st_schedule s ++
       [ {| paymentNumber := paymentNumber;
            date := currentPaymentDate;
            interestPaid := interestPaid;
            principalPaid := principalPaid;
            remainingBalance := remainingBalance |} ] |}.

(** The [while] loop; [None] when [fuel] passes do not end it. *)
Fixpoint while_loop (fuel : nat) (s : LoopState) : option LoopState :=
  if loop_cond s then
    match fuel with
    | O => None
    | S fuel' => while_loop fuel' (loop_body s)
    end
  else Some s.
End Loop.

(** [principal <= 0 || annualRate < 0 || termYears <= 0 ||
    extraMonthlyPayment < 0] *)
Definition invalid_input (principal annualRate termYears extraMonthlyPayment : float) : bool :=
  (principal <=? 0) || (annualRate <? 0) || (termYears <=? 0) || (extraMonthlyPayment <? 0).

(** The standard payment as [calculateAmortization] computes it, rounded
    in both branches. *)
Definition standardPayment (principal annualRate termYears : float) : float :=
  let monthlyRate := (annualRate / 100) / 12 in
  let totalMonths := termYears * 12 in
  let monthlyPayment :=
    if monthlyRate =? 0 then principal / totalMonths
    else
      let compoundFactor := Math_pow (1 + monthlyRate) totalMonths in
      principal * (monthlyRate * compoundFactor) / (compoundFactor - 1) in
  round2 monthlyPayment.

Definition calculateAmortization (fuel : nat)
    (principal annualRate termYears extraMonthlyPayment : float)
    (startDate : Date) : completion AmortizationResult :=
  if invalid_input principal annualRate termYears extraMonthlyPayment then
    Threw InvalidInput
  else
    let monthlyRate := (annualRate / 100) / 12 in
    let totalMonths := termYears * 12 in
    let monthlyPayment := standardPayment principal annualRate termYears in
    let totalInterestWithoutExtra := (monthlyPayment * totalMonths) - principal in
    let maxMonths := totalMonths * 2 in
    let baseDate := Date_firstOfMonth startDate in
    match while_loop monthlyRate monthlyPayment extraMonthlyPayment maxMonths baseDate fuel
            {| st_balance := principal;
               st_totalInterestPaid := 0;
               st_monthsToPayoff := 0;
               st_schedule := [] |} with
    | None => OutOfFuel
    | Some s =>
        let totalInterestPaid := round2 (st_totalInterestPaid s) in
        let totalInterestSaved := Math_max 0 (totalInterestWithoutExtra - totalInterestPaid) in
        let roundedInterestSaved := round2 totalInterestSaved in
        Returned {| monthsToPayoff := st_monthsToPayoff s;
                    totalInterestPaid := totalInterestPaid;
                    totalInterestSaved := roundedInterestSaved;
                    monthlyPayment := monthlyPayment;
                    schedule := st_schedule s |}
    end.

(** [calculateMonthlyPayment] *)
Definition calculateMonthlyPayment (principal annualRate termYears : float) : float :=
  if (principal <=? 0) || (termYears <=? 0) then 0
  else
    let monthlyRate := (annualRate / 100) / 12 in
    let totalMonths := termYears * 12 in
    if monthlyRate =? 0 then principal / totalMonths
    else
      let compoundFactor := Math_pow (1 + monthlyRate) totalMonths in
      let monthlyPayment := principal * (monthlyRate * compoundFactor) / (compoundFactor - 1) in
      round2 monthlyPayment.

End Engine.

(** ** Refinance break-even *)

Record RefinanceBreakEven := {
  breakEvenMonths : option float;
  monthlySavings : float;
  totalSavingsOverRemainingTerm : option float;
  isValid : bool
}.

Definition calculateRefinanceBreakEven
    (originalMonthlyPayment newMonthlyPayment closingCosts : float)
    : completion RefinanceBreakEven :=
  if (originalMonthlyPayment <=? 0) || (newMonthlyPayment <? 0) || (closingCosts <? 0) then
    Threw InvalidInput
  else
    let monthlySavings := originalMonthlyPayment - newMonthlyPayment in
    if monthlySavings <=? 0 then
      Returned {| breakEvenMonths := None;
                  monthlySavings := monthlySavings;
                  totalSavingsOverRemainingTerm := None;
                  isValid := false |}
    else
      let breakEvenMonths := closingCosts / monthlySavings in
      let roundedBreakEvenMonths := round2 breakEvenMonths in
      Returned {| breakEvenMonths := Some roundedBreakEvenMonths;
                  monthlySavings := round2 monthlySavings;
                  totalSavingsOverRemainingTerm := None;
                  isValid := true |}.

(** ** A reference host

    [Math.pow] by square-and-multiply in doubles where the exponent is a
    whole number (NaN elsewhere); a date as a count of months. *)

Module RefHost.

(** The integer a double holds, if it holds one. *)
Definition to_Z (x : float) : option Z :=
  match Prim2SF x with
  | S754_zero _ => Some 0%Z
  | S754_finite s m e =>
      if (0 <=? e)%Z then Some (cond_Zopp s (Zpos m) * 2 ^ e)%Z
      else if (Zpos m mod 2 ^ (- e) =? 0)%Z then Some (cond_Zopp s (Zpos m) / 2 ^ (- e))%Z
      else None
  | _ => None
  end.

Fixpoint pow_pos (x : float) (n : positive) : float :=
  match n with
  | xH => x
  | xO n' => let y := pow_pos x n' in y * y
  | xI n' => let y := pow_pos x n' in x * (y * y)
  end.

Definition pow (x y : float) : float :=
  match to_Z y with
  | Some Z0 => 1
  | Some (Zpos n) => pow_pos x n
  | Some (Zneg n) => 1 / pow_pos x n
  | None => nan
  end.

Definition addMonths (d : Z) (n : float) : Z :=
  match to_Z n with Some k => (d + k)%Z | None => d end.

#[export] Instance host : Host := {
  Math_pow := pow;
  Date := Z;
  Date_firstOfMonth := fun d => d;
  Date_addMonths := addMonths
}.

End RefHost.

(** ** Auxiliary definitions *)

(** [p * 2^k] on binary positives. *)
Definition shlp (p : positive) (k : nat) : positive := Nat.iter k xO p.

(** [p] shifted left to a mantissa of 53 bits. *)
Definition norm53 (p : positive) : positive :=
  shlp p (Z.to_nat (53 - Zpos (digits2_pos p))).

(** [Number.MAX_SAFE_INTEGER], 2^53 - 1. *)
Definition MAX_SAFE_INTEGER : Z := 9007199254740991.

(** The inputs the specification calls valid. *)
Definition valid_input (principal annualRate termYears extraMonthlyPayment : float) : bool :=
  (0 <? principal) && (0 <=? annualRate) && (0 <? termYears) && (0 <=? extraMonthlyPayment).

(** The doubles at most [k] units in the last place away from [c]. *)
Fixpoint ulps_above (k : nat) (c : float) : list float :=
  match k with
  | O => []
  | S k' => next_up c :: ulps_above k' (next_up c)
  end.

Fixpoint ulps_below (k : nat) (c : float) : list float :=
  match k with
  | O => []
  | S k' => next_down c :: ulps_below k' (next_down c)
  end.

Definition within_ulps (k : nat) (c : float) : list float :=
  c :: ulps_above k c ++ ulps_below k c.

(** The double nearest to 1.005^360. *)
Definition compound_360 : float := 6.0225752122629865.

(** [schedule.reduce((a, e) => a + e.interestPaid, 0)] *)
Definition sum_interestPaid {JS : Host} (l : list PaymentRecord) : float :=
  fold_left (fun a e => a + interestPaid e) l 0.

(** A positive double, as a [spec_float]. *)
Definition SFpositive (x : spec_float) : Prop :=
  match x with
  | S754_finite false _ _ | S754_infinity false => True
  | _ => False
  end.

(** The amounts of a record, without its date. *)
Definition amounts {JS : Host} (e : PaymentRecord) : float * float * float * float :=
  (paymentNumber e, interestPaid e, principalPaid e, remainingBalance e).

(** The state in which [calculateAmortization] enters its loop. *)
Definition initial {JS : Host} (principal : float) : LoopState :=
  {| st_balance := principal;
     st_totalInterestPaid := 0;
     st_monthsToPayoff := 0;
     st_schedule := [] |}.

Section LoopPredicates.
Context {JS : Host}.
Variables (monthlyRate monthlyPayment0 extraMonthlyPayment maxMonths : float).

(** The counter is the double reached by one increment per record, and
    each record carries the value the counter had when it was pushed. *)
Definition counted (s : LoopState) : Prop :=
  st_monthsToPayoff s
    = of_Z (Z.min (Z.of_nat (length (st_schedule s))) (2 ^ 53)) /\
  forall k e, nth_error (st_schedule s) k = Some e ->
    paymentNumber e = of_Z (Z.min (Z.of_nat (S k)) (2 ^ 53)).

(** The last pass started with the counter below the cap. *)
Definition below_cap (l : list PaymentRecord) : Prop :=
  l = [] \/ (of_Z (Z.of_nat (length l) - 1) <? maxMonths) = true.

(** The balance carried on is the one the last record shows. *)
Definition settled (s : LoopState) : Prop :=
  forall l e, st_schedule s = l ++ [e] -> remainingBalance e = st_balance s.

(** The balance after the records [l], from an opening balance [b]. *)
Definition closing (b : float) (l : list PaymentRecord) : float :=
  last (map remainingBalance l) b.

(** What a month that opens with balance [b] charges, pays and leaves,
    as [loop_body] records it. *)
Definition month_interest (b : float) : float := round2 (b * monthlyRate).

Definition month_principal (b : float) : float :=
  round2 ((monthlyPayment0 - b * monthlyRate) + extraMonthlyPayment).

Definition month_balance (b : float) : float :=
  b - ((monthlyPayment0 - b * monthlyRate) + extraMonthlyPayment).

Definition month_remaining (b : float) : float :=
  round2 (if month_balance b <? 0 then 0 else month_balance b).

(** Every record is the month of the balance the record before it left. *)
Fixpoint ledger (b : float) (l : list PaymentRecord) : Prop :=
  match l with
  | [] => True
  | e :: l' =>
      interestPaid e = month_interest b /\
      principalPaid e = month_principal b /\
      remainingBalance e = month_remaining b /\
      ledger (remainingBalance e) l'
  end.

(** The schedule is such a ledger and the balance is its closing one. *)
Definition kept_ledger (b : float) (s : LoopState) : Prop :=
  ledger b (st_schedule s) /\ st_balance s = closing b (st_schedule s).

(** The counter is exact: no more than 2^53 - 1 passes were made. *)
Definition in_range (s : LoopState) : Prop :=
  counted s /\ (Z.of_nat (length (st_schedule s)) <= MAX_SAFE_INTEGER)%Z.
End LoopPredicates.

(** A double that is not below zero (it may be NaN), as a [spec_float]. *)
Definition SFnonneg (x : spec_float) : Prop :=
  match x with
  | S754_finite true _ _ | S754_infinity true => False
  | _ => True
  end.

(** [!(x < 0)]: not negative, NaN included. *)
Definition not_negative (x : float) : bool := negb (x <? 0).

Section MorePredicates.
Context {JS : Host}.

(** Every record but the last leaves a balance above 0.01. *)
Definition open_before_last (l : list PaymentRecord) : Prop :=
  forall k x, nth_error l k = Some x -> (S k < length l)%nat ->
    (0.01 <? remainingBalance x) = true.

(** The balance on which the record at index [k] of [l] opens. *)
Definition opening (principal : float) (l : list PaymentRecord) (k : nat) : float :=
  closing principal (firstn k l).

(** Every record is dated by its own payment number. *)
Definition dated (baseDate : Date) (l : list PaymentRecord) : Prop :=
  forall x, In x l -> date x = Date_addMonths baseDate (paymentNumber x).

(** No record shows a negative interest or a negative balance. *)
Definition amounts_not_negative (l : list PaymentRecord) : Prop :=
  forall x, In x l ->
    (interestPaid x <? 0) = false /\ (remainingBalance x <? 0) = false.

(** Neither the balance, nor the running interest total, nor a record of
    the state is negative. *)
Definition nonneg_state (s : LoopState) : Prop :=
  (st_balance s <? 0) = false /\
  (st_totalInterestPaid s <? 0) = false /\
  amounts_not_negative (st_schedule s).

(** Two states that differ in the dates of their records at most. *)
Definition same_amounts (s1 s2 : LoopState) : Prop :=
  st_balance s1 = st_balance s2 /\
  st_totalInterestPaid s1 = st_totalInterestPaid s2 /\
  st_monthsToPayoff s1 = st_monthsToPayoff s2 /\
  map amounts (st_schedule s1) = map amounts (st_schedule s2).
End MorePredicates.

(** * The presentation layer

    The functions of [script.js] that turn the results into text, table
    rows and chart data, and the handlers of the two forms.  What they take
    from the browser (number formatting by [Intl], the getters of a [Date],
    the properties every object inherits) is a [Browser]; what they write to
    the page is returned as a value.  The page is taken to be the one the
    script is written for: the elements it looks up without a test are
    there, Chart.js is loaded, and [Intl] formats what it is given. *)

(** ** More numbers *)

(** [Math.floor]: the largest integer not above [x]; an [x] that is
    integral, infinite, NaN or a zero is returned as it is. *)
Definition Math_floor (x : float) : float :=
  match Prim2SF x with
  | S754_finite s m e =>
      if (0 <=? e)%Z then x
      else
        let k := (cond_Zopp s (Zpos m) / 2 ^ (- e))%Z in
        if (k =? 0)%Z then zero else of_Z k
  | _ => x
  end.

(** [x % y]: the remainder of the division truncated towards zero, which is
    exact and has the sign of [x]; NaN for an infinite [x] or a zero [y]. *)
Definition Number_rem (x y : float) : float :=
  match Prim2SF x, Prim2SF y with
  | S754_nan, _ | _, S754_nan => nan
  | S754_infinity _, _ => nan
  | _, S754_zero _ => nan
  | S754_zero _, _ => x
  | S754_finite _ _ _, S754_infinity _ => x
  | S754_finite sx mx ex, S754_finite sy my ey =>
      let ez := Z.min ex ey in
      let r := ((Zpos mx * 2 ^ (ex - ez)) mod (Zpos my * 2 ^ (ey - ez)))%Z in
      if (r =? 0)%Z then (if sx then neg_zero else zero)
      else SF2Prim (binary_normalize prec emax (cond_Zopp sx r) ez false)
  end.

(** ** The browser *)

Class Browser {JS : Host} := {
  (** [String(x)] for an [x] that is not an integer below 10^21 *)
  Number_toString_other : float -> string;
  (** [new Intl.NumberFormat(locale, {style: 'currency', currency,
      minimumFractionDigits: 2, maximumFractionDigits: 2}).format(amount)];
      the currency is [None] when it is [undefined] *)
  Intl_format_currency : string -> option string -> float -> string;
  (** [date.getMonth()], [date.getDate()], [date.getFullYear()] *)
  Date_getMonth : Date -> float;
  Date_getDate : Date -> float;
  Date_getFullYear : Date -> float;
  (** whether every object inherits a property of this name *)
  Object_prototype_has : string -> bool;
  (** the message of the TypeError for reading [symbol] of [undefined] *)
  TypeError_message : string
}.

Section Presentation.
Context {JS : Host} {BR : Browser}.
Local Open Scope string_scope.

(** ** Numbers as text *)

(** The decimal digits of an integer. *)
Definition decimal (k : Z) : string := NilZero.string_of_int (Z.to_int k).

(** [String(x)], [`${x}`]: an integer below 10^21 is written with its
    decimal digits. *)
Definition Number_toString (x : float) : string :=
  match Prim2SF x with
  | S754_nan => "NaN"
  | S754_zero _ => "0"
  | S754_infinity s => if s then "-Infinity" else "Infinity"
  | S754_finite _ _ _ =>
      match RefHost.to_Z x with
      | Some k =>
          if (Z.abs k <? 10 ^ 21)%Z then decimal k else Number_toString_other x
      | None => Number_toString_other x
      end
  end.

(** [s.padStart(2, '0')] *)
Definition String_padStart_2_0 (s : string) : string :=
  match String.length s with
  | O => "00"
  | S O => "0" ++ s
  | _ => s
  end.

(** ** [updateCurrencyDisplay] *)

Record CurrencyInfo := { symbol : string; currency : string }.

(** The euro, pound, rupee and yen signs, as UTF-8. *)
Definition euro_sign : string := String "226" (String "130" (String "172" "")).
Definition pound_sign : string := String "194" (String "163" "").
Definition rupee_sign : string := String "226" (String "130" (String "185" "")).
Definition yen_sign : string := String "194" (String "165" "").

Definition currencyMap : list (string * CurrencyInfo) :=
  [ ("en-US", {| symbol := "$"; currency := "USD" |});
    ("de-DE", {| symbol := euro_sign; currency := "EUR" |});
    ("en-GB", {| symbol := pound_sign; currency := "GBP" |});
    ("en-IN", {| symbol := rupee_sign; currency := "INR" |});
    ("ja-JP", {| symbol := yen_sign; currency := "JPY" |}) ].

(** What [currencyMap[key]] finds: an entry of the map, a property that
    every object inherits, or nothing. *)
Inductive Property := Own (info : CurrencyInfo) | Inherited | Missing.

Definition currencyMap_get (key : string) : Property :=
  match find (fun entry => String.eqb (fst entry) key) currencyMap with
  | Some entry => Own (snd entry)
  | None => if Object_prototype_has key then Inherited else Missing
  end.

(** The globals [currentLocale] and [currentCurrency], and the text of the
    currency symbol spans of the form ([None] where [undefined] was
    written). *)
Record Currency := {
  currentLocale : string;
  currentCurrency : option string;
  currencySymbols : list (option string)
}.

(** The state in which the script is loaded. *)
Definition Currency_initial (spans : list (option string)) : Currency :=
  {| currentLocale := "en-US"; currentCurrency := Some "USD"; currencySymbols := spans |}.

(** [selector] is the value of the currency selector, [None] when the page
    has no such element. *)
Definition updateCurrencyDisplay (selector : option string) (st : Currency) : Currency :=
  match selector with
  | None => st
  | Some selectedLocale =>
      match currencyMap_get selectedLocale with
      | Own currencyInfo =>
          {| currentLocale := selectedLocale;
             currentCurrency := Some (currency currencyInfo);
             currencySymbols := map (fun _ => Some (symbol currencyInfo)) (currencySymbols st) |}
      | Inherited =>
          {| currentLocale := selectedLocale;
             currentCurrency := None;
             currencySymbols := map (fun _ => None) (currencySymbols st) |}
      | Missing => st
      end
  end.

(** ** [formatCurrency], [formatPayoffTime], [formatDate] *)

(** [locale] and [currency] are the optional arguments, [None] when left
    out. *)
Definition formatCurrency (st : Currency) (amount : float)
    (locale : option string) (currency : option (option string)) : string :=
  let locale := match locale with Some l => l | None => currentLocale st end in
  let currency := match currency with Some c => c | None => currentCurrency st end in
  Intl_format_currency locale currency amount.

Definition formatPayoffTime (totalMonths : float) : string :=
  let years := Math_floor (totalMonths / 12) in
  let months := Number_rem totalMonths 12 in
  if (years =? 0)%float then
    (if (months =? 1)%float then "1 month" else Number_toString months ++ " months")
  else if (months =? 0)%float then
    (if (years =? 1)%float then "1 year" else Number_toString years ++ " years")
  else
    let yearsText := if (years =? 1)%float then "1 year" else Number_toString years ++ " years" in
    let monthsText := if (months =? 1)%float then "1 month" else Number_toString months ++ " months" in
    yearsText ++ " and " ++ monthsText.

Definition formatDate (date : Date) : string :=
  let month := String_padStart_2_0 (Number_toString (Date_getMonth date + 1)) in
  let day := String_padStart_2_0 (Number_toString (Date_getDate date)) in
  let year := Date_getFullYear date in
  month ++ "/" ++ day ++ "/" ++ Number_toString year.

(** ** [populateAmortizationTable] *)

(** A row appended to the table body: the native ad, or the five cells of
    a payment. *)
Inductive TableRow := NativeAdRow | PaymentRow (cells : list string).

(** The rows of the table body, the number of objects pushed to
    [adsbygoogle] (a push that throws is caught and logged), and the flag
    [nativeAdInserted]. *)
Record Table := {
  tableRows : list TableRow;
  adsPushed : nat;
  nativeAdInserted : bool
}.

Definition paymentRow (st : Currency) (payment : PaymentRecord) : TableRow :=
  PaymentRow
    [ Number_toString (paymentNumber payment);
      formatDate (date payment);
      formatCurrency st (interestPaid payment) None None;
      formatCurrency st (principalPaid payment) None None;
      formatCurrency st (remainingBalance payment) None None ].

(** The callback of [schedule.forEach]. *)
Definition tableCallback (st : Currency) (scheduleLength adInsertPosition : float)
    (tb : Table) (payment : PaymentRecord) (index : float) : Table :=
  let tb :=
    if (index =? adInsertPosition)%float && negb (nativeAdInserted tb)
       && (5 <? scheduleLength)%float
    then {| tableRows := tableRows tb ++ [NativeAdRow];
            adsPushed := S (adsPushed tb);
            nativeAdInserted := true |}
    else tb in
  {| tableRows := tableRows tb ++ [paymentRow st payment];
     adsPushed := adsPushed tb;
     nativeAdInserted := nativeAdInserted tb |}.

(** [l.forEach((x, index) => ...)] from the index [i] on, threading the
    state the callback changes. *)
Fixpoint forEach_from {A St : Type} (f : St -> A -> float -> St) (l : list A) (i : nat)
    (s : St) : St :=
  match l with
  | [] => s
  | x :: l' => forEach_from f l' (S i) (f s x (of_nat i))
  end.

Definition populateAmortizationTable (st : Currency) (schedule : list PaymentRecord) : Table :=
  let scheduleLength := of_nat (List.length schedule) in
  let adInsertPosition :=
    if (20 <? scheduleLength)%float then 10 else Math_floor (scheduleLength / 2) in
  forEach_from (tableCallback st scheduleLength adInsertPosition) schedule 0
    {| tableRows := []; adsPushed := 0; nativeAdInserted := false |}.

(** ** [displayRefinanceResults] *)

(** What the function writes: the new payment and the savings where the
    page has elements for them, the break-even text and whether
    it is highlighted as a success. *)
Record RefinanceView := {
  newPaymentText : option string;
  monthlySavingsText : option string;
  breakEvenText : string;
  highlighted : bool
}.

Definition no_savings_text : string :=
  "Refinancing does not provide monthly savings. The new monthly payment is equal to or higher than your current payment.".

(** [`${count} ${count === 1 ? one : many}`] *)
Definition counted_unit (count : float) (one many : string) : string :=
  Number_toString count ++ " " ++ (if (count =? 1)%float then one else many).

(** The break-even period in words, from the break-even months ([null]
    counts as 0 in the arithmetic). *)
Definition break_even_period (breakEvenMonths : option float) : string :=
  let breakEvenMonths := match breakEvenMonths with Some b => b | None => 0 end in
  let years := Math_floor (breakEvenMonths / 12) in
  let months := Math_round (Number_rem breakEvenMonths 12) in
  let breakEvenText := "You will break even in " in
  let breakEvenText :=
    if (0 <? years)%float && (0 <? months)%float then
      breakEvenText ++ counted_unit years "year" "years" ++ " and "
        ++ counted_unit months "month" "months"
    else if (0 <? years)%float then breakEvenText ++ counted_unit years "year" "years"
    else if (0 <? months)%float then breakEvenText ++ counted_unit months "month" "months"
    else
      let days := Math_round (breakEvenMonths * 30) in
      breakEvenText ++ counted_unit days "day" "days" in
  breakEvenText ++ ".".

(** [has_container], [has_text], [has_savings] and [has_newPayment] say
    which of the four elements the page has; without the first two nothing
    is written. *)
Definition displayRefinanceResults
    (has_container has_text has_savings has_newPayment : bool) (st : Currency)
    (breakEvenResult : RefinanceBreakEven) (newMonthlyPayment : float)
    : option RefinanceView :=
  if negb has_container || negb has_text then None
  else
    let newPaymentText :=
      if has_newPayment then Some (formatCurrency st newMonthlyPayment None None) else None in
    let monthlySavingsText :=
      if has_savings
      then Some (formatCurrency st (monthlySavings breakEvenResult) None None)
      else None in
    if negb (isValid breakEvenResult) || (monthlySavings breakEvenResult <=? 0)%float then
      Some {| newPaymentText := newPaymentText;
              monthlySavingsText := monthlySavingsText;
              breakEvenText := no_savings_text;
              highlighted := false |}
    else
      Some {| newPaymentText := newPaymentText;
              monthlySavingsText := monthlySavingsText;
              breakEvenText := break_even_period (breakEvenMonths breakEvenResult);
              highlighted := true |}.


(** ** [createLoanChart] *)

(** An entry of [aggregatedData]. *)
Record YearData := {
  agg_label : string;
  agg_principal : float;
  agg_interest : float;
  agg_balance : float
}.

(** [String(x) === String(y)]: the same property key. *)
Definition same_key (x y : float) : bool :=
  (x =? y)%float || (is_nan x && is_nan y).

(** [aggregatedData] is an object keyed by the year; its own properties are
    kept here in the order of their creation.  Its keys are numbers as
    text, which no object inherits. *)
Definition aggregatedData_has (year : float) (aggregatedData : list (float * YearData)) : bool :=
  existsb (fun entry => same_key (fst entry) year) aggregatedData.

Fixpoint aggregatedData_update (year : float) (f : YearData -> YearData)
    (aggregatedData : list (float * YearData)) : list (float * YearData) :=
  match aggregatedData with
  | [] => []
  | (key, data) :: rest =>
      if same_key key year then (key, f data) :: rest
      else (key, data) :: aggregatedData_update year f rest
  end.

(** The callback of [schedule.forEach] that aggregates by year. *)
Definition chartCallback (aggregatedData : list (float * YearData)) (payment : PaymentRecord)
    : list (float * YearData) :=
  let aggregationPeriod := 12%float in
  let year := Math_floor ((paymentNumber payment - 1) / aggregationPeriod) in
  let yearLabel := "Year " ++ Number_toString (year + 1) in
  let aggregatedData :=
    if aggregatedData_has year aggregatedData then aggregatedData
    else (aggregatedData ++
            [ (year, {| agg_label := yearLabel;
                        agg_principal := 0;
                        agg_interest := 0;
                        agg_balance := remainingBalance payment |}) ])%list in
  aggregatedData_update year
    (fun data => {| agg_label := agg_label data;
                    agg_principal := agg_principal data + principalPaid payment;
                    agg_interest := agg_interest data + interestPaid payment;
                    agg_balance := remainingBalance payment |})
    aggregatedData.

(** A key that is an array index: a whole number from 0 to 2^32 - 2. *)
Definition is_array_index (key : float) : bool :=
  match RefHost.to_Z key with
  | Some k => (0 <=? k)%Z && (k <? 2 ^ 32 - 1)%Z
  | None => false
  end.

Fixpoint insert_by_key (entry : float * YearData) (l : list (float * YearData))
    : list (float * YearData) :=
  match l with
  | [] => [entry]
  | x :: l' => if (fst entry <? fst x)%float then entry :: l else x :: insert_by_key entry l'
  end.

(** [Object.values]: the properties whose keys are array indices come
    first, in ascending order, then the others in the order of their
    creation. *)
Definition Object_values (aggregatedData : list (float * YearData)) : list YearData :=
  map snd
    (fold_right insert_by_key [] (filter (fun entry => is_array_index (fst entry)) aggregatedData)
     ++ filter (fun entry => negb (is_array_index (fst entry))) aggregatedData)%list.

(** What is given to [new Chart]: the labels, the data of the three
    datasets, and the titles of the axes (the rest of the configuration is
    constant). *)
Record ChartData := {
  labels : list string;
  remainingBalanceData : list float;
  principalPaidData : list float;
  interestPaidData : list float;
  xTitle : string;
  yTitle : string;
  y1Title : string
}.

(** [`${currencyMap[currentLocale].symbol}`]; reading [symbol] of
    [undefined] throws a TypeError, which is [None] here. *)
Definition current_symbol (st : Currency) : option string :=
  match currencyMap_get (currentLocale st) with
  | Own info => Some (symbol info)
  | Inherited => Some "undefined"
  | Missing => None
  end.

(** [None] when the construction of the chart throws. *)
Definition createLoanChart (st : Currency) (schedule : list PaymentRecord) : option ChartData :=
  let shouldAggregate := (60 <? of_nat (List.length schedule))%float in
  let '(labels, remainingBalanceData, principalPaidData, interestPaidData) :=
    if shouldAggregate then
      let aggregatedData := fold_left chartCallback schedule [] in
      let values := Object_values aggregatedData in
      (map agg_label values, map agg_balance values,
       map agg_principal values, map agg_interest values)
    else
      (map (fun payment => "Payment " ++ Number_toString (paymentNumber payment)) schedule,
       map remainingBalance schedule,
       map principalPaid schedule,
       map interestPaid schedule) in
  match current_symbol st with
  | Some sym =>
      Some {| labels := labels;
              remainingBalanceData := remainingBalanceData;
              principalPaidData := principalPaidData;
              interestPaidData := interestPaidData;
              xTitle := if shouldAggregate then "Year" else "Payment Number";
              yTitle := "Remaining Balance (" ++ sym ++ ")";
              y1Title := "Amount Paid (" ++ sym ++ ")" |}
  | None => None
  end.

(** ** [displayResults] *)

(** The part of the page the loan calculator writes to: the three result
    texts, the rows of the table body, the number of objects pushed to
    [adsbygoogle], the chart shown, and whether the results are visible. *)
Record ResultsPage := {
  standardPaymentText : string;
  newPayoffTimeText : string;
  totalInterestSavedText : string;
  amortizationTableBody : list TableRow;
  adsbygoogle : nat;
  loanChart : option ChartData;
  resultsVisible : bool
}.

(** The page after the call, and whether the call ran to its end ([false]:
    the construction of the chart threw). *)
Definition displayResults (st : Currency) (results : AmortizationResult) (page : ResultsPage)
    : ResultsPage * bool :=
  let standardPaymentText := formatCurrency st (monthlyPayment results) None None in
  let newPayoffTimeText := formatPayoffTime (monthsToPayoff results) in
  let totalInterestSavedText := formatCurrency st (totalInterestSaved results) None None in
  if (0 <? of_nat (List.length (schedule results)))%float then
    let tb := populateAmortizationTable st (schedule results) in
    match createLoanChart st (schedule results) with
    | Some chart =>
        ({| standardPaymentText := standardPaymentText;
            newPayoffTimeText := newPayoffTimeText;
            totalInterestSavedText := totalInterestSavedText;
            amortizationTableBody := tableRows tb;
            adsbygoogle := adsbygoogle page + adsPushed tb;
            loanChart := Some chart;
            resultsVisible := true |}, true)
    | None =>
        ({| standardPaymentText := standardPaymentText;
            newPayoffTimeText := newPayoffTimeText;
            totalInterestSavedText := totalInterestSavedText;
            amortizationTableBody := tableRows tb;
            adsbygoogle := adsbygoogle page + adsPushed tb;
            loanChart := None;
            resultsVisible := resultsVisible page |}, false)
    end
  else
    ({| standardPaymentText := standardPaymentText;
        newPayoffTimeText := newPayoffTimeText;
        totalInterestSavedText := totalInterestSavedText;
        amortizationTableBody := amortizationTableBody page;
        adsbygoogle := adsbygoogle page;
        loanChart := loanChart page;
        resultsVisible := true |}, true).

(** ** The forms *)

(** [x || 0] on a number. *)
Definition Number_or_0 (x : float) : float :=
  if is_nan x || (x =? 0)%float then 0%float else x.

(** The messages of the two errors of the calculations. *)
Definition amortization_error : string :=
  "Invalid input: All values must be positive (or zero for extra payment)".

Definition refinance_error : string :=
  "Invalid input: Monthly payments must be positive and closing costs must be non-negative".

(** The state of the application: the currency, the global
    [originalLoanMonthlyPayment] ([None] for [null]), the results of the
    loan calculator, what the refinance tab shows, and the alerts shown so
    far. *)
Record App := {
  app_currency : Currency;
  originalLoanMonthlyPayment : option float;
  app_results : ResultsPage;
  app_refinance : option RefinanceView;
  alerts : list string
}.

Definition alert (message : string) (app : App) : App :=
  {| app_currency := app_currency app;
     originalLoanMonthlyPayment := originalLoanMonthlyPayment app;
     app_results := app_results app;
     app_refinance := app_refinance app;
     alerts := (alerts app ++ [message])%list |}.

(** The submit handler of the loan calculator form, on the numbers
    [parseFloat] reads from its four fields and the start date. *)
Definition loanCalculatorForm_submit (fuel : nat)
    (principal annualRate termYears extraMonthlyPaymentField : float) (startDate : Date)
    (app : App) : completion App :=
  let extraPayment := Number_or_0 extraMonthlyPaymentField in
  match calculateAmortization fuel principal annualRate termYears extraPayment startDate with
  | OutOfFuel => OutOfFuel
  | Threw e => Returned (alert ("Error: " ++ amortization_error) app)
  | Returned results =>
      let '(page, finished) := displayResults (app_currency app) results (app_results app) in
      let app :=
        {| app_currency := app_currency app;
           originalLoanMonthlyPayment := Some (monthlyPayment results);
           app_results := page;
           app_refinance := app_refinance app;
           alerts := alerts app |} in
      Returned (if finished then app else alert ("Error: " ++ TypeError_message) app)
  end.

(** The submit handler of the refinance form, on the numbers [parseFloat]
    reads from its four fields; the four elements that
    [displayRefinanceResults] writes to are taken to be on the page. *)
Definition refinanceForm_submit
    (refinancePrincipalField refinanceInterestRateField refinanceTermField
       refinanceClosingCostsField : float)
    (app : App) : App :=
  let missing := "Please calculate your original loan first using the Loan Calculator tab." in
  match originalLoanMonthlyPayment app with
  | None => alert missing app
  | Some original =>
      if (is_nan original || (original =? 0)%float) || (original <=? 0)%float
      then alert missing app
      else
        let refinancePrincipal := Number_or_0 refinancePrincipalField in
        let refinanceInterestRate := Number_or_0 refinanceInterestRateField in
        let refinanceTerm := Number_or_0 refinanceTermField in
        let refinanceClosingCosts := Number_or_0 refinanceClosingCostsField in
        if (refinancePrincipal <=? 0)%float || (refinanceInterestRate <? 0)%float
           || (refinanceTerm <=? 0)%float
        then alert
               "Please enter valid values for the new loan principal, interest rate, and term."
               app
        else
          let newMonthlyPayment :=
            calculateMonthlyPayment refinancePrincipal refinanceInterestRate refinanceTerm in
          match calculateRefinanceBreakEven original newMonthlyPayment refinanceClosingCosts with
          | Returned breakEvenResult =>
              {| app_currency := app_currency app;
                 originalLoanMonthlyPayment := originalLoanMonthlyPayment app;
                 app_results := app_results app;
                 app_refinance :=
                   displayRefinanceResults true true true true (app_currency app)
                     breakEvenResult newMonthlyPayment;
                 alerts := alerts app |}
          | _ => alert ("Error: " ++ refinance_error) app
          end
  end.

End Presentation.

(** ** Texts on whole numbers

    What the texts say, on integers. *)

Section Texts.
Local Open Scope string_scope.

(** [1 unit], or [k units]. *)
Definition count_text (k : Z) (unit : string) : string :=
  if (k =? 1)%Z then "1 " ++ unit
  else NilZero.string_of_int (Z.to_int k) ++ " " ++ unit ++ "s".

(** [n] months as years and months. *)
Definition payoff_text (n : Z) : string :=
  let y := (n / 12)%Z in
  let m := (n mod 12)%Z in
  if (y =? 0)%Z then count_text m "month"
  else if (m =? 0)%Z then count_text y "year"
  else count_text y "year" ++ " and " ++ count_text m "month".

(** [k] written with two digits at least. *)
Definition two_digits (k : Z) : string :=
  if (k <? 10)%Z then "0" ++ NilZero.string_of_int (Z.to_int k)
  else NilZero.string_of_int (Z.to_int k).

End Texts.

(** ** The years of a schedule *)

Section Years.
Context {JS : Host}.

(** The records of the year [j] (from 0) of a schedule: twelve payments. *)
Definition year_records (j : nat) (l : list PaymentRecord) : list PaymentRecord :=
  firstn 12 (skipn (12 * j) l).

(** The number of years a schedule runs into. *)
Definition years_of (l : list PaymentRecord) : nat := ((List.length l + 11) / 12)%nat.

(** The sums of a year, added up from 0 in the order of the payments, and
    the balance its last record leaves. *)
Definition year_principal (c : list PaymentRecord) : float :=
  fold_left (fun a payment => (a + principalPaid payment)%float) c 0%float.

Definition year_interest (c : list PaymentRecord) : float :=
  fold_left (fun a payment => (a + interestPaid payment)%float) c 0%float.

Definition year_balance (c : list PaymentRecord) : float :=
  last (map remainingBalance c) 0%float.

(** What [aggregatedData] holds for the year [j], and its entry. *)
Definition year_summary (j : nat) (c : list PaymentRecord) : YearData :=
  {| agg_label := ("Year " ++ decimal (Z.of_nat j + 1))%string;
     agg_principal := year_principal c;
     agg_interest := year_interest c;
     agg_balance := year_balance c |}.

Definition year_entry (l : list PaymentRecord) (j : nat) : float * YearData :=
  (of_nat j, year_summary j (year_records j l)).

(** A schedule whose records are numbered on from [start + 1]. *)
Definition numbered_from (start : nat) (l : list PaymentRecord) : Prop :=
  forall k x, nth_error l k = Some x -> paymentNumber x = of_nat (S (start + k)).

End Years.

(** ** A reference browser

    For the reference host, whose dates count months: every date is the
    first of its month. *)

Module RefBrowser.

#[export] Instance browser : Browser (JS := RefHost.host) := {
  Number_toString_other := fun _ => "?"%string;
  Intl_format_currency := fun _ currency _ =>
    match currency with Some c => c | None => ""%string end;
  Date_getMonth := fun d : Z => of_Z (d mod 12);
  Date_getDate := fun _ => 1;
  Date_getFullYear := fun d : Z => of_Z (1970 + d / 12);
  Object_prototype_has := fun key => String.eqb key "constructor";
  TypeError_message := "Cannot read properties of undefined"%string
}.

End RefBrowser.

(** * Facts about doubles *)

Module FloatFacts.
Local Open Scope Z_scope.

(** ** Comparison *)

Lemma SFcompare_antisym x y :
  SFcompare y x = option_map CompOpp (SFcompare x y).
Proof.
  destruct x as [sx|sx| |sx mx ex], y as [sy|sy| |sy my ey]; cbn;
    try reflexivity;
    try (destruct sx; reflexivity); try (destruct sy; reflexivity);
    try (destruct sx, sy; reflexivity).
  destruct sx, sy; cbn; try reflexivity;
    rewrite (Z.compare_antisym ex ey); destruct (ex ?= ey); cbn; try reflexivity;
    rewrite (Pos.compare_cont_antisym mx my Eq); cbn;
    try rewrite CompOpp_involutive; reflexivity.
Qed.

Lemma leb_not_gt x y : (x <=? y)%float = true -> (y <? x)%float = false.
Proof.
  rewrite leb_spec, ltb_spec. unfold SFleb, SFltb.
  rewrite (SFcompare_antisym (Prim2SF x) (Prim2SF y)).
  destruct (SFcompare (Prim2SF x) (Prim2SF y)) as [[| |]|]; cbn; congruence.
Qed.

Lemma ltb_not_ge x y : (x <? y)%float = true -> (y <=? x)%float = false.
Proof.
  rewrite leb_spec, ltb_spec. unfold SFleb, SFltb.
  rewrite (SFcompare_antisym (Prim2SF x) (Prim2SF y)).
  destruct (SFcompare (Prim2SF x) (Prim2SF y)) as [[| |]|]; cbn; congruence.
Qed.

(** ** Shifts of binary positives *)

Lemma shlp_Z p k : Zpos (shlp p k) = Zpos p * 2 ^ Z.of_nat k.
Proof.
  induction k as [|k IH].
  - simpl. lia.
  - unfold shlp in *.
    rewrite Nat.iter_succ, Pos2Z.inj_xO, IH, Nat2Z.inj_succ, Z.pow_succ_r by lia.
    ring.
Qed.

Lemma shlp_add p j k : shlp (shlp p j) k = shlp p (j + k).
Proof. unfold shlp. rewrite Nat.add_comm. symmetry. apply Nat.iter_add. Qed.

Lemma digits2_shlp p k :
  Zpos (digits2_pos (shlp p k)) = Zpos (digits2_pos p) + Z.of_nat k.
Proof.
  induction k as [|k IH].
  - simpl. lia.
  - unfold shlp in *. rewrite Nat.iter_succ. cbn [digits2_pos].
    rewrite Pos2Z.inj_succ, IH. lia.
Qed.

Lemma Pos_iter_shlp p d : Pos.iter xO p d = shlp p (Pos.to_nat d).
Proof. unfold shlp. rewrite Pos2Nat.inj_iter. reflexivity. Qed.

Lemma iter_pos_nat {A} (f : A -> A) d x :
  iter_pos f d x = Nat.iter (Pos.to_nat d) f x.
Proof.
  revert x. induction d as [d IH|d IH|]; intro x; cbn [iter_pos].
  - rewrite !IH, Pos2Nat.inj_xI.
    replace (S (2 * Pos.to_nat d))%nat
      with (Pos.to_nat d + (Pos.to_nat d + 1))%nat by lia.
    rewrite !Nat.iter_add. reflexivity.
  - rewrite !IH, Pos2Nat.inj_xO.
    replace (2 * Pos.to_nat d)%nat with (Pos.to_nat d + Pos.to_nat d)%nat by lia.
    rewrite Nat.iter_add. reflexivity.
  - reflexivity.
Qed.

(** Shifting right what was shifted left loses nothing. *)
Lemma shr_shlp p k :
  Nat.iter k shr_1 {| shr_m := Zpos (shlp p k); shr_r := false; shr_s := false |}
  = {| shr_m := Zpos p; shr_r := false; shr_s := false |}.
Proof.
  induction k as [|k IH]; [reflexivity|].
  rewrite Nat.iter_succ_r. unfold shlp at 1. rewrite Nat.iter_succ.
  cbn [shr_1 orb]. exact IH.
Qed.

Lemma digits2_size p : digits2_pos p = Pos.size p.
Proof. induction p as [p IH|p IH|]; simpl; rewrite ?IH; reflexivity. Qed.

Lemma digits2_bound q : Zpos q < 2 ^ 53 -> Zpos (digits2_pos q) <= 53.
Proof.
  intros Hq. rewrite digits2_size.
  destruct (Z.le_gt_cases (Zpos (Pos.size q)) 53) as [|Hgt]; [assumption|exfalso].
  pose proof (Pos.size_le q) as Hle.
  assert (Hle' : 2 ^ Zpos (Pos.size q) <= 2 * Zpos q).
  { rewrite <- Pos2Z.inj_pow. change (2 * Zpos q) with (Zpos q~0). exact Hle. }
  assert (2 ^ 54 <= 2 ^ Zpos (Pos.size q)) by (apply Z.pow_le_mono_r; lia).
  change (2 ^ 54) with (2 * 2 ^ 53) in *. lia.
Qed.

Lemma digits2_norm53 p :
  Zpos (digits2_pos p) <= 53 -> Zpos (digits2_pos (norm53 p)) = 53.
Proof. intros. unfold norm53. rewrite digits2_shlp. lia. Qed.

(** ** Rounding of integers below 2^53 *)

(** A mantissa of exactly 53 bits, in range, is left as it is. *)
Lemma binary_round_aux_53 p e :
  Zpos (digits2_pos p) = 53 -> -1074 <= e <= 971 ->
  binary_round_aux prec emax false (Zpos p) e loc_Exact = S754_finite false p e.
Proof.
  intros Hd He.
  unfold binary_round_aux, shr_fexp, fexp, SpecFloat.emin, prec, emax.
  cbn [Zdigits2 shr_record_of_loc]. rewrite Hd.
  replace (Z.max (53 + e - 53) (3 - 1024 - 53) - e) with 0 by lia.
  cbn [shr shr_m loc_of_shr_record round_nearest_even Zdigits2]. rewrite Hd.
  replace (Z.max (53 + e - 53) (3 - 1024 - 53) - e) with 0 by lia.
  cbn [shr shr_m].
  replace (e <=? 1024 - 53) with true by (symmetry; apply Z.leb_le; lia).
  reflexivity.
Qed.

(** [q * 2^k] at exponent [e] rounds to [q] itself when [q] fits 53 bits. *)
Lemma binary_round_shlp q k e :
  Zpos (digits2_pos q) <= 53 ->
  -1074 <= e + Z.of_nat k + Zpos (digits2_pos q) - 53 <= 971 ->
  binary_round prec emax false (shlp q k) e =
  S754_finite false (norm53 q) (e + Z.of_nat k + Zpos (digits2_pos q) - 53).
Proof.
  intros Hd He.
  set (d := Zpos (digits2_pos q)) in *.
  unfold binary_round. rewrite digits2_shlp. fold d.
  unfold fexp, SpecFloat.emin, prec, emax.
  replace (Z.max (d + Z.of_nat k + e - 53) (3 - 1024 - 53))
    with (d + Z.of_nat k + e - 53) by lia.
  unfold shl_align.
  destruct (Z.compare_spec (d + Z.of_nat k) 53) as [Heq|Hlt|Hgt].
  - replace (d + Z.of_nat k + e - 53 - e) with 0 by lia.
    assert (shlp q k = norm53 q) as ->.
    { unfold norm53. fold d. f_equal. lia. }
    rewrite binary_round_aux_53; [f_equal; lia| now apply digits2_norm53 | lia].
  - remember (d + Z.of_nat k + e - 53 - e) as z eqn:Hz.
    destruct z as [|z|z]; try lia.
    rewrite Pos_iter_shlp, shlp_add.
    assert (shlp q (k + Pos.to_nat z) = norm53 q) as ->.
    { unfold norm53. fold d. f_equal. lia. }
    rewrite binary_round_aux_53; [f_equal; lia| now apply digits2_norm53 | lia].
  - remember (d + Z.of_nat k + e - 53 - e) as z eqn:Hz.
    destruct z as [|z|z]; try lia.
    unfold binary_round_aux, shr_fexp, fexp, SpecFloat.emin, prec, emax.
    cbn [Zdigits2 shr_record_of_loc]. rewrite digits2_shlp. fold d.
    replace (Z.max (d + Z.of_nat k + e - 53) (3 - 1024 - 53) - e)
      with (Zpos z) by lia.
    cbn [shr]. rewrite iter_pos_nat.
    assert (shlp q k = shlp (norm53 q) (Pos.to_nat z)) as ->.
    { unfold norm53. fold d. rewrite shlp_add. f_equal. lia. }
    rewrite shr_shlp.
    cbn [shr_m loc_of_shr_record round_nearest_even Zdigits2].
    rewrite digits2_norm53 by assumption.
    replace (Z.max (53 + (e + Zpos z) - 53) (3 - 1024 - 53) - (e + Zpos z))
      with 0 by lia.
    cbn [shr shr_m].
    replace (e + Zpos z <=? 1024 - 53) with true by (symmetry; apply Z.leb_le; lia).
    f_equal. lia.
Qed.

Lemma valid_norm53 q :
  Zpos (digits2_pos q) <= 53 ->
  valid_binary (S754_finite false (norm53 q) (Zpos (digits2_pos q) - 53)) = true.
Proof.
  intros Hd. cbn [SpecFloat.valid_binary]. unfold bounded, canonical_mantissa.
  rewrite digits2_norm53 by assumption.
  unfold fexp, SpecFloat.emin, prec, emax.
  assert (0 < Zpos (digits2_pos q)) by lia.
  apply andb_true_intro; split; [apply Z.eqb_eq | apply Z.leb_le]; lia.
Qed.

(** The double of a positive integer below 2^53, bit for bit. *)
Lemma Prim2SF_of_Z_pos q :
  Zpos q < 2 ^ 53 ->
  Prim2SF (of_Z (Zpos q)) =
  S754_finite false (norm53 q) (Zpos (digits2_pos q) - 53).
Proof.
  intros Hq. pose proof (digits2_bound q Hq) as Hd.
  assert (0 < Zpos (digits2_pos q)) by lia.
  unfold of_Z. cbn [binary_normalize].
  change q with (shlp q 0) at 1.
  rewrite binary_round_shlp by lia.
  replace (0 + Z.of_nat 0 + Zpos (digits2_pos q) - 53)
    with (Zpos (digits2_pos q) - 53) by lia.
  apply Prim2SF_SF2Prim, valid_norm53; assumption.
Qed.

(** ** Counting by one *)

(** Below 2^53 - 1, adding 1 to the double of [k] gives the double of
    [k + 1]: a counter that starts at 0 is exact that far. *)
Lemma of_Z_succ k :
  0 <= k < MAX_SAFE_INTEGER -> (of_Z k + 1)%float = of_Z (k + 1).
Proof.
  unfold MAX_SAFE_INTEGER.
  intros Hk. destruct k as [|q|q]; try lia.
  - vm_compute. reflexivity.
  - apply Prim2SF_inj. rewrite add_spec.
    replace (Zpos q + 1) with (Zpos (q + 1)) by lia.
    rewrite !Prim2SF_of_Z_pos by lia.
    change (Prim2SF 1) with (S754_finite false 4503599627370496 (-52)).
    pose proof (digits2_bound q ltac:(lia)) as Hd.
    pose proof (digits2_bound (q + 1) ltac:(lia)) as Hd'.
    assert (0 < Zpos (digits2_pos q)) by lia.
    unfold SF64add, SFadd.
    replace (Z.min (Zpos (digits2_pos q) - 53) (-52)) with (-52) by lia.
    assert (Hl : fst (shl_align (norm53 q) (Zpos (digits2_pos q) - 53) (-52))
                 = shlp q 52).
    { unfold shl_align.
      remember (-52 - (Zpos (digits2_pos q) - 53)) as z eqn:Hz.
      destruct z as [|z|z]; try lia; cbn [fst].
      - unfold norm53. f_equal. lia.
      - rewrite Pos_iter_shlp. unfold norm53. rewrite shlp_add. f_equal. lia. }
    rewrite Hl.
    change (fst (shl_align 4503599627370496 (-52) (-52))) with (shlp 1 52).
    cbn [cond_Zopp].
    replace (Zpos (shlp q 52) + Zpos (shlp 1 52)) with (Zpos (shlp (q + 1) 52))
      by (rewrite !shlp_Z; lia).
    cbn [binary_normalize].
    rewrite binary_round_shlp by lia.
    f_equal; lia.
Qed.

(** At 2^53 the counter sticks: 2^53 + 1 rounds back to 2^53. *)
Lemma of_Z_stuck : (of_Z (2 ^ 53) + 1)%float = of_Z (2 ^ 53).
Proof. vm_compute. reflexivity. Qed.

Lemma of_Z_last : (of_Z MAX_SAFE_INTEGER + 1)%float = of_Z (2 ^ 53).
Proof. vm_compute. reflexivity. Qed.

(** The double a counter holds after [n] increments from 0. *)
Lemma counter_succ n :
  0 <= n ->
  (of_Z (Z.min n (2 ^ 53)) + 1)%float = of_Z (Z.min (n + 1) (2 ^ 53)).
Proof.
  intros Hn.
  destruct (Z.lt_ge_cases n MAX_SAFE_INTEGER) as [Hlt|Hge].
  - unfold MAX_SAFE_INTEGER in Hlt.
    rewrite !Z.min_l by lia. apply of_Z_succ. unfold MAX_SAFE_INTEGER. lia.
  - unfold MAX_SAFE_INTEGER in Hge.
    destruct (Z.eq_dec n 9007199254740991) as [->|Hne].
    + exact of_Z_last.
    + rewrite !Z.min_r by lia. exact of_Z_stuck.
Qed.

(** ** Products of positive doubles *)

Lemma size_bounds p : 2 ^ (Zpos (Pos.size p) - 1) <= Zpos p < 2 ^ Zpos (Pos.size p).
Proof.
  pose proof (Pos.size_le p) as Hle. pose proof (Pos.size_gt p) as Hgt.
  assert (H2 : 2 ^ Zpos (Pos.size p) = Zpos (2 ^ Pos.size p)) by (rewrite Pos2Z.inj_pow; reflexivity).
  split.
  - assert (2 * 2 ^ (Zpos (Pos.size p) - 1) = 2 ^ Zpos (Pos.size p)) as E.
    { rewrite <- Z.pow_succ_r by lia. f_equal. lia. }
    assert (Zpos (2 ^ Pos.size p) <= Zpos p~0) by exact Hle.
    rewrite Pos2Z.inj_xO in *. lia.
  - rewrite H2. exact Hgt.
Qed.

Lemma digits2_mul a b :
  Zpos (digits2_pos a) + Zpos (digits2_pos b) - 1 <= Zpos (digits2_pos (a * b)).
Proof.
  rewrite !digits2_size.
  pose proof (size_bounds a) as [Ha _]. pose proof (size_bounds b) as [Hb _].
  pose proof (size_bounds (a * b)) as [_ Hab].
  destruct (Z.le_gt_cases (Zpos (Pos.size a) + Zpos (Pos.size b) - 1) (Zpos (Pos.size (a * b))))
    as [|Hgt]; [assumption|exfalso].
  assert (2 ^ Zpos (Pos.size (a * b)) <= 2 ^ (Zpos (Pos.size a) - 1 + (Zpos (Pos.size b) - 1)))
    by (apply Z.pow_le_mono_r; lia).
  rewrite Z.pow_add_r in * by lia.
  rewrite Pos2Z.inj_mul in Hab.
  assert (2 ^ (Zpos (Pos.size a) - 1) * 2 ^ (Zpos (Pos.size b) - 1) <= Zpos a * Zpos b)
    by (apply Z.mul_le_mono_nonneg; lia).
  lia.
Qed.

(** Shifting right by fewer bits than the mantissa has leaves it positive. *)
Lemma shr_keeps_pos k : forall p r s,
  Z.of_nat k < Zpos (digits2_pos p) ->
  exists p' r' s',
    Nat.iter k shr_1 {| shr_m := Zpos p; shr_r := r; shr_s := s |}
    = {| shr_m := Zpos p'; shr_r := r'; shr_s := s' |}.
Proof.
  induction k as [|k IH]; intros p r s Hk.
  - exists p, r, s. reflexivity.
  - rewrite Nat.iter_succ_r.
    destruct p as [p|p|]; cbn [shr_1 digits2_pos] in *.
    + apply IH. lia.
    + apply IH. lia.
    + lia.
Qed.

Lemma shr_fexp_pos p e l :
  -1074 < Zpos (digits2_pos p) + e ->
  exists p' r' s' e',
    shr_fexp prec emax (Zpos p) e l
    = ({| shr_m := Zpos p'; shr_r := r'; shr_s := s' |}, e') /\ -1074 <= e'.
Proof.
  intros Hd. unfold shr_fexp, fexp, SpecFloat.emin, prec, emax. cbn [Zdigits2].
  set (d := Zpos (digits2_pos p)) in *.
  assert (exists r s, shr_record_of_loc (Zpos p) l = {| shr_m := Zpos p; shr_r := r; shr_s := s |})
    as (r & s & ->).
  { destruct l as [|[| |]]; cbn; eauto. }
  remember (Z.max (d + e - 53) (3 - 1024 - 53) - e) as z eqn:Hz.
  destruct z as [|z|z]; cbn [shr].
  - exists p, r, s, e. split; [reflexivity|lia].
  - rewrite iter_pos_nat.
    destruct (shr_keeps_pos (Pos.to_nat z) p r s) as (p' & r' & s' & ->); [fold d; lia|].
    exists p', r', s', (e + Zpos z). split; [reflexivity|lia].
  - exists p, r, s, e. split; [reflexivity|lia].
Qed.

Lemma binary_round_aux_pos p e l :
  -1074 < Zpos (digits2_pos p) + e ->
  SFpositive (binary_round_aux prec emax false (Zpos p) e l).
Proof.
  intros Hd. unfold binary_round_aux.
  destruct (shr_fexp_pos p e l Hd) as (p' & r' & s' & e' & -> & He').
  cbn [shr_m].
  assert (exists q, round_nearest_even (Zpos p')
            (loc_of_shr_record {| shr_m := Zpos p'; shr_r := r'; shr_s := s' |}) = Zpos q)
    as (q & ->).
  { destruct r', s'; cbn; try destruct p'; cbn; eauto. }
  destruct (shr_fexp_pos q e' loc_Exact) as (p'' & r'' & s'' & e'' & -> & He'').
  { assert (0 < Zpos (digits2_pos q)) by lia. lia. }
  cbn [shr_m]. destruct (e'' <=? emax - prec); exact I.
Qed.

Lemma ltb_zero_positive x :
  (0 <? x)%float = true <-> SFpositive (Prim2SF x).
Proof.
  rewrite ltb_spec. change (Prim2SF 0) with (S754_zero false).
  unfold SFltb. destruct (Prim2SF x) as [s|[|]| |[|] m e]; cbn; intuition congruence.
Qed.

(** A positive double times a double that is at least 1 is positive. *)
Lemma mul_positive x c mc ec :
  Prim2SF c = S754_finite false mc ec ->
  1 <= Zpos (digits2_pos mc) + ec ->
  (0 <? x)%float = true -> (0 <? x * c)%float = true.
Proof.
  intros Hc Hge. rewrite !ltb_zero_positive, mul_spec, Hc.
  pose proof (Prim2SF_valid x) as Hv.
  destruct (Prim2SF x) as [s|[|]| |[|] m e]; cbn; try tauto.
  intros _. apply binary_round_aux_pos.
  cbn in Hv. apply andb_prop in Hv as [Hcan _].
  unfold canonical_mantissa, fexp, SpecFloat.emin, prec, emax in Hcan.
  apply Z.eqb_eq in Hcan.
  pose proof (digits2_mul m mc).
  assert (0 < Zpos (digits2_pos m)) by lia.
  lia.
Qed.

Lemma months_positive t :
  (0 <? t)%float = true -> (0 <? t * 12 * 2)%float = true.
Proof.
  intros Ht.
  apply (mul_positive _ 2 4503599627370496 (-51)); [reflexivity|cbn; lia|].
  apply (mul_positive _ 12 6755399441055744 (-49)); [reflexivity|cbn; lia|].
  exact Ht.
Qed.

(** ** Order of the doubles of integers *)

Lemma norm53_Z q :
  Zpos (digits2_pos q) <= 53 ->
  Zpos (norm53 q) = Zpos q * 2 ^ (53 - Zpos (digits2_pos q)).
Proof. intros Hd. unfold norm53. rewrite shlp_Z. f_equal. f_equal. lia. Qed.


(** ** The sign of a difference *)

Lemma shl_align_Z m e ez :
  ez <= e -> Zpos (fst (shl_align m e ez)) = Zpos m * 2 ^ (e - ez).
Proof.
  intros Hle. unfold shl_align.
  remember (ez - e) as z eqn:Hz. destruct z as [|z|z]; try lia; cbn [fst].
  - replace (e - ez) with 0 by lia. lia.
  - rewrite Pos_iter_shlp, shlp_Z. f_equal. f_equal. lia.
Qed.

(** A rounded positive integer is not below zero. *)
Lemma binary_round_not_negative p e :
  SFltb (binary_round prec emax false p e) (S754_zero false) = false.
Proof.
  unfold binary_round. destruct (shl_align p e _) as [mz ez].
  unfold binary_round_aux.
  destruct (shr_fexp prec emax (Zpos mz) ez loc_Exact) as [mrs' e'].
  destruct (shr_fexp prec emax _ e' loc_Exact) as [mrs'' e''].
  destruct (shr_m mrs'') as [|q|q]; try reflexivity.
  destruct (e'' <=? emax - prec); reflexivity.
Qed.

(** The mantissa of a double that is not in the lowest binade has 53 bits. *)
Lemma valid_mantissa m e s :
  valid_binary (S754_finite s m e) = true ->
  -1074 <= e /\ Zpos (digits2_pos m) <= 53 /\
  (-1074 < e -> Zpos (digits2_pos m) = 53).
Proof.
  cbn [SpecFloat.valid_binary]. unfold bounded, canonical_mantissa.
  intros Hv. apply andb_prop in Hv as [Hc _]. apply Z.eqb_eq in Hc.
  unfold fexp, SpecFloat.emin, prec, emax in Hc. lia.
Qed.

Lemma mantissa_bounds m :
  2 ^ (Zpos (digits2_pos m) - 1) <= Zpos m < 2 ^ Zpos (digits2_pos m).
Proof. rewrite digits2_size. apply size_bounds. Qed.

(** Of two valid doubles of the same sign, the one with the larger
    exponent has the larger magnitude. *)
Lemma larger_exponent mx ex my ey sx sy :
  valid_binary (S754_finite sx mx ex) = true ->
  valid_binary (S754_finite sy my ey) = true ->
  ey < ex ->
  Zpos my * 2 ^ (ey - Z.min ex ey) < Zpos mx * 2 ^ (ex - Z.min ex ey).
Proof.
  intros Hx Hy Hlt.
  apply valid_mantissa in Hx as (Hex & Hdx & Hnx).
  apply valid_mantissa in Hy as (Hey & Hdy & _).
  rewrite Z.min_r by lia. rewrite Z.sub_diag, Z.mul_1_r.
  pose proof (mantissa_bounds mx) as [Hmx _].
  pose proof (mantissa_bounds my) as [_ Hmy].
  rewrite (Hnx ltac:(lia)) in Hmx.
  assert (Zpos my < 2 ^ 53).
  { eapply Z.lt_le_trans; [exact Hmy|]. apply Z.pow_le_mono_r; lia. }
  assert (2 ^ 1 <= 2 ^ (ex - ey)) by (apply Z.pow_le_mono_r; lia).
  change (2 ^ (53 - 1)) with 4503599627370496 in Hmx.
  change (2 ^ 53) with 9007199254740992 in *. change (2 ^ 1) with 2 in *.
  nia.
Qed.

(** If [x - y] is below zero then [x] is below [y]. *)
Lemma sub_negative x y :
  (x - y <? 0)%float = true -> (x <? y)%float = true.
Proof.
  rewrite !ltb_spec, sub_spec. change (Prim2SF 0) with (S754_zero false).
  pose proof (Prim2SF_valid x) as Hvx. pose proof (Prim2SF_valid y) as Hvy.
  destruct (Prim2SF x) as [sx|sx| |sx mx ex], (Prim2SF y) as [sy|sy| |sy my ey];
    try solve [cbn; congruence
              | destruct sx; cbn; congruence
              | destruct sy; cbn; congruence
              | destruct sx, sy; cbn; congruence].
  unfold SF64sub, SFsub. intros Hneg.
  set (ez := Z.min ex ey) in *.
  assert (Hlx := shl_align_Z mx ex ez ltac:(unfold ez; lia)).
  assert (Hly := shl_align_Z my ey ez ltac:(unfold ez; lia)).
  set (X := fst (shl_align mx ex ez)) in *. set (Y := fst (shl_align my ey ez)) in *.
  assert (Hdiff : cond_Zopp sx (Zpos X) - cond_Zopp sy (Zpos Y) < 0).
  { destruct (cond_Zopp sx (Zpos X) - cond_Zopp sy (Zpos Y)) as [|p|p]; [| |lia].
    - cbn in Hneg. discriminate.
    - cbn [binary_normalize] in Hneg. rewrite binary_round_not_negative in Hneg.
      discriminate. }
  clear Hneg. unfold SFltb, SFcompare.
  destruct sx, sy; cbn [cond_Zopp] in Hdiff; try reflexivity; try lia.
  - destruct (Z.compare_spec ex ey) as [Heq|Hlt|Hgt].
    + subst ey. replace (ex - ez) with 0 in * by (unfold ez; lia).
      rewrite Pos.compare_cont_spec; cbn [Pos.switch_Eq].
      destruct (Pos.compare_spec mx my) as [->|Hlt|Hgt]; lia || reflexivity.
    + pose proof (larger_exponent my ey mx ex true true Hvy Hvx Hlt) as Hle.
      rewrite Z.min_comm in Hle. fold ez in Hle. lia.
    + reflexivity.
  - destruct (Z.compare_spec ex ey) as [Heq|Hlt|Hgt].
    + subst ey. replace (ex - ez) with 0 in * by (unfold ez; lia).
      rewrite Pos.compare_cont_spec; cbn [Pos.switch_Eq].
      destruct (Pos.compare_spec mx my) as [->|Hlt|Hgt]; lia || reflexivity.
    + reflexivity.
    + pose proof (larger_exponent mx ex my ey false false Hvx Hvy Hgt) as Hle.
      fold ez in Hle. lia.
Qed.

(** An integer double up to 2^53 is below every double of exponent 2 or
    more. *)
Lemma of_Z_below_large k x m e :
  0 <= k <= 2 ^ 53 ->
  Prim2SF x = S754_finite false m e -> 2 <= e ->
  (of_Z k <? x)%float = true.
Proof.
  intros Hk Hx He. rewrite ltb_spec, Hx.
  destruct (Z.eq_dec k (2 ^ 53)) as [->|Hne].
  - change (Prim2SF (of_Z (2 ^ 53))) with (S754_finite false 4503599627370496 1).
    unfold SFltb, SFcompare.
    destruct (Z.compare_spec 1 e); first [lia | reflexivity].
  - destruct k as [|q|q]; try lia.
    + reflexivity.
    + rewrite Prim2SF_of_Z_pos by lia.
      pose proof (digits2_bound q ltac:(lia)).
      unfold SFltb, SFcompare.
      destruct (Z.compare_spec (Zpos (digits2_pos q) - 53) e); first [lia | reflexivity].
Qed.

End FloatFacts.

(** * The simulation loop *)

Section LoopFacts.
Context {JS : Host}.
Variables (monthlyRate monthlyPayment0 extraMonthlyPayment maxMonths : float)
          (baseDate : Date).

Abbreviation cond := (loop_cond maxMonths).
Abbreviation body := (loop_body monthlyRate monthlyPayment0 extraMonthlyPayment baseDate).
Abbreviation loop :=
  (while_loop monthlyRate monthlyPayment0 extraMonthlyPayment maxMonths baseDate).

Lemma while_loop_unfold fuel s :
  loop fuel s =
  if cond s then
    match fuel with O => None | S fuel' => loop fuel' (body s) end
  else Some s.
Proof. destruct fuel; reflexivity. Qed.

(** An invariant of the body holds when the loop ends, and the test of the
    loop fails there. *)
Lemma while_loop_invariant (I : LoopState -> Prop) :
  (forall s, I s -> cond s = true -> I (body s)) ->
  forall fuel s s', I s -> loop fuel s = Some s' -> I s' /\ cond s' = false.
Proof.
  intros Hstep. induction fuel as [|fuel IH]; intros s s' Hs Hrun;
    rewrite while_loop_unfold in Hrun; destruct (cond s) eqn:Hc;
    try discriminate; try (injection Hrun as <-; auto).
  apply (IH (body s)); auto.
Qed.

(** More fuel does not change a run that ended. *)
Lemma while_loop_more_fuel fuel : forall fuel' s s',
  loop fuel s = Some s' -> (fuel <= fuel')%nat -> loop fuel' s = Some s'.
Proof.
  induction fuel as [|fuel IH]; intros fuel' s s' Hrun Hle;
    rewrite while_loop_unfold in Hrun; rewrite while_loop_unfold;
    destruct (cond s); try discriminate; try assumption.
  destruct fuel' as [|fuel']; [lia|]. apply IH; [assumption|lia].
Qed.

(** A measure that every pass lowers bounds the number of passes. *)
Lemma while_loop_terminates (I : LoopState -> Prop) (mu : LoopState -> nat) :
  (forall s, I s -> cond s = true -> I (body s) /\ (mu (body s) < mu s)%nat) ->
  forall fuel s, I s -> (mu s <= fuel)%nat -> exists s', loop fuel s = Some s'.
Proof.
  intros Hstep. induction fuel as [|fuel IH]; intros s Hs Hmu;
    rewrite while_loop_unfold; destruct (cond s) eqn:Hc; eauto;
    destruct (Hstep s Hs Hc) as [Hs' Hlt]; [lia|].
  apply IH; [assumption|lia].
Qed.

(** ** What a pass does *)

Lemma body_schedule s :
  exists e,
    st_schedule (body s) = st_schedule s ++ [e] /\
    paymentNumber e = st_monthsToPayoff s + 1 /\
    interestPaid e = month_interest monthlyRate (st_balance s) /\
    principalPaid e =
      month_principal monthlyRate monthlyPayment0 extraMonthlyPayment (st_balance s) /\
    remainingBalance e =
      month_remaining monthlyRate monthlyPayment0 extraMonthlyPayment (st_balance s) /\
    remainingBalance e = st_balance (body s).
Proof.
  unfold loop_body, month_interest, month_principal, month_remaining, month_balance.
  destruct (st_balance s - (monthlyPayment0 - st_balance s * monthlyRate + extraMonthlyPayment) <? 0);
    eexists; cbn; repeat split; reflexivity.
Qed.

Lemma body_months s : st_monthsToPayoff (body s) = st_monthsToPayoff s + 1.
Proof.
  unfold loop_body.
  destruct (st_balance s - (monthlyPayment0 - st_balance s * monthlyRate + extraMonthlyPayment) <? 0);
    reflexivity.
Qed.

(** In a month that overpays, the running interest total is lowered by
    the overpayment (not below 0) and the balance is put to 0. *)
Lemma body_overpayment s :
  (month_balance monthlyRate monthlyPayment0 extraMonthlyPayment (st_balance s) <? 0) = true ->
  st_totalInterestPaid (body s) =
    Math_max 0 ((st_totalInterestPaid s + st_balance s * monthlyRate)
                - Math_abs (month_balance monthlyRate monthlyPayment0
                              extraMonthlyPayment (st_balance s))) /\
  st_balance (body s) = round2 0.
Proof.
  unfold loop_body, month_balance. intros ->. split; reflexivity.
Qed.

Lemma body_no_overpayment s :
  (month_balance monthlyRate monthlyPayment0 extraMonthlyPayment (st_balance s) <? 0) = false ->
  st_totalInterestPaid (body s) = st_totalInterestPaid s + st_balance s * monthlyRate.
Proof.
  unfold loop_body, month_balance. intros ->. reflexivity.
Qed.

(** ** Invariants *)

Lemma counted_body s : counted s -> counted (body s).
Proof.
  intros [Hm Hn]. destruct (body_schedule s) as (e & Hsch & Hnum & _).
  split.
  - rewrite body_months, Hsch, Hm, length_app. cbn [length].
    rewrite FloatFacts.counter_succ by lia. f_equal. lia.
  - intros k e' Hk. rewrite Hsch in Hk.
    destruct (Nat.lt_ge_cases k (length (st_schedule s))) as [Hlt|Hge].
    + rewrite nth_error_app1 in Hk by assumption. eauto.
    + rewrite nth_error_app2 in Hk by assumption.
      destruct (k - length (st_schedule s))%nat as [|j] eqn:Hj.
      * injection Hk as <-. rewrite Hnum, Hm.
        rewrite FloatFacts.counter_succ by lia. f_equal. lia.
      * destruct j; discriminate.
Qed.

Lemma settled_body s : settled (body s).
Proof.
  destruct (body_schedule s) as (e & Hsch & _ & _ & _ & _ & Hbal).
  intros l e' Heq. rewrite Hsch in Heq.
  apply app_inj_tail in Heq as [_ <-]. exact Hbal.
Qed.

Lemma last_cons_default {A} (m : list A) : forall a b, last (a :: m) b = last m a.
Proof.
  induction m as [|x m IH]; intros a b; [reflexivity|].
  change (last (a :: x :: m) b) with (last (x :: m) b).
  rewrite (IH x b), (IH x a). reflexivity.
Qed.

Lemma closing_cons b x l : closing b (x :: l) = closing (remainingBalance x) l.
Proof. unfold closing. cbn [map]. apply last_cons_default. Qed.

Lemma closing_app b l e : closing b (l ++ [e]) = remainingBalance e.
Proof. unfold closing. rewrite map_app. cbn. apply last_last. Qed.

Lemma ledger_app b l e :
  ledger monthlyRate monthlyPayment0 extraMonthlyPayment b l ->
  interestPaid e = month_interest monthlyRate (closing b l) ->
  principalPaid e =
    month_principal monthlyRate monthlyPayment0 extraMonthlyPayment (closing b l) ->
  remainingBalance e =
    month_remaining monthlyRate monthlyPayment0 extraMonthlyPayment (closing b l) ->
  ledger monthlyRate monthlyPayment0 extraMonthlyPayment b (l ++ [e]).
Proof.
  revert b. induction l as [|x l IH]; intros b Hl Hi Hp Hr.
  - cbn in *. auto.
  - rewrite closing_cons in Hi, Hp, Hr.
    destruct Hl as (Hxi & Hxp & Hxr & Hl).
    cbn [app ledger]. repeat split; try assumption.
    apply IH; assumption.
Qed.

Lemma kept_ledger_body b s :
  kept_ledger monthlyRate monthlyPayment0 extraMonthlyPayment b s ->
  kept_ledger monthlyRate monthlyPayment0 extraMonthlyPayment b (body s).
Proof.
  intros [Hl Hb]. destruct (body_schedule s) as (e & Hsch & _ & Hi & Hp & Hr & Hbal).
  unfold kept_ledger. rewrite Hsch, closing_app. split; [|symmetry; exact Hbal].
  apply ledger_app; rewrite <- ?Hb; assumption.
Qed.

(** ** Within the range where the counter is exact *)

Hypothesis Hcap : (maxMonths <=? of_Z MAX_SAFE_INTEGER) = true.

Lemma in_range_months s :
  in_range s -> st_monthsToPayoff s = of_nat (length (st_schedule s)).
Proof.
  intros [[Hm _] Hle]. rewrite Hm. unfold of_nat, MAX_SAFE_INTEGER in *.
  f_equal. lia.
Qed.

Lemma in_range_not_last s :
  in_range s -> cond s = true ->
  (Z.of_nat (length (st_schedule s)) < MAX_SAFE_INTEGER)%Z.
Proof.
  intros Hr Hc. pose proof (in_range_months s Hr) as Hm. destruct Hr as [_ Hle].
  apply andb_prop in Hc as [_ Hlt].
  destruct (Z.eq_dec (Z.of_nat (length (st_schedule s))) MAX_SAFE_INTEGER) as [Heq|]; [|lia].
  rewrite Hm in Hlt. unfold of_nat in Hlt. rewrite Heq in Hlt.
  rewrite (FloatFacts.leb_not_gt _ _ Hcap) in Hlt. discriminate.
Qed.

Lemma in_range_body s : in_range s -> cond s = true -> in_range (body s).
Proof.
  intros Hr Hc. pose proof (in_range_not_last s Hr Hc) as Hlt.
  destruct Hr as [Hcnt _]. split; [now apply counted_body|].
  destruct (body_schedule s) as (e & -> & _). rewrite length_app. cbn [length]. lia.
Qed.

Lemma below_cap_body s :
  in_range s -> cond s = true -> below_cap maxMonths (st_schedule (body s)).
Proof.
  intros Hr Hc. right. pose proof (in_range_months s Hr) as Hm.
  apply andb_prop in Hc as [_ Hlt]. rewrite Hm in Hlt.
  destruct (body_schedule s) as (e & -> & _). rewrite length_app. cbn [length].
  unfold of_nat in Hlt.
  replace (Z.of_nat (length (st_schedule s) + 1) - 1)%Z
    with (Z.of_nat (length (st_schedule s))) by lia.
  exact Hlt.
Qed.

(** The loop ends within [MAX_SAFE_INTEGER] passes. *)
Lemma while_loop_ends s :
  in_range s ->
  exists s', loop (Z.to_nat MAX_SAFE_INTEGER) s = Some s'.
Proof.
  intros Hr.
  apply (while_loop_terminates in_range
           (fun s => Z.to_nat (MAX_SAFE_INTEGER - Z.of_nat (length (st_schedule s))))).
  - intros s0 Hr0 Hc0. split; [now apply in_range_body|].
    pose proof (in_range_not_last s0 Hr0 Hc0) as Hlt.
    destruct (body_schedule s0) as (e & -> & _). rewrite length_app. cbn [length]. lia.
  - assumption.
  - lia.
Qed.

End LoopFacts.

(** * The engine *)

Section EngineFacts.
Context {JS : Host}.

Lemma valid_input_accepted p r t e :
  valid_input p r t e = true -> invalid_input p r t e = false.
Proof.
  unfold valid_input, invalid_input. intros Hv.
  apply andb_prop in Hv as [Hv He]. apply andb_prop in Hv as [Hv Ht].
  apply andb_prop in Hv as [Hp Hr].
  rewrite (FloatFacts.ltb_not_ge _ _ Hp), (FloatFacts.leb_not_gt _ _ Hr),
    (FloatFacts.ltb_not_ge _ _ Ht), (FloatFacts.leb_not_gt _ _ He).
  reflexivity.
Qed.

(** A call that returns went through the loop. *)
Lemma calculateAmortization_returned fuel p r t e d res :
  calculateAmortization fuel p r t e d = Returned res ->
  invalid_input p r t e = false /\
  exists s,
    while_loop (r / 100 / 12) (standardPayment p r t) e (t * 12 * 2)
      (Date_firstOfMonth d) fuel (initial p) = Some s /\
    monthsToPayoff res = st_monthsToPayoff s /\
    schedule res = st_schedule s /\
    monthlyPayment res = standardPayment p r t /\
    totalInterestPaid res = round2 (st_totalInterestPaid s).
Proof.
  unfold calculateAmortization. fold (initial p).
  destruct (invalid_input p r t e); [discriminate|].
  destruct (while_loop _ _ _ _ _ fuel (initial p)) as [s|]; [|discriminate].
  intros [= <-]. split; [reflexivity|]. exists s. cbn. auto.
Qed.

(** An accepted call returns as soon as its loop ends. *)
Lemma calculateAmortization_returns fuel p r t e d s :
  invalid_input p r t e = false ->
  while_loop (r / 100 / 12) (standardPayment p r t) e (t * 12 * 2)
    (Date_firstOfMonth d) fuel (initial p) = Some s ->
  exists res, calculateAmortization fuel p r t e d = Returned res.
Proof.
  unfold calculateAmortization. fold (initial p). intros -> ->. eauto.
Qed.

Lemma calculateAmortization_more_fuel fuel fuel' p r t e d res :
  calculateAmortization fuel p r t e d = Returned res ->
  (fuel <= fuel')%nat ->
  calculateAmortization fuel' p r t e d = Returned res.
Proof.
  unfold calculateAmortization. fold (initial p).
  destruct (invalid_input p r t e); [discriminate|].
  destruct (while_loop _ _ _ _ _ fuel (initial p)) as [s|] eqn:Hrun; [|discriminate].
  intros Hres Hle.
  rewrite (while_loop_more_fuel _ _ _ _ _ _ _ _ _ Hrun Hle). exact Hres.
Qed.

Lemma counted_initial p : counted (initial p).
Proof. split; [reflexivity|]. intros [|k] e'; discriminate. Qed.

Lemma in_range_initial p : in_range (initial p).
Proof. split; [apply counted_initial|]. cbn. unfold MAX_SAFE_INTEGER. lia. Qed.

Lemma settled_initial p : settled (initial p).
Proof. intros [|x l] e' Heq; discriminate. Qed.

Lemma kept_ledger_initial mr mp ex p : kept_ledger mr mp ex p (initial p).
Proof. split; [exact I|reflexivity]. Qed.

(** Within the range of the counter the call returns, with one record per
    month counted, numbered from 1, and the last pass begun below the cap. *)
Lemma calculateAmortization_total p r t e d :
  valid_input p r t e = true ->
  (t * 12 * 2 <=? of_Z MAX_SAFE_INTEGER) = true ->
  exists res,
    (forall fuel, (Z.to_nat MAX_SAFE_INTEGER <= fuel)%nat ->
       calculateAmortization fuel p r t e d = Returned res) /\
    monthsToPayoff res = of_nat (length (schedule res)) /\
    (forall k x, nth_error (schedule res) k = Some x ->
       paymentNumber x = of_nat (S k)) /\
    below_cap (t * 12 * 2) (schedule res) /\
    (Z.of_nat (length (schedule res)) <= MAX_SAFE_INTEGER)%Z.
Proof.
  intros Hv Hcap. apply valid_input_accepted in Hv.
  destruct (while_loop_ends (r / 100 / 12) (standardPayment p r t) e (t * 12 * 2)
              (Date_firstOfMonth d) Hcap (initial p) (in_range_initial p)) as [s Hrun].
  destruct (calculateAmortization_returns _ _ _ _ _ _ _ Hv Hrun) as [res Hres].
  exists res. split.
  { intros fuel Hle. eapply calculateAmortization_more_fuel; eassumption. }
  apply calculateAmortization_returned in Hres as (_ & s' & Hrun' & Hm & Hs & _).
  rewrite Hrun in Hrun'. injection Hrun' as <-.
  destruct (while_loop_invariant (r / 100 / 12) (standardPayment p r t) e (t * 12 * 2)
              (Date_firstOfMonth d)
              (fun s => in_range s /\ below_cap (t * 12 * 2) (st_schedule s))
              ltac:(intros s0 [Hr0 _] Hc0; split;
                    [eapply in_range_body | eapply below_cap_body]; eassumption)
              _ _ _ (conj (in_range_initial p) (or_introl eq_refl)) Hrun)
    as [[Hrange Hbc] _].
  rewrite Hm, Hs. split; [|split; [|split]].
  - apply in_range_months; assumption.
  - intros k x Hk. destruct Hrange as [[_ Hn] Hle].
    rewrite (Hn k x Hk). unfold of_nat. f_equal.
    assert (k < length (st_schedule s))%nat by (apply nth_error_Some; congruence).
    unfold MAX_SAFE_INTEGER in Hle. lia.
  - exact Hbc.
  - apply Hrange.
Qed.

(** Whatever the input, the counter and the payment numbers of a call
    that returns are those of one increment per record. *)
Lemma calculateAmortization_counted fuel p r t e d res :
  calculateAmortization fuel p r t e d = Returned res ->
  monthsToPayoff res
    = of_Z (Z.min (Z.of_nat (length (schedule res))) (2 ^ 53)) /\
  forall k x, nth_error (schedule res) k = Some x ->
    paymentNumber x = of_Z (Z.min (Z.of_nat (S k)) (2 ^ 53)).
Proof.
  intros Hres.
  apply calculateAmortization_returned in Hres as (_ & s & Hrun & Hm & Hs & _).
  destruct (while_loop_invariant _ _ _ _ _ counted
              ltac:(intros s0 Hc0 _; apply counted_body; exact Hc0)
              _ _ _ (counted_initial p) Hrun) as [Hcnt _].
  rewrite Hm, Hs. exact Hcnt.
Qed.

(** The schedule of a call that returns is a ledger opened at the
    principal. *)
Lemma calculateAmortization_ledger fuel p r t e d res :
  calculateAmortization fuel p r t e d = Returned res ->
  ledger (r / 100 / 12) (standardPayment p r t) e p (schedule res).
Proof.
  intros Hres.
  apply calculateAmortization_returned in Hres as (_ & s & Hrun & _ & Hs & _).
  destruct (while_loop_invariant _ _ _ _ _
              (kept_ledger (r / 100 / 12) (standardPayment p r t) e p)
              ltac:(intros s0 Hk0 _; apply kept_ledger_body; exact Hk0)
              _ _ _ (kept_ledger_initial _ _ _ p) Hrun) as [[Hl _] _].
  rewrite Hs. exact Hl.
Qed.

(** With a principal above one cent and a positive term the loop makes a
    first pass. *)
Lemma calculateAmortization_first_pass fuel p r t e d res :
  (0.01 <? p) = true -> (0 <? t) = true ->
  calculateAmortization fuel p r t e d = Returned res ->
  schedule res <> [].
Proof.
  intros Hp Ht Hres.
  apply calculateAmortization_returned in Hres as (_ & s & Hrun & _ & Hs & _).
  rewrite while_loop_unfold in Hrun.
  assert (Hc : loop_cond (t * 12 * 2) (initial p) = true).
  { unfold loop_cond. cbn [initial st_balance st_monthsToPayoff].
    rewrite Hp, (FloatFacts.months_positive t Ht). reflexivity. }
  rewrite Hc in Hrun. destruct fuel as [|fuel]; [discriminate|].
  destruct (while_loop_invariant _ _ _ _ _ (fun s => st_schedule s <> [])
              ltac:(intros s0 _ _;
                    destruct (body_schedule (r / 100 / 12) (standardPayment p r t) e
                                (Date_firstOfMonth d) s0) as (x & -> & _);
                    intros Habs; apply app_eq_nil in Habs as [_ Habs]; discriminate)
              _ _ _
              ltac:(destruct (body_schedule (r / 100 / 12) (standardPayment p r t) e
                                (Date_firstOfMonth d) (initial p)) as (x & -> & _);
                    intros Habs; apply app_eq_nil in Habs as [_ Habs]; discriminate)
              Hrun) as [Hne _].
  rewrite Hs. exact Hne.
Qed.

End EngineFacts.

(** * The scenario of the specification: 300000 at 6% over 30 years *)

Section Scenario.
Context {JS : Host}.

(** [Math.pow(1.005, 360)] is within 256 units in the last place. *)
Hypothesis pow_accurate :
  In (Math_pow 1.005 360) (within_ulps 256 compound_360).

Lemma payment_300k : standardPayment 300000 6 30 = 1798.65.
Proof.
  assert (Hall : forallb
            (fun c => Leibniz.eqb (round2 (300000 * (0.005 * c) / (c - 1))) 1798.65)
            (within_ulps 256 compound_360) = true) by (vm_compute; reflexivity).
  rewrite forallb_forall in Hall. specialize (Hall _ pow_accurate).
  apply Leibniz.eqb_spec in Hall. exact Hall.
Qed.

Lemma run_300k d :
  exists res,
    calculateAmortization 361 300000 6 30 0 d = Returned res /\
    monthsToPayoff res = 361 /\
    monthlyPayment res = 1798.65 /\
    totalInterestPaid res = 345718.26 /\
    totalInterestSaved res = 1795.74 /\
    sum_interestPaid (schedule res) = 347515.45000000024 /\
    map amounts (firstn 1 (schedule res)) = [(1, 1500, 298.65, 299701.35)] /\
    map amounts (skipn 359 (schedule res)) =
      [(360, 8.96, 1789.69, 1.44); (361, 0.01, 1798.64, 0)].
Proof.
  unfold calculateAmortization. rewrite payment_300k.
  eexists. split; [vm_compute; reflexivity|].
  repeat split; vm_compute; reflexivity.
Qed.

(** The same loan with one cent of extra payment a month. *)
Lemma run_300k_extra_cent d :
  exists res,
    calculateAmortization 361 300000 6 30 0.01 d = Returned res /\
    monthsToPayoff res = 360 /\
    totalInterestPaid res = 347500.74 /\
    map amounts (skipn 359 (schedule res)) = [(360, 8.91, 1789.75, 0)].
Proof.
  unfold calculateAmortization. rewrite payment_300k.
  eexists. split; [vm_compute; reflexivity|].
  repeat split; vm_compute; reflexivity.
Qed.
End Scenario.

(** * Loans at a zero rate, where [Math.pow] is not called *)

Section ZeroRate.
Context {JS : Host}.

(** 10.01 over one year with 9.17 extra a month. *)
Lemma run_one_cent_left d :
  exists res x,
    calculateAmortization 1 10.01 0 1 9.17 d = Returned res /\
    monthsToPayoff res = 1 /\
    schedule res = [x] /\
    amounts x = (1, 0, 10, 0.01).
Proof.
  do 2 eexists. split; [vm_compute; reflexivity|]. repeat split; vm_compute; reflexivity.
Qed.

(** 1200 over one year. *)
Lemma run_1200 d :
  exists res,
    calculateAmortization 12 1200 0 1 0 d = Returned res /\
    monthsToPayoff res = 12 /\
    map amounts (skipn 11 (schedule res)) = [(12, 0, 100, 0)] /\
    length (schedule res) = 12%nat.
Proof.
  eexists. split; [vm_compute; reflexivity|]. repeat split; vm_compute; reflexivity.
Qed.


(** A loan of one cent. *)
Lemma run_one_cent_loan d :
  exists res,
    calculateAmortization 0 0.01 0 1 0 d = Returned res /\
    monthsToPayoff res = 0 /\
    schedule res = [].
Proof.
  eexists. split; [vm_compute; reflexivity|]. split; vm_compute; reflexivity.
Qed.

(** A loan of 1 at a zero rate over 1e300 years: the payment rounds to 0,
    the balance stays at 1, and the counter, which stops growing at 2^53,
    never reaches the cap of 2.4e301 months.  No amount of fuel ends the
    loop. *)
Lemma unbounded_term_never_returns fuel d :
  valid_input 1 0 1e300 0 = true /\
  calculateAmortization fuel 1 0 1e300 0 d = OutOfFuel.
Proof.
  split; [reflexivity|].
  unfold calculateAmortization.
  change (invalid_input 1 0 1e300 0) with false. cbv iota zeta.
  change (standardPayment 1 0 1e300) with 0.
  change (0 / 100 / 12) with 0.
  set (cap := 1e300 * 12 * 2).
  fold (initial 1).
  assert (Hloop : forall fuel s, counted s -> st_balance s = 1 ->
            while_loop 0 0 0 cap (Date_firstOfMonth d) fuel s = None).
  { clear fuel. induction fuel as [|fuel IH]; intros s Hc Hb;
      rewrite while_loop_unfold;
      assert (Hcond : loop_cond cap s = true)
        by (unfold loop_cond; rewrite Hb; destruct Hc as [-> _];
            erewrite FloatFacts.of_Z_below_large;
            [reflexivity | lia | vm_compute; reflexivity | lia]);
      rewrite Hcond; [reflexivity|].
    apply IH; [apply counted_body; exact Hc|].
    destruct (body_schedule 0 0 0 (Date_firstOfMonth d) s) as (x & _ & _ & _ & _ & Hr & <-).
    rewrite Hr, Hb. reflexivity. }
  rewrite (Hloop fuel (initial 1) (counted_initial 1) eq_refl). reflexivity.
Qed.
End ZeroRate.

(** The reference host's power is 112 units in the last place below. *)
Lemma pow_accurate_ref :
  In (Math_pow (Host:=RefHost.host) 1.005 360) (within_ulps 256 compound_360).
Proof.
  assert (Hex : existsb (Leibniz.eqb (Math_pow (Host:=RefHost.host) 1.005 360))
                  (within_ulps 256 compound_360) = true) by (vm_compute; reflexivity).
  apply existsb_exists in Hex as (c & Hin & Heq).
  apply Leibniz.eqb_spec in Heq. rewrite Heq. exact Hin.
Qed.

(** * Signs *)

Module FloatSigns.
Import FloatFacts.
Local Open Scope Z_scope.

Lemma not_negative_spec x : (x <? 0)%float = false <-> SFnonneg (Prim2SF x).
Proof.
  rewrite ltb_spec. change (Prim2SF 0) with (S754_zero false). unfold SFltb.
  destruct (Prim2SF x) as [s|[|]| |[|] m e]; cbn; intuition congruence.
Qed.

Lemma shr_1_nonneg mrs : 0 <= shr_m mrs -> 0 <= shr_m (shr_1 mrs).
Proof.
  destruct mrs as [m r s]. cbn [shr_m]. intros Hm.
  destruct m as [|[p|p|]|p]; cbn; lia.
Qed.

Lemma iter_shr_1_nonneg k mrs :
  0 <= shr_m mrs -> 0 <= shr_m (Nat.iter k shr_1 mrs).
Proof.
  induction k as [|k IH]; intros Hm; [exact Hm|].
  rewrite Nat.iter_succ. apply shr_1_nonneg, IH, Hm.
Qed.

Lemma shr_fexp_nonneg m e l :
  0 <= m -> 0 <= shr_m (fst (shr_fexp prec emax m e l)).
Proof.
  intros Hm. unfold shr_fexp, shr.
  assert (Hrec : 0 <= shr_m (shr_record_of_loc m l))
    by (destruct l as [|[| |]]; exact Hm).
  destruct (fexp prec emax (Zdigits2 m + e) - e) as [|p|p]; cbn [fst];
    try exact Hrec.
  rewrite iter_pos_nat. apply iter_shr_1_nonneg, Hrec.
Qed.

Lemma round_nearest_even_nonneg m l : 0 <= m -> 0 <= round_nearest_even m l.
Proof.
  intros Hm. destruct l as [|[| |]]; cbn; try destruct (Z.even m); lia.
Qed.

(** Rounding a mantissa that is not negative gives no negative double. *)
Lemma binary_round_aux_nonneg m e l :
  0 <= m -> SFnonneg (binary_round_aux prec emax false m e l).
Proof.
  intros Hm. unfold binary_round_aux.
  pose proof (shr_fexp_nonneg m e l Hm) as H1.
  destruct (shr_fexp prec emax m e l) as [mrs' e']. cbn [fst] in H1.
  pose proof (shr_fexp_nonneg
                (round_nearest_even (shr_m mrs') (loc_of_shr_record mrs')) e' loc_Exact
                (round_nearest_even_nonneg _ _ H1)) as H2.
  destruct (shr_fexp prec emax _ e' loc_Exact) as [mrs'' e'']. cbn [fst] in H2.
  destruct (shr_m mrs'') as [|q|q]; try exact I.
  destruct (e'' <=? emax - prec); exact I.
Qed.

Lemma SFmul_nonneg x y : SFnonneg x -> SFnonneg y -> SFnonneg (SFmul prec emax x y).
Proof.
  destruct x as [sx|[|]| |[|] mx ex], y as [sy|[|]| |[|] my ey]; cbn;
    try tauto; try (destruct sx; tauto); try (destruct sy; tauto).
  intros _ _. apply binary_round_aux_nonneg. lia.
Qed.

Lemma SFdiv_core_nonneg m1 e1 m2 e2 :
  0 <= fst (fst (SFdiv_core_binary prec emax (Zpos m1) e1 (Zpos m2) e2)).
Proof.
  unfold SFdiv_core_binary.
  set (s := _ - _ - _).
  set (m' := match s with Zpos _ => Z.shiftl (Zpos m1) s | Z0 => Zpos m1 | Zneg _ => 0 end).
  assert (Hm' : 0 <= m').
  { unfold m'. destruct s; try lia. apply Z.shiftl_nonneg. lia. }
  pose proof (Z_div_mod m' (Zpos m2) ltac:(lia)) as Hdiv.
  destruct (Z.div_eucl m' (Zpos m2)) as [q r]. cbn [fst].
  destruct Hdiv as [Heq Hr]. nia.
Qed.

(** A quotient of doubles that are not negative, the divisor not zero, is
    not negative. *)
Lemma SFdiv_nonneg x y :
  SFnonneg x ->
  match y with S754_finite false _ _ | S754_infinity false | S754_nan => True
             | _ => False end ->
  SFnonneg (SFdiv prec emax x y).
Proof.
  destruct x as [sx|[|]| |[|] mx ex], y as [sy|[|]| |[|] my ey]; cbn [SFdiv SFnonneg xorb];
    try tauto; try (destruct sx; cbn; tauto).
  intros _ _.
  pose proof (SFdiv_core_nonneg mx ex my ey) as Hq.
  destruct (SFdiv_core_binary prec emax (Zpos mx) ex (Zpos my) ey) as [[mz ez] lz].
  apply binary_round_aux_nonneg. exact Hq.
Qed.

Lemma SFadd_nonneg x y : SFnonneg x -> SFnonneg y -> SFnonneg (SFadd prec emax x y).
Proof.
  destruct x as [sx|[|]| |[|] mx ex], y as [sy|[|]| |[|] my ey]; cbn [SFadd SFnonneg];
    try tauto; try (destruct sx; try destruct sy; cbn; tauto);
    try (destruct sy; cbn; tauto).
  intros _ _. cbn [cond_Zopp].
  unfold binary_normalize.
  destruct (Zpos (fst (shl_align mx ex (Z.min ex ey)))
            + Zpos (fst (shl_align my ey (Z.min ex ey)))) as [|p|p] eqn:Hsum;
    try exact I; try lia.
  unfold binary_round. destruct (shl_align p _ _) as [mz ez].
  apply binary_round_aux_nonneg. lia.
Qed.

Lemma mul_not_negative x y :
  (x <? 0)%float = false -> (y <? 0)%float = false -> (x * y <? 0)%float = false.
Proof.
  rewrite !not_negative_spec, mul_spec. apply SFmul_nonneg.
Qed.

Lemma add_not_negative x y :
  (x <? 0)%float = false -> (y <? 0)%float = false -> (x + y <? 0)%float = false.
Proof.
  rewrite !not_negative_spec, add_spec. apply SFadd_nonneg.
Qed.

(** Division by a double that is not [<= 0]. *)
Lemma div_not_negative x y :
  (x <? 0)%float = false -> (y <=? 0)%float = false -> (x / y <? 0)%float = false.
Proof.
  rewrite !not_negative_spec, div_spec, leb_spec.
  change (Prim2SF 0) with (S754_zero false).
  intros Hx Hy. apply SFdiv_nonneg; [exact Hx|].
  unfold SFleb in Hy.
  destruct (Prim2SF y) as [s|[|]| |[|] m e]; cbn in Hy; try discriminate; exact I.
Qed.

Lemma Math_round_not_negative x :
  (x <? 0)%float = false -> (Math_round x <? 0)%float = false.
Proof.
  intros Hx. unfold Math_round.
  pose proof (Prim2SF_valid x) as Hv.
  pose proof (proj1 (not_negative_spec x) Hx) as Hn.
  destruct (Prim2SF x) as [s|s| |s m e] eqn:Hsf; try exact Hx.
  destruct (0 <=? e) eqn:He; [exact Hx|].
  destruct s; [contradiction|]. cbn [cond_Zopp].
  apply Z.leb_gt in He.
  apply valid_mantissa in Hv as (_ & Hd & _).
  pose proof (mantissa_bounds m) as [_ Hm].
  assert (Hm53 : Zpos m < 2 ^ 53).
  { eapply Z.lt_le_trans; [exact Hm|]. apply Z.pow_le_mono_r; lia. }
  set (k := (Zpos m * 2 + 2 ^ (- e)) / 2 ^ (- e + 1)).
  assert (Hpow : 2 ^ (- e + 1) = 2 * 2 ^ (- e))
    by (rewrite Z.pow_add_r by lia; change (2 ^ 1) with 2; lia).
  assert (Hp : 2 <= 2 ^ (- e)).
  { change 2 with (2 ^ 1) at 1. apply Z.pow_le_mono_r; lia. }
  assert (Hk : 0 <= k < 2 ^ 53).
  { unfold k. rewrite Hpow. split.
    - apply Z.div_pos; lia.
    - apply Z.div_lt_upper_bound; [lia|]. change (2 ^ 53) with 9007199254740992 in *. nia. }
  destruct (k =? 0) eqn:Hk0; [reflexivity|].
  apply Z.eqb_neq in Hk0. apply not_negative_spec.
  destruct k as [|q|q]; try lia.
  rewrite Prim2SF_of_Z_pos by lia. exact I.
Qed.

(** Rounding to cents keeps what is not negative not negative. *)
Lemma round2_not_negative x :
  (x <? 0)%float = false -> (round2 x <? 0)%float = false.
Proof.
  intros Hx. unfold round2.
  apply div_not_negative; [|reflexivity].
  apply Math_round_not_negative, mul_not_negative; [exact Hx|reflexivity].
Qed.

Lemma ltb_leb x y : (x <? y)%float = true -> (x <=? y)%float = true.
Proof.
  rewrite leb_spec, ltb_spec. unfold SFleb, SFltb.
  destruct (SFcompare (Prim2SF x) (Prim2SF y)) as [[| |]|]; congruence.
Qed.

Lemma ltb_asym x y : (x <? y)%float = true -> (y <? x)%float = false.
Proof.
  rewrite !ltb_spec. unfold SFltb.
  rewrite (SFcompare_antisym (Prim2SF x) (Prim2SF y)).
  destruct (SFcompare (Prim2SF x) (Prim2SF y)) as [[| |]|]; cbn; congruence.
Qed.

Lemma ltb_not_nan_l x y : (x <? y)%float = true -> is_nan x = false.
Proof.
  unfold is_nan. rewrite ltb_spec, eqb_spec. unfold SFltb, SFeqb.
  destruct (Prim2SF x) as [s|s| |s m e]; cbn.
  - intros _. reflexivity.
  - intros _. destruct s; reflexivity.
  - discriminate.
  - intros _. destruct s; rewrite Z.compare_refl, Pos.compare_cont_refl; reflexivity.
Qed.

(** [Math.max(0, y)] is not negative. *)
Lemma Math_max_0_not_negative y : (Math_max 0 y <? 0)%float = false.
Proof.
  unfold Math_max. change (is_nan 0) with false. cbn [orb].
  destruct (is_nan y); [reflexivity|].
  destruct (0 <? y)%float eqn:Hy; [exact (ltb_asym _ _ Hy)|].
  destruct (y <? 0)%float; reflexivity.
Qed.

(** ** The sign of a difference *)

Lemma binary_round_not_positive p e :
  SFltb (S754_zero false) (binary_round prec emax true p e) = false.
Proof.
  unfold binary_round. destruct (shl_align p e _) as [mz ez].
  unfold binary_round_aux.
  destruct (shr_fexp prec emax (Zpos mz) ez loc_Exact) as [mrs' e'].
  destruct (shr_fexp prec emax _ e' loc_Exact) as [mrs'' e''].
  destruct (shr_m mrs'') as [|q|q]; try reflexivity.
  destruct (e'' <=? emax - prec); reflexivity.
Qed.

Lemma binary_round_positive p e :
  -1074 <= e -> SFpositive (binary_round prec emax false p e).
Proof.
  intros He. unfold binary_round.
  set (f := fexp prec emax (Zpos (digits2_pos p) + e)). unfold shl_align.
  destruct (f - e) as [|z|z] eqn:Hz; apply binary_round_aux_pos; try lia.
  rewrite Pos_iter_shlp, digits2_shlp, positive_nat_Z. lia.
Qed.

(** How two finite doubles compare, on their mantissas aligned to the
    smaller exponent. *)
Lemma SFcompare_aligned sx mx ex sy my ey :
  valid_binary (S754_finite sx mx ex) = true ->
  valid_binary (S754_finite sy my ey) = true ->
  let ez := Z.min ex ey in
  let X := cond_Zopp sx (Zpos (fst (shl_align mx ex ez))) in
  let Y := cond_Zopp sy (Zpos (fst (shl_align my ey ez))) in
  SFcompare (S754_finite sx mx ex) (S754_finite sy my ey) = Some (X ?= Y).
Proof.
  intros Hvx Hvy ez X Y. subst X Y.
  rewrite (shl_align_Z mx ex ez), (shl_align_Z my ey ez) by (unfold ez; lia).
  unfold SFcompare. f_equal.
  destruct (Z.compare_spec ex ey) as [Heq|Hlt|Hgt].
  - subst ey. replace (ex - ez) with 0 by (unfold ez; lia). rewrite !Z.mul_1_r.
    rewrite Pos.compare_cont_spec.
    destruct sx, sy; cbn [cond_Zopp Z.opp Z.compare]; try reflexivity;
      destruct (mx ?= my)%positive; reflexivity.
  - pose proof (larger_exponent my ey mx ex sy sx Hvy Hvx Hlt) as Hle.
    rewrite Z.min_comm in Hle. fold ez in Hle.
    assert (0 < Zpos mx * 2 ^ (ex - ez)) by (apply Z.mul_pos_pos; [lia|apply Z.pow_pos_nonneg; unfold ez; lia]).
    destruct sx, sy; cbn [cond_Zopp]; symmetry;
      first [apply Z.compare_lt_iff | apply Z.compare_gt_iff]; lia.
  - pose proof (larger_exponent mx ex my ey sx sy Hvx Hvy Hgt) as Hle.
    fold ez in Hle.
    assert (0 < Zpos my * 2 ^ (ey - ez)) by (apply Z.mul_pos_pos; [lia|apply Z.pow_pos_nonneg; unfold ez; lia]).
    destruct sx, sy; cbn [cond_Zopp]; symmetry;
      first [apply Z.compare_lt_iff | apply Z.compare_gt_iff]; lia.
Qed.

(** [x - y] is above zero exactly when [y] is below [x]. *)
Lemma sub_positive x y : (0 <? x - y)%float = (y <? x)%float.
Proof.
  rewrite !ltb_spec, sub_spec. change (Prim2SF 0) with (S754_zero false).
  pose proof (Prim2SF_valid x) as Hvx. pose proof (Prim2SF_valid y) as Hvy.
  destruct (Prim2SF x) as [sx|sx| |sx mx ex], (Prim2SF y) as [sy|sy| |sy my ey];
    try solve [reflexivity
              | destruct sx; reflexivity
              | destruct sy; reflexivity
              | destruct sx, sy; reflexivity].
  unfold SFltb at 2. rewrite (SFcompare_aligned sy my ey sx mx ex Hvy Hvx).
  unfold SF64sub, SFsub. rewrite (Z.min_comm ey ex).
  set (ez := Z.min ex ey).
  set (X := cond_Zopp sx (Zpos (fst (shl_align mx ex ez)))).
  set (Y := cond_Zopp sy (Zpos (fst (shl_align my ey ez)))).
  assert (Hez : -1074 <= ez).
  { apply valid_mantissa in Hvx as (? & _). apply valid_mantissa in Hvy as (? & _).
    unfold ez. lia. }
  destruct (Z.compare_spec Y X) as [Heq|Hlt|Hgt].
  - replace (X - Y) with 0 by lia. reflexivity.
  - destruct (X - Y) as [|p|p] eqn:Hd; try lia. cbn [binary_normalize].
    pose proof (binary_round_positive p ez Hez) as Hp.
    unfold SFltb. destruct (binary_round prec emax false p ez) as [s|[|]| |[|] m e];
      cbn in Hp |- *; tauto.
  - destruct (X - Y) as [|p|p] eqn:Hd; try lia. cbn [binary_normalize].
    apply binary_round_not_positive.
Qed.

(** A double that is not [<= 0] is above zero or not a number. *)
Lemma not_leb_zero z :
  (z <=? 0)%float = false <-> (0 <? z)%float = true \/ Prim2SF z = S754_nan.
Proof.
  rewrite leb_spec, ltb_spec. change (Prim2SF 0) with (S754_zero false).
  unfold SFleb, SFltb.
  destruct (Prim2SF z) as [s|[|]| |[|] m e]; cbn; intuition congruence.
Qed.

(** [x !== x] holds of NaN alone. *)
Lemma nan_spec z : (z =? z)%float = false <-> Prim2SF z = S754_nan.
Proof.
  rewrite eqb_spec. unfold SFeqb.
  pose proof (SFcompare_antisym (Prim2SF z) (Prim2SF z)) as Ha.
  destruct (Prim2SF z) as [s|[|]| |[|] m e]; cbn in *;
    try solve [intuition congruence].
  all: destruct (e ?= e) eqn:He; try (rewrite Z.compare_refl in He; discriminate);
    rewrite Pos.compare_cont_refl; cbn; intuition congruence.
Qed.

(** A term that passes [termYears <= 0] and is not above 0 is NaN, and so
    is the cap computed from it: no counter is below it. *)
Lemma cap_of_nan_term t m :
  (t <=? 0)%float = false -> (0 <? t)%float = false -> (m <? t * 12 * 2)%float = false.
Proof.
  intros Hle Hlt.
  assert (Hnan : Prim2SF t = S754_nan).
  { rewrite leb_spec in Hle. rewrite ltb_spec in Hlt. unfold SFleb, SFltb in Hle, Hlt.
    change (Prim2SF 0) with (S754_zero false) in Hle, Hlt.
    destruct (Prim2SF t) as [[|]|[|]| |[|] mt et]; cbn in Hle, Hlt;
      try discriminate; reflexivity. }
  assert (H12 : Prim2SF (t * 12) = S754_nan).
  { rewrite mul_spec, Hnan. destruct (Prim2SF 12); reflexivity. }
  rewrite ltb_spec, mul_spec, H12. unfold SFltb.
  replace (SF64mul S754_nan (Prim2SF 2)) with S754_nan
    by (destruct (Prim2SF 2); reflexivity).
  destruct (Prim2SF m) as [[|]|[|]| |[|] mm em]; reflexivity.
Qed.

End FloatSigns.

(** * More about the loop and the engine *)

Section MoreLoopFacts.
Context {JS : Host}.
Variables (monthlyRate monthlyPayment0 extraMonthlyPayment maxMonths : float)
          (baseDate : Date).

Abbreviation cond := (loop_cond maxMonths).
Abbreviation body := (loop_body monthlyRate monthlyPayment0 extraMonthlyPayment baseDate).

Lemma body_date s :
  exists e,
    st_schedule (body s) = st_schedule s ++ [e] /\
    date e = Date_addMonths baseDate (paymentNumber e).
Proof.
  unfold loop_body.
  destruct (st_balance s - (monthlyPayment0 - st_balance s * monthlyRate + extraMonthlyPayment) <? 0);
    eexists; cbn; split; reflexivity.
Qed.

Lemma dated_body s : dated baseDate (st_schedule s) -> dated baseDate (st_schedule (body s)).
Proof.
  intros Hd. destruct (body_date s) as (e & -> & He).
  intros x Hx. apply in_app_or in Hx as [Hx|[<-|[]]]; auto.
Qed.

(** A record that is the last one of a list closes it. *)
Lemma nth_error_last {A} (l : list A) k x :
  nth_error l k = Some x -> S k = length l -> exists l', l = l' ++ [x].
Proof.
  intros Hk Hlen. apply nth_error_split in Hk as (l1 & l2 & -> & Hl1).
  rewrite length_app in Hlen. cbn [length] in Hlen.
  destruct l2; [eauto|cbn [length] in Hlen; lia].
Qed.

Lemma open_before_last_body s :
  settled s -> open_before_last (st_schedule s) -> cond s = true ->
  open_before_last (st_schedule (body s)).
Proof.
  intros Hset Hopen Hc.
  destruct (body_schedule monthlyRate monthlyPayment0 extraMonthlyPayment baseDate s)
    as (e & Hsch & _).
  rewrite Hsch. intros k x Hk Hlt. rewrite length_app in Hlt. cbn [length] in Hlt.
  rewrite nth_error_app1 in Hk by lia.
  destruct (Nat.eq_dec (S k) (length (st_schedule s))) as [Heq|Hne].
  - destruct (nth_error_last _ _ _ Hk Heq) as [l' Hl'].
    rewrite (Hset _ _ Hl'). apply andb_prop in Hc as [Hb _]. exact Hb.
  - apply (Hopen k x Hk). lia.
Qed.

(** What the ledger says of the record at an index. *)
Lemma ledger_nth l : forall b k x,
  ledger monthlyRate monthlyPayment0 extraMonthlyPayment b l ->
  nth_error l k = Some x ->
  interestPaid x = month_interest monthlyRate (opening b l k) /\
  principalPaid x =
    month_principal monthlyRate monthlyPayment0 extraMonthlyPayment (opening b l k) /\
  remainingBalance x =
    month_remaining monthlyRate monthlyPayment0 extraMonthlyPayment (opening b l k).
Proof.
  induction l as [|e l IH]; intros b k x Hl Hk; [destruct k; discriminate|].
  destruct Hl as (Hi & Hp & Hr & Hl). destruct k as [|k].
  - injection Hk as <-. unfold opening. cbn. auto.
  - cbn [nth_error] in Hk. unfold opening. cbn [firstn]. rewrite closing_cons.
    exact (IH _ _ _ Hl Hk).
Qed.

Hypothesis Hrate : (monthlyRate <? 0) = false.

Lemma nonneg_state_body s : nonneg_state s -> nonneg_state (body s).
Proof.
  intros (Hb & Ht & Ha).
  destruct (body_schedule monthlyRate monthlyPayment0 extraMonthlyPayment baseDate s)
    as (e & Hsch & _ & Hi & _ & Hr & Hbal).
  assert (Hint : (st_balance s * monthlyRate <? 0) = false)
    by (apply FloatSigns.mul_not_negative; assumption).
  assert (Hrem : (remainingBalance e <? 0) = false).
  { rewrite Hr. unfold month_remaining. apply FloatSigns.round2_not_negative.
    destruct (month_balance _ _ _ _ <? 0) eqn:Hneg; [reflexivity|exact Hneg]. }
  split; [|split].
  - rewrite <- Hbal. exact Hrem.
  - destruct (month_balance monthlyRate monthlyPayment0 extraMonthlyPayment (st_balance s) <? 0)
      eqn:Hneg.
    + destruct (body_overpayment _ _ _ baseDate s Hneg) as [-> _].
      apply FloatSigns.Math_max_0_not_negative.
    + rewrite (body_no_overpayment _ _ _ baseDate s Hneg).
      apply FloatSigns.add_not_negative; assumption.
  - rewrite Hsch. intros x Hx. apply in_app_or in Hx as [Hx|[<-|[]]]; [auto|].
    split; [|exact Hrem].
    rewrite Hi. apply FloatSigns.round2_not_negative. exact Hint.
Qed.

End MoreLoopFacts.

Section MoreEngineFacts.
Context {JS : Host}.

Lemma accepted_parts p r t e :
  invalid_input p r t e = false ->
  (p <=? 0) = false /\ (r <? 0) = false /\ (t <=? 0) = false /\ (e <? 0) = false.
Proof.
  unfold invalid_input. intros H.
  apply orb_false_elim in H as [H He]. apply orb_false_elim in H as [H Ht].
  apply orb_false_elim in H as [Hp Hr]. auto.
Qed.

Lemma calculateAmortization_saved fuel p r t e d res :
  calculateAmortization fuel p r t e d = Returned res ->
  totalInterestSaved res =
    round2 (Math_max 0 (standardPayment p r t * (t * 12) - p - totalInterestPaid res)).
Proof.
  unfold calculateAmortization.
  destruct (invalid_input p r t e); [discriminate|].
  destruct (while_loop _ _ _ _ _ fuel _) as [s|]; [|discriminate].
  intros [= <-]. reflexivity.
Qed.

(** What holds of the state in which the loop of a returning call ends. *)
Lemma calculateAmortization_final fuel p r t e d res :
  calculateAmortization fuel p r t e d = Returned res ->
  exists s,
    schedule res = st_schedule s /\
    totalInterestPaid res = round2 (st_totalInterestPaid s) /\
    settled s /\
    open_before_last (st_schedule s) /\
    dated (Date_firstOfMonth d) (st_schedule s) /\
    nonneg_state s /\
    loop_cond (t * 12 * 2) s = false.
Proof.
  intros Hres.
  destruct (calculateAmortization_returned _ _ _ _ _ _ _ Hres)
    as (Hok & s & Hrun & _ & Hs & _ & Ht).
  destruct (accepted_parts _ _ _ _ Hok) as (Hp & Hr & _ & _).
  assert (Hrate : (r / 100 / 12 <? 0) = false).
  { apply FloatSigns.div_not_negative; [|reflexivity].
    apply FloatSigns.div_not_negative; [exact Hr|reflexivity]. }
  assert (Hp0 : (p <? 0) = false).
  { destruct (p <? 0) eqn:Hlt; [|reflexivity].
    rewrite (FloatSigns.ltb_leb _ _ Hlt) in Hp. discriminate. }
  set (I := fun s0 : LoopState =>
              settled s0 /\ open_before_last (st_schedule s0) /\
              dated (Date_firstOfMonth d) (st_schedule s0) /\
              nonneg_state s0).
  assert (Hstep : forall s0, I s0 ->
            loop_cond (t * 12 * 2) s0 = true ->
            I (loop_body (r / 100 / 12) (standardPayment p r t) e (Date_firstOfMonth d) s0)).
  { intros s0 (H1 & H2 & H3 & H4) Hc. split; [|split; [|split]].
    - apply settled_body.
    - apply (open_before_last_body _ _ _ (t * 12 * 2)); assumption.
    - apply dated_body; assumption.
    - apply nonneg_state_body; assumption. }
  assert (Hinit : I (initial p)).
  { split; [|split; [|split]].
    - apply settled_initial.
    - intros [|k] x Hk; discriminate.
    - intros x [].
    - split; [exact Hp0|]. split; [reflexivity|]. intros x []. }
  destruct (while_loop_invariant _ _ _ _ _ I Hstep _ _ _ Hinit Hrun)
    as [(H1 & H2 & H3 & H4) Hc].
  exists s. exact (conj Hs (conj Ht (conj H1 (conj H2 (conj H3 (conj H4 Hc)))))).
Qed.

Lemma calculateAmortization_open fuel p r t e d res k x :
  calculateAmortization fuel p r t e d = Returned res ->
  nth_error (schedule res) k = Some x ->
  (S k < length (schedule res))%nat ->
  (0.01 <? remainingBalance x) = true.
Proof.
  intros Hres Hk Hlt.
  destruct (calculateAmortization_final _ _ _ _ _ _ _ Hres) as (s & Hs & _ & _ & Hopen & _).
  rewrite Hs in Hk, Hlt. exact (Hopen k x Hk Hlt).
Qed.

(** The loop makes no pass from a principal that is not above 0.01, nor
    under a cap that is not a number. *)
Lemma calculateAmortization_no_pass fuel p r t e d res :
  (0.01 <? p) && (0 <? t) = false ->
  calculateAmortization fuel p r t e d = Returned res ->
  schedule res = [] /\ monthsToPayoff res = 0 /\ totalInterestPaid res = 0.
Proof.
  intros Hno Hres.
  destruct (calculateAmortization_returned _ _ _ _ _ _ _ Hres)
    as (Hok & s & Hrun & Hm & Hs & _ & Ht).
  destruct (accepted_parts _ _ _ _ Hok) as (_ & _ & Hterm & _).
  assert (Hc : loop_cond (t * 12 * 2) (initial p) = false).
  { unfold loop_cond. cbn [initial st_balance st_monthsToPayoff].
    apply andb_false_iff in Hno as [Hp|Ht0].
    - rewrite Hp. reflexivity.
    - rewrite (FloatSigns.cap_of_nan_term t 0 Hterm Ht0). apply andb_false_r. }
  rewrite while_loop_unfold, Hc in Hrun. injection Hrun as <-.
  rewrite Hs, Hm, Ht. repeat split; reflexivity.
Qed.

(** The dates of the records have no part in the arithmetic of the loop. *)
Lemma body_same_amounts mr mp ex d1 d2 s1 s2 :
  same_amounts s1 s2 ->
  same_amounts (loop_body mr mp ex d1 s1) (loop_body mr mp ex d2 s2).
Proof.
  destruct s1 as [b1 i1 m1 l1], s2 as [b2 i2 m2 l2].
  intros (Hb & Hi & Hm & Hl). cbn in Hb, Hi, Hm, Hl. subst b2 i2 m2.
  unfold loop_body. cbn [st_balance st_totalInterestPaid st_monthsToPayoff st_schedule].
  destruct (b1 - (mp - b1 * mr + ex) <? 0);
    (split; [|split; [|split]]; cbn; try reflexivity;
     rewrite !map_app, Hl; reflexivity).
Qed.

Lemma while_loop_same_amounts mr mp ex cap d1 d2 fuel : forall s1 s2 s1',
  same_amounts s1 s2 ->
  while_loop mr mp ex cap d1 fuel s1 = Some s1' ->
  exists s2', while_loop mr mp ex cap d2 fuel s2 = Some s2' /\ same_amounts s1' s2'.
Proof.
  induction fuel as [|fuel IH]; intros s1 s2 s1' Hsame Hrun;
    rewrite while_loop_unfold in Hrun; rewrite while_loop_unfold;
    assert (Hc : loop_cond cap s2 = loop_cond cap s1)
      by (destruct Hsame as (Hb & _ & Hm & _); unfold loop_cond; rewrite Hb, Hm; reflexivity);
    rewrite Hc; destruct (loop_cond cap s1); try discriminate.
  - injection Hrun as <-. eauto.
  - apply (IH (loop_body mr mp ex d1 s1)); [apply body_same_amounts; exact Hsame|exact Hrun].
  - injection Hrun as <-. eauto.
Qed.

End MoreEngineFacts.

(** * More about the refinance analysis *)

Lemma calculateRefinanceBreakEven_returned o n c res :
  calculateRefinanceBreakEven o n c = Returned res ->
  (o <=? 0) = false /\ (n <? 0) = false /\ (c <? 0) = false /\
  ((o - n <=? 0) = true /\
   res = {| breakEvenMonths := None; monthlySavings := o - n;
            totalSavingsOverRemainingTerm := None; isValid := false |}
   \/
   (o - n <=? 0) = false /\
   res = {| breakEvenMonths := Some (round2 (c / (o - n)));
            monthlySavings := round2 (o - n);
            totalSavingsOverRemainingTerm := None; isValid := true |}).
Proof.
  unfold calculateRefinanceBreakEven.
  destruct (o <=? 0); [discriminate|]. destruct (n <? 0); [discriminate|].
  destruct (c <? 0); [discriminate|]. cbn [orb].
  destruct (o - n <=? 0); intros [= <-]; auto 6.
Qed.

(** ** More runs at a zero rate *)

Section MoreRuns.
Context {JS : Host}.

(** 1000 over a hundredth of a year: the one payment of 8333.33 overpays. *)
Lemma run_fractional_term_overpays d :
  exists res x,
    calculateAmortization 1 1000 0 0.01 0 d = Returned res /\
    nth_error (schedule res) 0 = Some x /\
    (month_balance (0 / 100 / 12) (standardPayment 1000 0 0.01) 0
       (opening 1000 (schedule res) 0) <? 0) = true.
Proof.
  do 2 eexists. split; [vm_compute; reflexivity|]. split; vm_compute; reflexivity.
Qed.

(** 1200 over one year, the first record. *)
Lemma run_1200_first d :
  exists res x,
    calculateAmortization 12 1200 0 1 0 d = Returned res /\
    nth_error (schedule res) 0 = Some x /\
    length (schedule res) = 12%nat.
Proof.
  do 2 eexists. split; [vm_compute; reflexivity|]. split; vm_compute; reflexivity.
Qed.

(** 7200 over six years: 72 payments of 100. *)
Lemma run_7200 d :
  exists res,
    calculateAmortization 72 7200 0 6 0 d = Returned res /\
    List.length (schedule res) = 72%nat.
Proof.
  eexists. split; [vm_compute; reflexivity|]. vm_compute. reflexivity.
Qed.

(** A principal that is not a number passes the validation. *)
Lemma run_nan_principal d :
  exists res, calculateAmortization 0 nan 0 1 0 d = Returned res.
Proof. eexists. vm_compute. reflexivity. Qed.

End MoreRuns.

(** * Facts for the presentation layer *)

Module DisplayFacts.
Import FloatFacts FloatSigns.
Local Open Scope Z_scope.

Lemma digits2_of_bounds q d :
  2 ^ (d - 1) <= Zpos q < 2 ^ d -> Zpos (digits2_pos q) = d.
Proof.
  intros [Hlo Hhi]. pose proof (mantissa_bounds q) as [Hl Hh].
  set (dq := Zpos (digits2_pos q)) in *.
  assert (0 < dq) by (unfold dq; lia).
  assert (0 < d).
  { destruct (Z.lt_ge_cases 0 d); [assumption|].
    rewrite (Z.pow_neg_r 2 d) in Hhi by lia || (destruct (Z.eq_dec d 0); subst; cbn in *; lia).
    lia. }
  destruct (Z.lt_trichotomy dq d) as [Hlt|[Heq|Hgt]]; [exfalso|exact Heq|exfalso].
  - assert (2 ^ dq <= 2 ^ (d - 1)) by (apply Z.pow_le_mono_r; lia). lia.
  - assert (2 ^ d <= 2 ^ (dq - 1)) by (apply Z.pow_le_mono_r; lia). lia.
Qed.

(** Rounding a mantissa of 53 bits. *)
Lemma binary_round_aux_fit q e l M :
  Zpos (digits2_pos q) = 53 ->
  round_nearest_even (Zpos q) l = Zpos M ->
  Zpos (digits2_pos M) = 53 ->
  -1074 <= e <= 971 ->
  binary_round_aux prec emax false (Zpos q) e l = S754_finite false M e.
Proof.
  intros Hd Hr HM He.
  unfold binary_round_aux, shr_fexp, fexp, SpecFloat.emin, prec, emax.
  cbn [Zdigits2]. rewrite Hd.
  replace (Z.max (53 + e - 53) (3 - 1024 - 53) - e) with 0 by lia.
  cbn [shr].
  replace (loc_of_shr_record (shr_record_of_loc (Zpos q) l)) with l
    by (destruct l as [|[| |]]; reflexivity).
  replace (shr_m (shr_record_of_loc (Zpos q) l)) with (Zpos q)
    by (destruct l as [|[| |]]; reflexivity).
  rewrite Hr. cbn [Zdigits2]. rewrite HM.
  replace (Z.max (53 + e - 53) (3 - 1024 - 53) - e) with 0 by lia.
  cbn [shr shr_record_of_loc shr_m].
  replace (e <=? 1024 - 53) with true by (symmetry; apply Z.leb_le; lia).
  reflexivity.
Qed.

(** Rounding a mantissa of 54 bits: one bit is shifted out. *)
Lemma binary_round_aux_shift q e l M :
  Zpos (digits2_pos q) = 54 ->
  (let r1 := shr_1 (shr_record_of_loc (Zpos q) l) in
   round_nearest_even (shr_m r1) (loc_of_shr_record r1) = Zpos M) ->
  Zpos (digits2_pos M) = 53 ->
  -1074 <= e + 1 <= 971 ->
  binary_round_aux prec emax false (Zpos q) e l = S754_finite false M (e + 1).
Proof.
  intros Hd Hr HM He.
  unfold binary_round_aux, shr_fexp, fexp, SpecFloat.emin, prec, emax.
  cbn [Zdigits2]. rewrite Hd.
  replace (Z.max (54 + e - 53) (3 - 1024 - 53) - e) with 1 by lia.
  cbn [shr iter_pos]. cbv zeta in Hr. rewrite Hr. cbn [Zdigits2]. rewrite HM.
  replace (Z.max (53 + (e + 1) - 53) (3 - 1024 - 53) - (e + 1)) with 0 by lia.
  cbn [shr shr_record_of_loc shr_m].
  replace (e + 1 <=? 1024 - 53) with true by (symmetry; apply Z.leb_le; lia).
  reflexivity.
Qed.

(** The quotient of a normal positive double by 12: its exponent, and its
    mantissa to within half a unit in the last place. *)
Lemma div12_SF m1 e1 :
  Zpos (digits2_pos m1) = 53 -> -1070 <= e1 <= 971 ->
  exists j M,
    (j = 0 \/ j = 1) /\
    SFdiv prec emax (S754_finite false m1 e1) (S754_finite false 6755399441055744 (-49))
      = S754_finite false M (e1 - 4 + j) /\
    Zpos (digits2_pos M) = 53 /\
    2 * Z.abs (3 * 2 ^ j * Zpos M - 4 * Zpos m1) <= 3 * 2 ^ j.
Proof.
  intros Hd He.
  pose proof (mantissa_bounds m1) as Hm1. rewrite Hd in Hm1.
  change (2 ^ (53 - 1)) with 4503599627370496 in Hm1.
  change (2 ^ 53) with 9007199254740992 in Hm1.
  unfold SFdiv, SFdiv_core_binary. cbn [xorb Zdigits2]. rewrite Hd.
  change (Zpos (digits2_pos 6755399441055744)) with 53.
  unfold fexp, SpecFloat.emin, prec, emax.
  replace (Z.min (Z.max (53 + e1 - (53 + -49) - 53) (3 - 1024 - 53)) (e1 - -49))
    with (e1 - 4) by lia.
  replace (e1 - -49 - (e1 - 4)) with 53 by lia.
  rewrite Z.shiftl_mul_pow2 by lia.
  change (2 ^ 53) with 9007199254740992.
  pose proof (Z_div_mod (Zpos m1 * 9007199254740992) 6755399441055744 eq_refl) as Hdm.
  change IntDef.Z.div_eucl with Z.div_eucl.
  destruct (Z.div_eucl (Zpos m1 * 9007199254740992) 6755399441055744) as [q r].
  destruct Hdm as [Hq Hr].
  assert (Hrho : r = 0 \/ r = 2251799813685248 \/ r = 4503599627370496).
  { assert (Hr' : r = 2251799813685248 * (4 * Zpos m1 - 3 * q)) by lia.
    assert (0 <= 4 * Zpos m1 - 3 * q < 3) by lia.
    assert (Hc : 4 * Zpos m1 - 3 * q = 0 \/ 4 * Zpos m1 - 3 * q = 1 \/
                 4 * Zpos m1 - 3 * q = 2) by lia.
    destruct Hc as [Hc|[Hc|Hc]]; rewrite Hc in Hr'; cbn in Hr'; auto. }
  assert (Hqpos : 0 < q) by lia.
  destruct q as [|q|q]; try lia.
  unfold new_location. change (Z.even 6755399441055744) with true. cbv iota.
  unfold new_location_even.
  set (loc := if r =? 0 then loc_Exact else loc_Inexact (2 * r ?= 6755399441055744)).
  assert (Hloc : r = 0 /\ loc = loc_Exact \/
                 r = 2251799813685248 /\ loc = loc_Inexact Lt \/
                 r = 4503599627370496 /\ loc = loc_Inexact Gt)
    by (subst loc; destruct Hrho as [->|[->| ->]]; auto).
  clearbody loc. clear Hrho.
  destruct (Z.lt_ge_cases (Zpos q) 9007199254740992) as [Hlt|Hge].
  - (* the quotient has 53 bits *)
    assert (Hdq : Zpos (digits2_pos q) = 53)
      by (apply digits2_of_bounds; change (2 ^ (53 - 1)) with 4503599627370496;
          change (2 ^ 53) with 9007199254740992; lia).
    exists 0. change (2 ^ 0) with 1. rewrite Z.add_0_r.
    destruct Hloc as [[-> ->]|[[-> ->]|[-> ->]]].
    + exists q. split; [auto|]. split; [|split; [exact Hdq|lia]].
      apply binary_round_aux_fit; [exact Hdq|reflexivity|exact Hdq|lia].
    + exists q. split; [auto|]. split; [|split; [exact Hdq|lia]].
      apply binary_round_aux_fit; [exact Hdq|reflexivity|exact Hdq|lia].
    + exists (q + 1)%positive.
      assert (Hdq' : Zpos (digits2_pos (q + 1)) = 53)
        by (apply digits2_of_bounds; change (2 ^ (53 - 1)) with 4503599627370496;
            change (2 ^ 53) with 9007199254740992; lia).
      split; [auto|]. split; [|split; [exact Hdq'|lia]].
      apply binary_round_aux_fit; [exact Hdq|cbn; lia|exact Hdq'|lia].
  - (* the quotient has 54 bits *)
    assert (Hdq : Zpos (digits2_pos q) = 54)
      by (apply digits2_of_bounds; change (2 ^ (54 - 1)) with 9007199254740992;
          change (2 ^ 54) with 18014398509481984; lia).
    exists 1. change (2 ^ 1) with 2.
    replace (e1 - 4 + 1) with (e1 - 4 + 1) by reflexivity.
    assert (Hfit : forall M : positive, 2 * Zpos M <= Zpos q + 1 -> Zpos q - 1 <= 2 * Zpos M ->
              Zpos (digits2_pos M) = 53).
    { intros M H1 H2. apply digits2_of_bounds.
      change (2 ^ (53 - 1)) with 4503599627370496.
      change (2 ^ 53) with 9007199254740992. lia. }
    destruct q as [q'|q'|]; [| |lia].
    + (* odd quotient *)
      destruct Hloc as [[-> ->]|[[-> ->]|[-> ->]]].
      * (* a tie *)
        destruct (Z.even (Zpos q')) eqn:Hev.
        -- exists q'. split; [auto|]. split; [|split; [apply Hfit; lia|lia]].
           apply binary_round_aux_shift; [exact Hdq| |apply Hfit; lia|lia].
           cbn. cbn in Hev. rewrite Hev. reflexivity.
        -- exists (q' + 1)%positive. split; [auto|]. split; [|split; [apply Hfit; lia|lia]].
           apply binary_round_aux_shift; [exact Hdq| |apply Hfit; lia|lia].
           cbn. cbn in Hev. rewrite Hev. first [reflexivity | f_equal; lia].
      * exists (q' + 1)%positive. split; [auto|]. split; [|split; [apply Hfit; lia|lia]].
        apply binary_round_aux_shift; [exact Hdq| |apply Hfit; lia|lia].
        cbn. first [reflexivity | f_equal; lia].
      * exists (q' + 1)%positive. split; [auto|]. split; [|split; [apply Hfit; lia|lia]].
        apply binary_round_aux_shift; [exact Hdq| |apply Hfit; lia|lia].
        cbn. first [reflexivity | f_equal; lia].
    + (* even quotient *)
      exists q'. split; [auto|]. split; [|split; [apply Hfit; lia|lia]].
      apply binary_round_aux_shift; [exact Hdq| |apply Hfit; lia|lia].
      destruct Hloc as [[-> ->]|[[-> ->]|[-> ->]]]; reflexivity.
Qed.

(** ** Doubles of integers *)

Lemma Zmul_compare a b s : 0 < s -> (a * s ?= b * s) = (a ?= b).
Proof.
  intros Hs. destruct (Z.compare_spec a b) as [->|Hlt|Hgt].
  - apply Z.compare_refl.
  - apply Z.compare_lt_iff. nia.
  - apply Z.compare_gt_iff. nia.
Qed.

Lemma of_Z_compare a b :
  0 <= a < 2 ^ 53 -> 0 <= b < 2 ^ 53 ->
  SFcompare (Prim2SF (of_Z a)) (Prim2SF (of_Z b)) = Some (a ?= b).
Proof.
  intros Ha Hb. destruct a as [|pa|pa], b as [|pb|pb]; try lia.
  - reflexivity.
  - rewrite (Prim2SF_of_Z_pos pb) by lia. reflexivity.
  - rewrite (Prim2SF_of_Z_pos pa) by lia. reflexivity.
  - rewrite (Prim2SF_of_Z_pos pa), (Prim2SF_of_Z_pos pb) by lia.
    pose proof (digits2_bound pa ltac:(lia)) as Hda.
    pose proof (digits2_bound pb ltac:(lia)) as Hdb.
    rewrite SFcompare_aligned by (apply valid_norm53; assumption).
    cbn [cond_Zopp].
    set (ea := Zpos (digits2_pos pa) - 53). set (eb := Zpos (digits2_pos pb) - 53).
    set (ez := Z.min ea eb).
    rewrite (shl_align_Z _ ea ez), (shl_align_Z _ eb ez) by (unfold ez; lia).
    rewrite !norm53_Z by assumption.
    replace (Zpos pa * 2 ^ (53 - Zpos (digits2_pos pa)) * 2 ^ (ea - ez))
      with (Zpos pa * 2 ^ (- ez)).
    2:{ rewrite <- Z.mul_assoc, <- Z.pow_add_r by (unfold ez, ea, eb; lia).
        f_equal. f_equal. unfold ea. lia. }
    replace (Zpos pb * 2 ^ (53 - Zpos (digits2_pos pb)) * 2 ^ (eb - ez))
      with (Zpos pb * 2 ^ (- ez)).
    2:{ rewrite <- Z.mul_assoc, <- Z.pow_add_r by (unfold ez, ea, eb; lia).
        f_equal. f_equal. unfold eb. lia. }
    f_equal. apply Zmul_compare. apply Z.pow_pos_nonneg; unfold ez, ea, eb; lia.
Qed.

Lemma of_Z_eqb a b :
  0 <= a < 2 ^ 53 -> 0 <= b < 2 ^ 53 -> (of_Z a =? of_Z b)%float = (a =? b).
Proof.
  intros Ha Hb. rewrite eqb_spec. unfold SFeqb. rewrite of_Z_compare by assumption.
  rewrite Z.eqb_compare. destruct (a ?= b); reflexivity.
Qed.

Lemma of_Z_ltb a b :
  0 <= a < 2 ^ 53 -> 0 <= b < 2 ^ 53 -> (of_Z a <? of_Z b)%float = (a <? b).
Proof.
  intros Ha Hb. rewrite ltb_spec. unfold SFltb. rewrite of_Z_compare by assumption.
  unfold Z.ltb. destruct (a ?= b); reflexivity.
Qed.

(** The integer held by the double of an integer below 2^53. *)
Lemma to_Z_of_Z k : 0 <= k < 2 ^ 53 -> RefHost.to_Z (of_Z k) = Some k.
Proof.
  intros Hk. destruct k as [|p|p]; try lia; [reflexivity|].
  unfold RefHost.to_Z. rewrite Prim2SF_of_Z_pos by lia.
  pose proof (digits2_bound p ltac:(lia)) as Hd.
  assert (0 < Zpos (digits2_pos p)) by lia.
  rewrite norm53_Z by assumption. cbn [cond_Zopp].
  set (d := Zpos (digits2_pos p)) in *.
  destruct (0 <=? d - 53) eqn:He.
  - apply Z.leb_le in He. replace (d - 53) with 0 by lia.
    replace (53 - d) with 0 by lia. f_equal. cbn. lia.
  - replace (- (d - 53)) with (53 - d) by lia.
    rewrite Z.mod_mul by (apply Z.pow_nonzero; lia). cbn [Z.eqb].
    rewrite Z.div_mul by (apply Z.pow_nonzero; lia). reflexivity.
Qed.

(** ** Whole months into years and months *)

Lemma Math_floor_div12 n :
  0 <= n < 2 ^ 53 -> Math_floor (of_Z n / 12) = of_Z (n / 12).
Proof.
  intros Hn. destruct n as [|p|p]; try lia; [reflexivity|].
  pose proof (digits2_bound p ltac:(lia)) as Hd.
  assert (Hd0 : 0 < Zpos (digits2_pos p)) by lia.
  unfold Math_floor. rewrite div_spec, Prim2SF_of_Z_pos by lia.
  change (Prim2SF 12) with (S754_finite false 6755399441055744 (-49)).
  unfold SF64div.
  destruct (div12_SF (norm53 p) (Zpos (digits2_pos p) - 53))
    as (j & M & Hj & -> & HdM & Hb); [apply digits2_norm53; exact Hd|lia|].
  rewrite norm53_Z in Hb by exact Hd.
  set (d := Zpos (digits2_pos p)) in *.
  replace (0 <=? d - 53 - 4 + j) with false by (symmetry; apply Z.leb_gt; lia).
  cbn [cond_Zopp].
  set (P := 2 ^ (53 - d)) in *.
  assert (HP : 1 <= P) by (unfold P; apply (Z.pow_le_mono_r 2 0); lia).
  assert (Hpow : 2 ^ (- (d - 53 - 4 + j)) = 2 ^ (4 - j) * P).
  { unfold P. rewrite <- Z.pow_add_r by lia. f_equal. lia. }
  rewrite Hpow.
  pose proof (Z.div_mod (Zpos p) 12 ltac:(lia)) as Hdiv.
  pose proof (Z.mod_pos_bound (Zpos p) 12 ltac:(lia)) as Hmod.
  set (k := Zpos p / 12) in *. set (i := Zpos p mod 12) in *.
  assert (Hk : 0 <= k) by (unfold k; apply Z.div_pos; lia).
  assert (Hq : Zpos M / (2 ^ (4 - j) * P) = k).
  { symmetry. apply (Z.div_unique_pos _ _ k (Zpos M - 2 ^ (4 - j) * P * k)); [|lia].
    rewrite Hdiv in Hb.
    assert (Hi : 0 <= i * P <= 11 * P) by nia.
    replace ((12 * k + i) * P) with (12 * (k * P) + i * P) in Hb by ring.
    replace (2 ^ (4 - j) * P * k) with (2 ^ (4 - j) * (k * P)) by ring.
    set (a := k * P) in *. set (c := i * P) in *.
    destruct Hj as [-> | ->].
    - change (2 ^ 0) with 1 in Hb. change (2 ^ (4 - 0)) with 16. lia.
    - change (2 ^ 1) with 2 in Hb. change (2 ^ (4 - 1)) with 8. lia. }
  rewrite Hq. destruct (k =? 0) eqn:Hk0; [|reflexivity].
  apply Z.eqb_eq in Hk0. rewrite Hk0. reflexivity.
Qed.

Lemma Number_rem_12 n :
  0 <= n < 2 ^ 53 -> Number_rem (of_Z n) 12 = of_Z (n mod 12).
Proof.
  intros Hn. destruct n as [|p|p]; try lia; [reflexivity|].
  pose proof (digits2_bound p ltac:(lia)) as Hd.
  assert (Hd0 : 0 < Zpos (digits2_pos p)) by lia.
  unfold Number_rem. rewrite Prim2SF_of_Z_pos by lia.
  change (Prim2SF 12) with (S754_finite false 6755399441055744 (-49)).
  cbv iota beta. rewrite norm53_Z by exact Hd.
  set (d := Zpos (digits2_pos p)) in *.
  set (ez := Z.min (d - 53) (-49)).
  assert (HX : Zpos p * 2 ^ (53 - d) * 2 ^ (d - 53 - ez) = Zpos p * 2 ^ (- ez)).
  { rewrite <- Z.mul_assoc, <- Z.pow_add_r by (unfold ez; lia). f_equal. f_equal. lia. }
  assert (HY : 6755399441055744 * 2 ^ (-49 - ez) = 12 * 2 ^ (- ez)).
  { replace (- ez) with (49 + (-49 - ez)) by lia.
    rewrite Z.pow_add_r by (unfold ez; lia). change (2 ^ 49) with 562949953421312. lia. }
  rewrite HX, HY.
  assert (HS : 0 < 2 ^ (- ez)) by (apply Z.pow_pos_nonneg; unfold ez; lia).
  rewrite Z.mul_mod_distr_r by lia.
  pose proof (Z.mod_pos_bound (Zpos p) 12 ltac:(lia)) as Hmod.
  destruct (Zpos p mod 12) as [|c|c] eqn:Hc; try lia.
  - reflexivity.
  - replace (Zpos c * 2 ^ (- ez) =? 0) with false by (symmetry; apply Z.eqb_neq; nia).
    cbn [cond_Zopp].
    assert (Hdc : Zpos (digits2_pos c) <= 53) by (apply digits2_bound; lia).
    assert (Hdc0 : 0 < Zpos (digits2_pos c)) by lia.
    replace (Zpos c * 2 ^ (- ez)) with (Zpos (shlp c (Z.to_nat (- ez))))
      by (rewrite shlp_Z, Z2Nat.id by (unfold ez; lia); reflexivity).
    cbn [binary_normalize].
    rewrite binary_round_shlp by (rewrite ?Z2Nat.id by (unfold ez; lia); lia).
    rewrite Z2Nat.id by (unfold ez; lia).
    replace (ez + - ez + Zpos (digits2_pos c) - 53) with (Zpos (digits2_pos c) - 53) by lia.
    apply Prim2SF_inj.
    rewrite Prim2SF_SF2Prim by (apply valid_norm53; exact Hdc).
    rewrite (Prim2SF_of_Z_pos c) by lia. reflexivity.
Qed.

(** ** Halves *)

Lemma div2_SF m1 e1 :
  Zpos (digits2_pos m1) = 53 -> -1072 <= e1 <= 971 ->
  SFdiv prec emax (S754_finite false m1 e1) (S754_finite false 4503599627370496 (-51))
    = S754_finite false m1 (e1 - 1).
Proof.
  intros Hd He.
  unfold SFdiv, SFdiv_core_binary. cbn [xorb Zdigits2]. rewrite Hd.
  change (Zpos (digits2_pos 4503599627370496)) with 53.
  unfold fexp, SpecFloat.emin, prec, emax.
  replace (Z.min (Z.max (53 + e1 - (53 + -51) - 53) (3 - 1024 - 53)) (e1 - -51))
    with (e1 - 2) by lia.
  replace (e1 - -51 - (e1 - 2)) with 53 by lia.
  rewrite Z.shiftl_mul_pow2 by lia.
  change (2 ^ 53) with 9007199254740992.
  pose proof (Z_div_mod (Zpos m1 * 9007199254740992) 4503599627370496 eq_refl) as Hdm.
  change IntDef.Z.div_eucl with Z.div_eucl.
  destruct (Z.div_eucl (Zpos m1 * 9007199254740992) 4503599627370496) as [q r].
  destruct Hdm as [Hq Hr].
  assert (Hr0 : r = 0) by lia. subst r.
  assert (Hq2 : q = Zpos m1~0) by lia. subst q.
  change (new_location 4503599627370496 0) with loc_Exact.
  replace (e1 - 1) with (e1 - 2 + 1) by lia.
  apply binary_round_aux_shift; [cbn [digits2_pos]; lia|reflexivity|exact Hd|lia].
Qed.

Lemma Math_floor_div2 n :
  0 <= n < 2 ^ 53 -> Math_floor (of_Z n / 2) = of_Z (n / 2).
Proof.
  intros Hn. destruct n as [|p|p]; try lia; [reflexivity|].
  pose proof (digits2_bound p ltac:(lia)) as Hd.
  assert (Hd0 : 0 < Zpos (digits2_pos p)) by lia.
  unfold Math_floor. rewrite div_spec, Prim2SF_of_Z_pos by lia.
  change (Prim2SF 2) with (S754_finite false 4503599627370496 (-51)).
  unfold SF64div.
  rewrite div2_SF by (try apply digits2_norm53; lia).
  rewrite norm53_Z by exact Hd.
  set (d := Zpos (digits2_pos p)) in *.
  replace (0 <=? d - 53 - 1) with false by (symmetry; apply Z.leb_gt; lia).
  cbn [cond_Zopp].
  replace (- (d - 53 - 1)) with (1 + (53 - d)) by lia.
  rewrite Z.pow_add_r by lia. change (2 ^ 1) with 2.
  rewrite Z.div_mul_cancel_r by (try apply Z.pow_nonzero; lia).
  destruct (Zpos p / 2 =? 0) eqn:Hk0; [|reflexivity].
  apply Z.eqb_eq in Hk0. rewrite Hk0. reflexivity.
Qed.

(** ** Numbers as text *)

Section TextFacts.
Context {JS : Host} {BR : Browser}.

Lemma Number_toString_of_Z k :
  0 <= k < 2 ^ 53 -> Number_toString (of_Z k) = decimal k.
Proof.
  intros Hk. unfold Number_toString. rewrite to_Z_of_Z by exact Hk.
  destruct k as [|p|p]; try lia; [reflexivity|].
  rewrite Prim2SF_of_Z_pos by lia.
  replace (Z.abs (Zpos p) <? 10 ^ 21) with true; [reflexivity|].
  symmetry. apply Z.ltb_lt. change (2 ^ 53) with 9007199254740992 in Hk.
  change (10 ^ 21) with 1000000000000000000000. lia.
Qed.

Lemma formatPayoffTime_of_Z n :
  0 <= n < 2 ^ 53 -> formatPayoffTime (of_Z n) = payoff_text n.
Proof.
  intros Hn. unfold formatPayoffTime, payoff_text.
  rewrite Math_floor_div12, Number_rem_12 by exact Hn.
  pose proof (Z.mod_pos_bound n 12 ltac:(lia)) as Hm.
  assert (Hy : 0 <= n / 12 < 2 ^ 53).
  { split; [apply Z.div_pos; lia|].
    apply Z.div_lt_upper_bound; lia. }
  assert (Hm' : 0 <= n mod 12 < 2 ^ 53) by (change (2 ^ 53) with 9007199254740992; lia).
  change 0%float with (of_Z 0). change 1%float with (of_Z 1).
  rewrite !of_Z_eqb by (assumption || (change (2 ^ 53) with 9007199254740992; lia)).
  rewrite !Number_toString_of_Z by assumption.
  unfold count_text, decimal.
  destruct (n / 12 =? 0), (n mod 12 =? 1), (n mod 12 =? 0), (n / 12 =? 1); reflexivity.
Qed.

End TextFacts.

(** ** The table *)

Section TableFacts.
Context {JS : Host} {BR : Browser}.
Variables (st : Currency) (len pos : float).

Abbreviation callback := (tableCallback st len pos).

Lemma forEach_table_no_ad l : forall i tb,
  nativeAdInserted tb = true \/ (5 <? len)%float = false \/
    (forall j, (i <= j < i + List.length l)%nat -> (of_nat j =? pos)%float = false) ->
  forEach_from callback l i tb =
  {| tableRows := tableRows tb ++ map (paymentRow st) l;
     adsPushed := adsPushed tb;
     nativeAdInserted := nativeAdInserted tb |}.
Proof.
  induction l as [|x l IH]; intros i tb Hno.
  - destruct tb. cbn. rewrite app_nil_r. reflexivity.
  - cbn [forEach_from].
    assert (Hc : (of_nat i =? pos)%float && negb (nativeAdInserted tb)
                 && (5 <? len)%float = false).
    { destruct Hno as [->|[->|Hj]].
      - rewrite andb_false_r. reflexivity.
      - apply andb_false_r.
      - rewrite (Hj i) by (cbn [List.length]; lia). reflexivity. }
    unfold tableCallback at 2. rewrite Hc. rewrite IH.
    + cbn. rewrite <- app_assoc. reflexivity.
    + cbn [nativeAdInserted]. destruct Hno as [H|[H|H]]; auto.
      right. right. intros j Hj. apply H. cbn [List.length]. lia.
Qed.

Lemma forEach_table_ad p l : forall i tb,
  nativeAdInserted tb = false -> (5 <? len)%float = true -> pos = of_nat p ->
  (i <= p < i + List.length l)%nat -> Z.of_nat (i + List.length l) <= 2 ^ 53 ->
  forEach_from callback l i tb =
  {| tableRows := tableRows tb ++ map (paymentRow st) (firstn (p - i) l)
                    ++ NativeAdRow :: map (paymentRow st) (skipn (p - i) l);
     adsPushed := S (adsPushed tb);
     nativeAdInserted := true |}.
Proof.
  induction l as [|x l IH]; intros i tb Hins Hlen Hpos Hi Hbound;
    cbn [List.length] in *; [lia|].
  assert (Heq : (of_nat i =? pos)%float = (Z.of_nat i =? Z.of_nat p))
    by (rewrite Hpos; unfold of_nat; apply of_Z_eqb; lia).
  cbn [forEach_from]. unfold tableCallback at 2. rewrite Hins, Hlen, Heq.
  destruct (Nat.eq_dec i p) as [->|Hne].
  - rewrite Z.eqb_refl. cbn [andb negb].
    rewrite forEach_table_no_ad by (left; reflexivity).
    rewrite Nat.sub_diag. cbn. rewrite <- !app_assoc. reflexivity.
  - replace (Z.of_nat i =? Z.of_nat p) with false by (symmetry; apply Z.eqb_neq; lia).
    cbn [andb]. rewrite IH by (cbn; auto; lia).
    replace (p - i)%nat with (S (p - S i)) by lia.
    cbn. rewrite <- !app_assoc. reflexivity.
Qed.

End TableFacts.

Section TableTheorem.
Context {JS : Host} {BR : Browser}.

Lemma populateAmortizationTable_rows st schedule :
  Z.of_nat (List.length schedule) < 2 ^ 53 ->
  let n := List.length schedule in
  let position := if (20 <? n)%nat then 10%nat else (n / 2)%nat in
  let tb := populateAmortizationTable st schedule in
  ((n <= 5)%nat ->
   tableRows tb = map (paymentRow st) schedule /\ adsPushed tb = 0%nat) /\
  ((5 < n)%nat ->
   tableRows tb = map (paymentRow st) (firstn position schedule)
                    ++ NativeAdRow :: map (paymentRow st) (skipn position schedule) /\
   adsPushed tb = 1%nat /\ (3 <= position < n)%nat).
Proof.
  intros Hn n position tb. subst tb. unfold populateAmortizationTable. fold n.
  assert (Hn' : 0 <= Z.of_nat n < 2 ^ 53) by (unfold n; lia).
  assert (H5 : (5 <? of_nat n)%float = (5 <? n)%nat).
  { change 5%float with (of_Z 5). unfold of_nat. rewrite of_Z_ltb by (try assumption; cbn; lia).
    destruct (Nat.ltb_spec 5 n); [apply Z.ltb_lt|apply Z.ltb_ge]; lia. }
  assert (Hpos : (if (20 <? of_nat n)%float then 10%float else Math_floor (of_nat n / 2))
                 = of_nat position).
  { change 20%float with (of_Z 20). unfold of_nat at 1.
    rewrite of_Z_ltb by (try assumption; cbn; lia).
    unfold position. destruct (Nat.ltb_spec 20 n) as [H|H].
    - replace (20 <? Z.of_nat n) with true by (symmetry; apply Z.ltb_lt; lia). reflexivity.
    - replace (20 <? Z.of_nat n) with false by (symmetry; apply Z.ltb_ge; lia).
      unfold of_nat. rewrite Math_floor_div2 by assumption.
      f_equal. rewrite Nat2Z.inj_div. reflexivity. }
  rewrite Hpos. split.
  - intros Hle. rewrite forEach_table_no_ad.
    + cbn. auto.
    + right. left. rewrite H5. apply Nat.ltb_ge. exact Hle.
  - intros Hlt.
    assert (Hp : (3 <= position < n)%nat).
    { unfold position. destruct (Nat.ltb_spec 20 n) as [H|H]; [lia|].
      split.
      - apply Nat.div_le_lower_bound; lia.
      - apply Nat.div_lt; lia. }
    rewrite (forEach_table_ad st _ _ position) ; try reflexivity; cbn [nativeAdInserted].
    + cbn [tableRows adsPushed app]. rewrite Nat.sub_0_r. auto.
    + rewrite H5. apply Nat.ltb_lt. exact Hlt.
    + fold n. lia.
    + fold n. lia.
Qed.

End TableTheorem.

(** ** A break-even period below a year *)

(** A double from 0.01 up to 12, 12 excluded. *)
Lemma below_12_shape b :
  (0.01 <=? b)%float = true -> (b <? 12)%float = true ->
  exists m e,
    Prim2SF b = S754_finite false m e /\
    Zpos (digits2_pos m) = 53 /\ -59 <= e <= -49 /\
    Zpos m < 12 * 2 ^ (- e).
Proof.
  rewrite leb_spec, ltb_spec. unfold SFleb, SFltb.
  change (Prim2SF 0.01) with (S754_finite false 5764607523034235 (-59)).
  change (Prim2SF 12) with (S754_finite false 6755399441055744 (-49)).
  pose proof (Prim2SF_valid b) as Hv.
  destruct (Prim2SF b) as [s|[|]| |[|] m e]; try discriminate.
  rewrite (SFcompare_aligned false 5764607523034235 (-59) false m e eq_refl Hv).
  rewrite (SFcompare_aligned false m e false 6755399441055744 (-49) Hv eq_refl).
  cbn [cond_Zopp].
  rewrite !shl_align_Z by lia.
  intros H1 H2.
  assert (Hle : 5764607523034235 * 2 ^ (-59 - Z.min (-59) e) <= Zpos m * 2 ^ (e - Z.min (-59) e)).
  { destruct (Z.compare_spec (5764607523034235 * 2 ^ (-59 - Z.min (-59) e))
                (Zpos m * 2 ^ (e - Z.min (-59) e))); try lia; discriminate. }
  assert (Hlt : Zpos m * 2 ^ (e - Z.min e (-49)) < 6755399441055744 * 2 ^ (-49 - Z.min e (-49))).
  { destruct (Z.compare_spec (Zpos m * 2 ^ (e - Z.min e (-49)))
                (6755399441055744 * 2 ^ (-49 - Z.min e (-49)))); try lia; discriminate. }
  clear H1 H2.
  apply valid_mantissa in Hv as (He & Hd & Hn).
  pose proof (mantissa_bounds m) as [Hlo Hhi].
  assert (Hm53 : Zpos m < 2 ^ 53).
  { eapply Z.lt_le_trans; [exact Hhi|]. apply Z.pow_le_mono_r; lia. }
  change (2 ^ 53) with 9007199254740992 in Hm53.
  assert (He1 : -59 <= e).
  { destruct (Z.le_gt_cases (-59) e) as [|Hc]; [assumption|exfalso].
    rewrite Z.min_r in Hle by lia. rewrite Z.sub_diag, Z.mul_1_r in Hle.
    assert (2 ^ 1 <= 2 ^ (-59 - e)) by (apply Z.pow_le_mono_r; lia).
    change (2 ^ 1) with 2 in *. nia. }
  rewrite (Hn ltac:(lia)) in Hlo. change (2 ^ (53 - 1)) with 4503599627370496 in Hlo.
  assert (He2 : e <= -49).
  { destruct (Z.le_gt_cases e (-49)) as [|Hc]; [assumption|exfalso].
    rewrite Z.min_r in Hlt by lia. rewrite Z.sub_diag, Z.mul_1_r in Hlt.
    assert (2 ^ 1 <= 2 ^ (e - -49)) by (apply Z.pow_le_mono_r; lia).
    change (2 ^ 1) with 2 in *. nia. }
  exists m, e. split; [reflexivity|]. split; [apply Hn; lia|]. split; [lia|].
  rewrite Z.min_l in Hlt by lia. rewrite Z.sub_diag, Z.mul_1_r in Hlt.
  replace (- e) with (49 + (-49 - e)) by lia.
  rewrite Z.pow_add_r by lia. change (2 ^ 49) with 562949953421312. lia.
Qed.

Section Below12.
Variables (b : float) (m : positive) (e : Z).
Hypothesis Hb : Prim2SF b = S754_finite false m e.
Hypothesis Hd : Zpos (digits2_pos m) = 53.
Hypothesis He : -59 <= e <= -49.
Hypothesis Hm : Zpos m < 12 * 2 ^ (- e).

Lemma below_12_mantissa : 4503599627370496 <= Zpos m < 9007199254740992.
Proof.
  pose proof (mantissa_bounds m) as H. rewrite Hd in H. exact H.
Qed.

Lemma below_12_years : Math_floor (b / 12) = zero.
Proof.
  pose proof below_12_mantissa as Hm53.
  unfold Math_floor. rewrite div_spec, Hb.
  change (Prim2SF 12) with (S754_finite false 6755399441055744 (-49)).
  unfold SF64div.
  destruct (div12_SF m e Hd ltac:(lia)) as (j & M & Hj & -> & HdM & Hbd).
  pose proof (mantissa_bounds M) as HM. rewrite HdM in HM.
  change (2 ^ (53 - 1)) with 4503599627370496 in HM.
  change (2 ^ 53) with 9007199254740992 in HM.
  replace (0 <=? e - 4 + j) with false by (symmetry; apply Z.leb_gt; lia).
  cbn [cond_Zopp].
  assert (Hsmall : Zpos M < 2 ^ (- (e - 4 + j))).
  { destruct (Z.eq_dec e (-49)) as [->|Hne].
    - change (2 ^ (- -49)) with 562949953421312 in Hm.
      destruct Hj as [-> | ->].
      + change (2 ^ (- (-49 - 4 + 0))) with 9007199254740992. lia.
      + change (2 ^ 1) with 2 in Hbd. lia.
    - assert (2 ^ 53 <= 2 ^ (- (e - 4 + j))) by (apply Z.pow_le_mono_r; lia).
      change (2 ^ 53) with 9007199254740992 in *. lia. }
  rewrite Z.div_small by lia. reflexivity.
Qed.

Lemma below_12_rem : Number_rem b 12 = b.
Proof.
  pose proof below_12_mantissa as Hm53.
  unfold Number_rem. rewrite Hb.
  change (Prim2SF 12) with (S754_finite false 6755399441055744 (-49)).
  cbv iota beta. rewrite Z.min_l by lia. rewrite Z.sub_diag, Z.mul_1_r.
  assert (HY : 6755399441055744 * 2 ^ (-49 - e) = 12 * 2 ^ (- e)).
  { replace (- e) with (49 + (-49 - e)) by lia.
    rewrite Z.pow_add_r by lia. change (2 ^ 49) with 562949953421312. lia. }
  rewrite HY, Z.mod_small by lia. cbn [Z.eqb cond_Zopp binary_normalize].
  replace m with (shlp m 0) at 1 by reflexivity.
  rewrite binary_round_shlp by lia.
  replace (e + Z.of_nat 0 + Zpos (digits2_pos m) - 53) with e by lia.
  replace (norm53 m) with m
    by (unfold norm53; rewrite Hd; reflexivity).
  rewrite <- Hb. apply SF2Prim_Prim2SF.
Qed.

(** [Math.round] of such a double. *)
Lemma below_12_round :
  let k := (Zpos m * 2 + 2 ^ (- e)) / 2 ^ (- e + 1) in
  Math_round b = (if k =? 0 then zero else of_Z k) /\
  0 <= k <= 12 /\
  (k =? 0) = (b <? 0.5)%float.
Proof.
  pose proof below_12_mantissa as Hm53.
  intros k. split; [|split].
  - unfold Math_round. rewrite Hb.
    replace (0 <=? e) with false by (symmetry; apply Z.leb_gt; lia).
    reflexivity.
  - assert (HS : 0 < 2 ^ (- e)) by (apply Z.pow_pos_nonneg; lia).
    assert (HS2 : 2 ^ (- e + 1) = 2 * 2 ^ (- e))
      by (rewrite Z.pow_add_r by lia; change (2 ^ 1) with 2; lia).
    unfold k. rewrite HS2. split.
    + apply Z.div_pos; lia.
    + apply Z.lt_succ_r. apply Z.div_lt_upper_bound; lia.
  - assert (HS : 0 < 2 ^ (- e)) by (apply Z.pow_pos_nonneg; lia).
    assert (HS2 : 2 ^ (- e + 1) = 2 * 2 ^ (- e))
      by (rewrite Z.pow_add_r by lia; change (2 ^ 1) with 2; lia).
    rewrite ltb_spec, Hb. unfold SFltb.
    change (Prim2SF 0.5) with (S754_finite false 4503599627370496 (-53)).
    pose proof (Prim2SF_valid b) as Hv. rewrite Hb in Hv.
    rewrite (SFcompare_aligned false m e false 4503599627370496 (-53) Hv eq_refl).
    cbn [cond_Zopp]. rewrite !shl_align_Z by lia.
    unfold k. rewrite HS2.
    destruct (Z.le_gt_cases e (-53)) as [Hle|Hgt].
    + rewrite Z.min_l by lia. rewrite Z.sub_diag, Z.mul_1_r.
      assert (HY : 4503599627370496 * 2 ^ (-53 - e) * 2 = 2 ^ (- e)).
      { replace (- e) with (53 + (-53 - e)) by lia.
        rewrite Z.pow_add_r by lia. change (2 ^ 53) with 9007199254740992. lia. }
      destruct (Z.compare_spec (Zpos m) (4503599627370496 * 2 ^ (-53 - e))) as [Heq|Hlt|Hgt'].
      * apply Z.eqb_neq. intros Hk.
        assert (1 <= (Zpos m * 2 + 2 ^ (- e)) / (2 * 2 ^ (- e)))
          by (apply Z.div_le_lower_bound; lia).
        lia.
      * apply Z.eqb_eq. apply Z.div_small. lia.
      * apply Z.eqb_neq. intros Hk.
        assert (1 <= (Zpos m * 2 + 2 ^ (- e)) / (2 * 2 ^ (- e)))
          by (apply Z.div_le_lower_bound; lia).
        lia.
    + rewrite Z.min_r by lia. rewrite Z.sub_diag, Z.mul_1_r.
      assert (Hb2 : 2 ^ 1 <= 2 ^ (e - -53)) by (apply Z.pow_le_mono_r; lia).
      change (2 ^ 1) with 2 in Hb2.
      assert (Hup : 2 ^ (- e) <= 2 ^ 52) by (apply Z.pow_le_mono_r; lia).
      change (2 ^ 52) with 4503599627370496 in Hup.
      replace (Zpos m * 2 ^ (e - -53) ?= 4503599627370496) with Gt
        by (symmetry; apply Z.compare_gt_iff; nia).
      apply Z.eqb_neq. intros Hk.
      assert (1 <= (Zpos m * 2 + 2 ^ (- e)) / (2 * 2 ^ (- e)))
        by (apply Z.div_le_lower_bound; lia).
      lia.
Qed.

End Below12.

Section PeriodFacts.
Context {JS : Host} {BR : Browser}.

Lemma break_even_period_below_12 b :
  (0.01 <=? b)%float = true -> (b <? 12)%float = true ->
  break_even_period (Some b) =
    ("You will break even in "
     ++ (if (b <? 0.5)%float
         then counted_unit (Math_round (b * 30)) "day" "days"
         else counted_unit (Math_round b) "month" "months")
     ++ ".")%string /\
  ((b <? 0.5)%float = false -> exists k, 1 <= k <= 12 /\ Math_round b = of_Z k).
Proof.
  intros H1 H2. destruct (below_12_shape b H1 H2) as (m & e & Hb & Hd & He & Hm).
  destruct (below_12_round b m e Hb Hd He Hm) as (Hr & Hk & Hhalf).
  set (k := (Zpos m * 2 + 2 ^ (- e)) / 2 ^ (- e + 1)) in *.
  unfold break_even_period.
  rewrite (below_12_years b m e Hb Hd He Hm), (below_12_rem b m e Hb Hd He Hm), Hr.
  change (0 <? zero)%float with false. cbn [andb]. rewrite <- Hhalf.
  destruct (k =? 0) eqn:Hk0.
  - change (0 <? zero)%float with false. split; [reflexivity|discriminate].
  - apply Z.eqb_neq in Hk0.
    change 0%float with (of_Z 0) at 1.
    rewrite of_Z_ltb by (change (2 ^ 53) with 9007199254740992; lia).
    replace (0 <? k) with true by (symmetry; apply Z.ltb_lt; lia).
    split; [reflexivity|]. intros _. exists k. split; [lia|reflexivity].
Qed.

(** ** The currency *)

Lemma currencyMap_get_own key info :
  currencyMap_get key = Own info -> In (key, info) currencyMap.
Proof.
  unfold currencyMap_get.
  destruct (find _ currencyMap) as [[k i]|] eqn:Hf.
  - intros [= <-]. apply find_some in Hf as [Hin Heq]. cbn [fst] in Heq.
    apply String.eqb_eq in Heq. subst k. exact Hin.
  - destruct (Object_prototype_has key); discriminate.
Qed.

(** ** Dates *)

Lemma padStart_two_digits k :
  0 <= k <= 31 -> String_padStart_2_0 (decimal k) = two_digits k.
Proof.
  intros Hk.
  assert (Hn : exists n, k = Z.of_nat n /\ (n <= 31)%nat)
    by (exists (Z.to_nat k); lia).
  destruct Hn as (n & -> & Hn).
  do 32 (destruct n as [|n]; [reflexivity|]). lia.
Qed.

End PeriodFacts.

(** ** Differences of integers *)

Lemma of_Z_sub a b :
  0 <= b <= a -> a < 2 ^ 53 -> (of_Z a - of_Z b)%float = of_Z (a - b).
Proof.
  intros Hab Ha. apply Prim2SF_inj. rewrite sub_spec.
  destruct b as [|pb|pb]; try lia.
  - rewrite Z.sub_0_r. change (Prim2SF (of_Z 0)) with (S754_zero false).
    destruct a as [|pa|pa]; try lia; [reflexivity|].
    rewrite Prim2SF_of_Z_pos by lia. reflexivity.
  - destruct a as [|pa|pa]; try lia.
    rewrite (Prim2SF_of_Z_pos pa), (Prim2SF_of_Z_pos pb) by lia.
    pose proof (digits2_bound pa ltac:(lia)) as Hda.
    pose proof (digits2_bound pb ltac:(lia)) as Hdb.
    assert (0 < Zpos (digits2_pos pa)) by lia.
    assert (0 < Zpos (digits2_pos pb)) by lia.
    unfold SF64sub, SFsub. cbn [cond_Zopp].
    set (ea := Zpos (digits2_pos pa) - 53). set (eb := Zpos (digits2_pos pb) - 53).
    set (ez := Z.min ea eb).
    rewrite (shl_align_Z _ ea ez), (shl_align_Z _ eb ez) by (unfold ez; lia).
    rewrite !norm53_Z by assumption.
    assert (HX : Zpos pa * 2 ^ (53 - Zpos (digits2_pos pa)) * 2 ^ (ea - ez)
                 = Zpos pa * 2 ^ (- ez)).
    { rewrite <- Z.mul_assoc, <- Z.pow_add_r by (unfold ez, ea, eb; lia).
      f_equal. f_equal. unfold ea. lia. }
    assert (HY : Zpos pb * 2 ^ (53 - Zpos (digits2_pos pb)) * 2 ^ (eb - ez)
                 = Zpos pb * 2 ^ (- ez)).
    { rewrite <- Z.mul_assoc, <- Z.pow_add_r by (unfold ez, ea, eb; lia).
      f_equal. f_equal. unfold eb. lia. }
    rewrite HX, HY, <- Z.mul_sub_distr_r.
    destruct (Zpos pa - Zpos pb) as [|c|c] eqn:Hc; try lia.
    + reflexivity.
    + assert (Hdc : Zpos (digits2_pos c) <= 53) by (apply digits2_bound; lia).
      assert (Hdc0 : 0 < Zpos (digits2_pos c)) by lia.
      assert (Hez : -52 <= ez <= 0) by (unfold ez, ea, eb; lia).
      replace (Zpos c * 2 ^ (- ez)) with (Zpos (shlp c (Z.to_nat (- ez))))
        by (rewrite shlp_Z, Z2Nat.id by lia; reflexivity).
      cbn [binary_normalize].
      rewrite binary_round_shlp by (rewrite ?Z2Nat.id by lia; lia).
      rewrite Z2Nat.id by lia.
      replace (ez + - ez + Zpos (digits2_pos c) - 53) with (Zpos (digits2_pos c) - 53) by lia.
      rewrite (Prim2SF_of_Z_pos c) by lia. reflexivity.
Qed.

Lemma of_Z_not_nan k : 0 <= k < 2 ^ 53 -> is_nan (of_Z k) = false.
Proof.
  intros Hk. unfold is_nan. rewrite of_Z_eqb by assumption.
  rewrite Z.eqb_refl. reflexivity.
Qed.

Lemma same_key_of_Z a b :
  0 <= a < 2 ^ 53 -> 0 <= b < 2 ^ 53 -> same_key (of_Z a) (of_Z b) = (a =? b).
Proof.
  intros Ha Hb. unfold same_key.
  rewrite of_Z_eqb, !of_Z_not_nan by assumption. apply orb_false_r.
Qed.

(** The year of the payment with number [k + 1]. *)
Lemma year_of_payment k :
  0 <= k -> k + 1 < 2 ^ 53 ->
  Math_floor ((of_Z (k + 1) - 1) / 12) = of_Z (k / 12).
Proof.
  intros Hk Hk1. change 1%float with (of_Z 1).
  rewrite of_Z_sub by lia. replace (k + 1 - 1) with k by lia.
  apply Math_floor_div12. lia.
Qed.



(** ** The chart *)

Section ChartFacts.
Context {JS : Host} {BR : Browser}.

Lemma aggregatedData_has_seq (g : nat -> YearData) j G :
  Z.of_nat j < 2 ^ 53 -> Z.of_nat G < 2 ^ 53 ->
  aggregatedData_has (of_nat j) (map (fun i => (of_nat i, g i)) (seq 0 G)) = (j <? G)%nat.
Proof.
  intros Hj. induction G as [|G IH]; intros HG; [reflexivity|].
  rewrite seq_S, map_app. unfold aggregatedData_has in *. rewrite existsb_app, IH by lia.
  cbn [map existsb fst Nat.add]. unfold of_nat. rewrite same_key_of_Z by lia.
  rewrite orb_false_r.
  destruct (Nat.ltb_spec j G), (Nat.ltb_spec j (S G)), (Z.eqb_spec (Z.of_nat G) (Z.of_nat j));
    try reflexivity; lia.
Qed.

Lemma aggregatedData_update_last year f xs key d :
  (forall e, In e xs -> same_key (fst e) year = false) ->
  same_key key year = true ->
  aggregatedData_update year f (xs ++ [(key, d)]) = xs ++ [(key, f d)].
Proof.
  intros Hxs Hkey. induction xs as [|[k0 d0] xs IH]; cbn [app aggregatedData_update].
  - rewrite Hkey. reflexivity.
  - pose proof (Hxs (k0, d0) (or_introl eq_refl)) as H0. cbn [fst] in H0.
    rewrite H0, IH; [reflexivity|].
    intros e He. apply Hxs. right. exact He.
Qed.

Lemma seq_keys_differ (g : nat -> YearData) j e :
  Z.of_nat j < 2 ^ 53 ->
  In e (map (fun i => (of_nat i, g i)) (seq 0 j)) -> same_key (fst e) (of_nat j) = false.
Proof.
  intros Hj He. apply in_map_iff in He as (i & <- & Hi). apply in_seq in Hi.
  cbn [fst]. unfold of_nat. rewrite same_key_of_Z by lia. apply Z.eqb_neq. lia.
Qed.

(** *** The records of a year, as the schedule grows *)

Lemma year_records_full i p x :
  (12 * i + 12 <= List.length p)%nat ->
  year_records i (p ++ [x]) = year_records i p.
Proof.
  intros Hi. unfold year_records.
  rewrite skipn_app. replace (12 * i - List.length p)%nat with 0%nat by lia.
  cbn [skipn]. rewrite firstn_app.
  rewrite length_skipn.
  replace (12 - (List.length p - 12 * i))%nat with 0%nat by lia.
  cbn [firstn]. apply app_nil_r.
Qed.

Lemma year_records_last p x :
  year_records (List.length p / 12) (p ++ [x])
  = year_records (List.length p / 12) p ++ [x].
Proof.
  unfold year_records.
  pose proof (Nat.div_mod_eq (List.length p) 12) as Hdm.
  pose proof (Nat.mod_upper_bound (List.length p) 12 ltac:(lia)) as Hr.
  set (j := (List.length p / 12)%nat) in *.
  rewrite skipn_app. replace (12 * j - List.length p)%nat with 0%nat by lia.
  cbn [skipn].
  assert (Hlen : (List.length (skipn (12 * j) p) < 12)%nat) by (rewrite length_skipn; lia).
  rewrite firstn_all2 by (rewrite length_app; cbn [List.length]; lia).
  rewrite (firstn_all2 (skipn (12 * j) p)) by lia. reflexivity.
Qed.

Lemma year_records_new p :
  (List.length p mod 12 = 0)%nat -> year_records (List.length p / 12) p = [].
Proof.
  intros Hr. unfold year_records.
  pose proof (Nat.div_mod_eq (List.length p) 12) as Hdm.
  rewrite skipn_all2 by lia. reflexivity.
Qed.

Lemma year_summary_snoc j c x :
  year_summary j (c ++ [x])
  = {| agg_label := agg_label (year_summary j c);
       agg_principal := (agg_principal (year_summary j c) + principalPaid x)%float;
       agg_interest := (agg_interest (year_summary j c) + interestPaid x)%float;
       agg_balance := remainingBalance x |}.
Proof.
  unfold year_summary, year_principal, year_interest, year_balance.
  cbn [agg_label agg_principal agg_interest].
  rewrite !fold_left_app, map_app. cbn [map fold_left]. rewrite last_last. reflexivity.
Qed.

(** *** One pass of the callback *)

Lemma chartCallback_step p x :
  Z.of_nat (S (List.length p)) < 2 ^ 53 ->
  paymentNumber x = of_nat (S (List.length p)) ->
  chartCallback (map (year_entry p) (seq 0 (years_of p))) x
  = map (year_entry (p ++ [x])) (seq 0 (years_of (p ++ [x]))).
Proof.
  intros Hk Hx.
  pose proof (Nat.div_mod_eq (List.length p) 12) as Hdm.
  pose proof (Nat.mod_upper_bound (List.length p) 12 ltac:(lia)) as Hr.
  set (k := List.length p) in *. set (j := (k / 12)%nat) in *.
  assert (Hyear : Math_floor ((paymentNumber x - 1) / 12) = of_nat j).
  { rewrite Hx. unfold of_nat. rewrite Nat2Z.inj_succ, <- Z.add_1_r.
    rewrite year_of_payment by lia. f_equal. unfold j. rewrite Nat2Z.inj_div. reflexivity. }
  assert (Hlabel : ("Year " ++ Number_toString (of_nat j + 1))%string
                   = ("Year " ++ decimal (Z.of_nat j + 1))%string).
  { unfold of_nat. rewrite of_Z_succ by (unfold MAX_SAFE_INTEGER; lia).
    rewrite Number_toString_of_Z by lia. reflexivity. }
  assert (Hnew : years_of (p ++ [x]) = S j).
  { unfold years_of. rewrite length_app. cbn [List.length]. fold k.
    replace (k + 1 + 11)%nat with (k + 1 * 12)%nat by lia.
    rewrite Nat.div_add by lia. fold j. lia. }
  assert (Htarget : map (year_entry (p ++ [x])) (seq 0 (S j))
                    = map (year_entry p) (seq 0 j)
                        ++ [(of_nat j, year_summary j (year_records j p ++ [x]))]).
  { rewrite seq_S, map_app. cbn [map Nat.add]. f_equal.
    - apply map_ext_in. intros i Hi. apply in_seq in Hi. unfold year_entry.
      rewrite year_records_full by (fold k; lia). reflexivity.
    - unfold year_entry. unfold j, k. rewrite year_records_last. reflexivity. }
  rewrite Hnew, Htarget. unfold chartCallback. rewrite Hyear, Hlabel.
  unfold year_entry at 1.
  destruct (Nat.eq_dec (k mod 12) 0) as [Hz|Hnz].
  - assert (Hold : years_of p = j).
    { unfold years_of. fold k. rewrite Hdm, Hz, Nat.add_0_r.
      replace (12 * j + 11)%nat with (11 + j * 12)%nat by lia.
      rewrite Nat.div_add by lia. reflexivity. }
    rewrite Hold, aggregatedData_has_seq, Nat.ltb_irrefl by lia.
    rewrite aggregatedData_update_last.
    + f_equal. f_equal. f_equal.
      unfold j, k. rewrite (year_records_new p Hz). reflexivity.
    + intros e He. apply (seq_keys_differ (fun i => year_summary i (year_records i p)) j e);
        [lia|exact He].
    + unfold of_nat. rewrite same_key_of_Z by lia. apply Z.eqb_refl.
  - assert (Hold : years_of p = S j).
    { unfold years_of. fold k. rewrite Hdm.
      replace (12 * j + k mod 12 + 11)%nat with ((k mod 12 - 1) + (j + 1) * 12)%nat by lia.
      rewrite Nat.div_add by lia. rewrite Nat.div_small by lia. lia. }
    rewrite Hold, aggregatedData_has_seq by lia.
    replace (j <? S j)%nat with true by (symmetry; apply Nat.ltb_lt; lia).
    rewrite seq_S, map_app. cbn [map Nat.add].
    change (year_entry p j) with (of_nat j, year_summary j (year_records j p)).
    rewrite aggregatedData_update_last.
    + f_equal. f_equal. f_equal. rewrite year_summary_snoc. reflexivity.
    + intros e He. apply (seq_keys_differ (fun i => year_summary i (year_records i p)) j e);
        [lia|exact He].
    + unfold of_nat. rewrite same_key_of_Z by lia. apply Z.eqb_refl.
Qed.

Lemma chartCallback_fold rest : forall p,
  Z.of_nat (List.length p + List.length rest) < 2 ^ 53 ->
  numbered_from (List.length p) rest ->
  fold_left chartCallback rest (map (year_entry p) (seq 0 (years_of p)))
  = map (year_entry (p ++ rest)) (seq 0 (years_of (p ++ rest))).
Proof.
  induction rest as [|x rest IH]; intros p Hlen Hnum.
  - rewrite app_nil_r. reflexivity.
  - cbn [fold_left List.length] in *.
    rewrite chartCallback_step.
    + replace (p ++ x :: rest) with ((p ++ [x]) ++ rest) by (rewrite <- app_assoc; reflexivity).
      apply IH.
      * rewrite length_app. cbn [List.length]. lia.
      * intros k y Hk. rewrite length_app. cbn [List.length].
        replace (List.length p + 1 + k)%nat with (List.length p + S k)%nat by lia.
        apply Hnum. exact Hk.
    + lia.
    + rewrite (Hnum 0%nat x eq_refl). f_equal. lia.
Qed.

(** *** [Object.values] of the years *)

Lemma insert_sorted (g : nat -> YearData) G : forall s,
  Z.of_nat (s + G) < 2 ^ 53 ->
  fold_right insert_by_key [] (map (fun i => (of_nat i, g i)) (seq s G))
  = map (fun i => (of_nat i, g i)) (seq s G).
Proof.
  induction G as [|G IH]; intros s Hs; [reflexivity|].
  cbn [seq map fold_right]. rewrite IH by lia.
  destruct G as [|G]; [reflexivity|].
  cbn [seq map insert_by_key fst]. unfold of_nat. rewrite of_Z_ltb by lia.
  replace (Z.of_nat s <? Z.of_nat (S s)) with true by (symmetry; apply Z.ltb_lt; lia).
  reflexivity.
Qed.

Lemma Object_values_years (g : nat -> YearData) G :
  Z.of_nat G < 2 ^ 32 ->
  Object_values (map (fun i => (of_nat i, g i)) (seq 0 G)) = map g (seq 0 G).
Proof.
  intros HG. unfold Object_values.
  assert (Hidx : forall e, In e (map (fun i => (of_nat i, g i)) (seq 0 G)) ->
            is_array_index (fst e) = true).
  { intros e He. apply in_map_iff in He as (i & <- & Hi). apply in_seq in Hi.
    cbn [fst]. unfold is_array_index, of_nat.
    change (2 ^ 32) with 4294967296 in HG.
    rewrite to_Z_of_Z by (change (2 ^ 53) with 9007199254740992; lia).
    change (2 ^ 32 - 1) with 4294967295.
    apply andb_true_intro. split; [apply Z.leb_le|apply Z.ltb_lt]; lia. }
  assert (Hall : filter (fun entry => is_array_index (fst entry))
                   (map (fun i => (of_nat i, g i)) (seq 0 G))
                 = map (fun i => (of_nat i, g i)) (seq 0 G)).
  { apply forallb_filter_id. apply forallb_forall. exact Hidx. }
  assert (Hnone : filter (fun entry => negb (is_array_index (fst entry)))
                    (map (fun i => (of_nat i, g i)) (seq 0 G)) = []).
  { generalize Hidx. generalize (map (fun i => (of_nat i, g i)) (seq 0 G)).
    induction l as [|e l IHl]; intros Hl; [reflexivity|].
    cbn [filter]. rewrite (Hl e) by (left; reflexivity). cbn [negb].
    apply IHl. intros e' He'. apply Hl. right. exact He'. }
  rewrite Hall, Hnone, app_nil_r.
  rewrite insert_sorted
    by (change (2 ^ 32) with 4294967296 in HG; change (2 ^ 53) with 9007199254740992; lia).
  rewrite map_map. reflexivity.
Qed.

End ChartFacts.


(** ** Payments *)

Lemma SFcompare_None x y : SFcompare x y = None -> x = S754_nan \/ y = S754_nan.
Proof.
  destruct x as [sx|sx| |sx mx ex], y as [sy|sy| |sy my ey];
    cbv beta iota delta [SFcompare]; intros H; try discriminate H; auto.
Qed.

(** [!(x <= y)]: [y < x], or one of the two is not a number. *)
Lemma leb_false x y :
  (x <=? y)%float = false ->
  (y <? x)%float = true \/ Prim2SF x = S754_nan \/ Prim2SF y = S754_nan.
Proof.
  rewrite leb_spec, ltb_spec. unfold SFleb, SFltb.
  rewrite (SFcompare_antisym (Prim2SF x) (Prim2SF y)).
  destruct (SFcompare (Prim2SF x) (Prim2SF y)) as [[| |]|] eqn:Hcmp;
    cbn [option_map CompOpp]; try discriminate; auto.
  intros _. right. apply SFcompare_None. exact Hcmp.
Qed.

Lemma above_one c :
  (c <=? 1)%float = false -> (c <? 0)%float = false /\ (c - 1 <=? 0)%float = false.
Proof.
  intros Hc. apply leb_false in Hc as [Hlt|[Hnan|Hnan]].
  - split.
    + apply not_negative_spec. revert Hlt. rewrite ltb_spec. unfold SFltb.
      change (Prim2SF 1) with (S754_finite false 4503599627370496 (-52)).
      destruct (Prim2SF c) as [s|[|]| |[|] m e];
        cbv beta iota delta [SFcompare SFnonneg]; intros H; try discriminate H; exact I.
    + apply ltb_not_ge. rewrite sub_positive. exact Hlt.
  - split.
    + rewrite ltb_spec, Hnan. reflexivity.
    + rewrite leb_spec, sub_spec, Hnan. reflexivity.
  - discriminate Hnan.
Qed.

Lemma months_not_leb_zero t : (t <=? 0)%float = false -> (t * 12 <=? 0)%float = false.
Proof.
  intros Ht. apply not_leb_zero in Ht as [Hpos|Hnan].
  - apply ltb_not_ge.
    apply (mul_positive t 12 6755399441055744 (-49)); [reflexivity|cbn; lia|exact Hpos].
  - rewrite leb_spec, mul_spec, Hnan. reflexivity.
Qed.

Section PaymentFacts.
Context {JS : Host}.

(** The payment formula gives no negative payment when the power is above
    1, as that of a base above 1 is, or not a number. *)
Lemma payment_not_negative p r t :
  (p <? 0)%float = false -> (r <? 0)%float = false -> (t <=? 0)%float = false ->
  ((r / 100 / 12 =? 0)%float = false ->
   (Math_pow (1 + r / 100 / 12) (t * 12) <=? 1)%float = false) ->
  (standardPayment p r t <? 0)%float = false /\
  (calculateMonthlyPayment p r t <? 0)%float = false.
Proof.
  intros Hp Hr Ht Hpow.
  assert (Hmr : (r / 100 / 12 <? 0)%float = false).
  { apply div_not_negative; [|reflexivity]. apply div_not_negative; [exact Hr|reflexivity]. }
  assert (Hraw : ((if (r / 100 / 12 =? 0)%float then p / (t * 12)
                   else p * (r / 100 / 12 * Math_pow (1 + r / 100 / 12) (t * 12))
                        / (Math_pow (1 + r / 100 / 12) (t * 12) - 1)) <? 0)%float = false).
  { destruct (r / 100 / 12 =? 0)%float.
    - apply div_not_negative; [exact Hp|apply months_not_leb_zero; exact Ht].
    - destruct (above_one _ (Hpow eq_refl)) as [Hc Hc1].
      apply div_not_negative; [|exact Hc1].
      apply mul_not_negative; [exact Hp|]. apply mul_not_negative; assumption. }
  split.
  - unfold standardPayment. apply round2_not_negative. exact Hraw.
  - unfold calculateMonthlyPayment.
    destruct ((p <=? 0)%float || (t <=? 0)%float); [reflexivity|].
    destruct (r / 100 / 12 =? 0)%float; [exact Hraw|].
    apply round2_not_negative. exact Hraw.
Qed.

(** A principal that is not a number gives a payment that is not a
    number. *)
Lemma standardPayment_nan r t : is_nan (standardPayment nan r t) = true.
Proof.
  assert (Hdiv : forall x y, Prim2SF x = S754_nan -> Prim2SF (x / y) = S754_nan)
    by (intros x y Hx; rewrite div_spec, Hx; reflexivity).
  assert (Hmul : forall x y, Prim2SF x = S754_nan -> Prim2SF (x * y) = S754_nan)
    by (intros x y Hx; rewrite mul_spec, Hx; reflexivity).
  assert (Hround : forall x, Prim2SF x = S754_nan -> Prim2SF (round2 x) = S754_nan).
  { intros x Hx. unfold round2. apply Hdiv. unfold Math_round.
    rewrite (Hmul x 100%float Hx). apply Hmul. exact Hx. }
  unfold is_nan. apply negb_true_iff. apply nan_spec.
  unfold standardPayment. apply Hround.
  destruct (r / 100 / 12 =? 0)%float.
  - apply Hdiv. reflexivity.
  - apply Hdiv. apply Hmul. reflexivity.
Qed.

End PaymentFacts.

(** A number above zero is truthy and passes [x <= 0]. *)
Lemma positive_truthy x :
  (0 <? x)%float = true ->
  is_nan x || (x =? 0)%float = false /\ (x <=? 0)%float = false.
Proof.
  intros Hx. split; [|apply ltb_not_ge; exact Hx].
  apply orb_false_intro.
  - unfold is_nan. apply negb_false_iff.
    destruct (x =? x)%float eqn:He; [reflexivity|].
    apply nan_spec in He. apply ltb_zero_positive in Hx. rewrite He in Hx. destruct Hx.
  - apply ltb_zero_positive in Hx. rewrite eqb_spec. unfold SFeqb.
    change (Prim2SF 0) with (S754_zero false).
    destruct (Prim2SF x) as [s|[|]| |[|] m e]; try destruct Hx; reflexivity.
Qed.

(** ** A break-even period of a year or more *)

Lemma valid_53 s m e :
  Zpos (digits2_pos m) = 53 -> -1074 <= e <= 971 ->
  valid_binary (S754_finite s m e) = true.
Proof.
  intros Hd He. cbn [SpecFloat.valid_binary]. unfold bounded, canonical_mantissa.
  rewrite Hd. unfold fexp, SpecFloat.emin, prec, emax.
  apply andb_true_intro. split; [apply Z.eqb_eq|apply Z.leb_le]; lia.
Qed.

(** A double from 12 up to 2^53, 2^53 excluded. *)
Lemma from_12_shape b :
  (12 <=? b)%float = true -> (b <? 9007199254740992)%float = true ->
  exists m e,
    Prim2SF b = S754_finite false m e /\
    Zpos (digits2_pos m) = 53 /\ -49 <= e <= 0 /\
    12 * 2 ^ (- e) <= Zpos m.
Proof.
  rewrite leb_spec, ltb_spec. unfold SFleb, SFltb.
  change (Prim2SF 12) with (S754_finite false 6755399441055744 (-49)).
  change (Prim2SF 9007199254740992) with (S754_finite false 4503599627370496 1).
  pose proof (Prim2SF_valid b) as Hv.
  destruct (Prim2SF b) as [s|[|]| |[|] m e]; try discriminate.
  rewrite (SFcompare_aligned false 6755399441055744 (-49) false m e eq_refl Hv).
  rewrite (SFcompare_aligned false m e false 4503599627370496 1 Hv eq_refl).
  cbn [cond_Zopp].
  rewrite !shl_align_Z by lia.
  intros H1 H2.
  assert (Hle : 6755399441055744 * 2 ^ (-49 - Z.min (-49) e) <= Zpos m * 2 ^ (e - Z.min (-49) e)).
  { destruct (Z.compare_spec (6755399441055744 * 2 ^ (-49 - Z.min (-49) e))
                (Zpos m * 2 ^ (e - Z.min (-49) e))); try lia; discriminate. }
  assert (Hlt : Zpos m * 2 ^ (e - Z.min e 1) < 4503599627370496 * 2 ^ (1 - Z.min e 1)).
  { destruct (Z.compare_spec (Zpos m * 2 ^ (e - Z.min e 1))
                (4503599627370496 * 2 ^ (1 - Z.min e 1))); try lia; discriminate. }
  clear H1 H2.
  apply valid_mantissa in Hv as (He & Hd & Hn).
  pose proof (mantissa_bounds m) as [Hlo Hhi].
  assert (Hm53 : Zpos m < 2 ^ 53).
  { eapply Z.lt_le_trans; [exact Hhi|]. apply Z.pow_le_mono_r; lia. }
  change (2 ^ 53) with 9007199254740992 in Hm53.
  assert (He1 : -49 <= e).
  { destruct (Z.le_gt_cases (-49) e) as [|Hc]; [assumption|exfalso].
    rewrite Z.min_r in Hle by lia. rewrite Z.sub_diag, Z.mul_1_r in Hle.
    assert (2 ^ 1 <= 2 ^ (-49 - e)) by (apply Z.pow_le_mono_r; lia).
    change (2 ^ 1) with 2 in *. nia. }
  rewrite (Hn ltac:(lia)) in Hlo. change (2 ^ (53 - 1)) with 4503599627370496 in Hlo.
  assert (He2 : e <= 0).
  { destruct (Z.le_gt_cases e 0) as [|Hc]; [assumption|exfalso].
    rewrite Z.min_r in Hlt by lia. rewrite Z.sub_diag, Z.mul_1_r in Hlt.
    assert (2 ^ 0 <= 2 ^ (e - 1)) by (apply Z.pow_le_mono_r; lia).
    change (2 ^ 0) with 1 in *. nia. }
  exists m, e. split; [reflexivity|]. split; [apply Hn; lia|]. split; [lia|].
  rewrite Z.min_l in Hle by lia. rewrite Z.sub_diag, Z.mul_1_r in Hle.
  assert (Hpow : 2 ^ (- e) * 2 ^ (e - -49) = 2 ^ 49)
    by (rewrite <- Z.pow_add_r by lia; f_equal; lia).
  change (2 ^ 49) with 562949953421312 in Hpow.
  assert (0 < 2 ^ (e - -49)) by (apply Z.pow_pos_nonneg; lia).
  nia.
Qed.

Section From12.
Variables (b : float) (m : positive) (e : Z).
Hypothesis Hb : Prim2SF b = S754_finite false m e.
Hypothesis Hd : Zpos (digits2_pos m) = 53.
Hypothesis He : -1000 <= e <= 0.

Let S := 2 ^ (- e).

Lemma scale_positive : 1 <= S.
Proof. unfold S. apply (Z.pow_le_mono_r 2 0); lia. Qed.

(** The years: the quotient of the division by 12, without any error. *)
Lemma exact_years : Math_floor (b / 12) = of_Z (Zpos m / (12 * S)).
Proof.
  pose proof scale_positive as HS.
  pose proof (mantissa_bounds m) as Hm53. rewrite Hd in Hm53.
  change (2 ^ (53 - 1)) with 4503599627370496 in Hm53.
  change (2 ^ 53) with 9007199254740992 in Hm53.
  unfold Math_floor. rewrite div_spec, Hb.
  change (Prim2SF 12) with (S754_finite false 6755399441055744 (-49)).
  unfold SF64div.
  destruct (div12_SF m e Hd ltac:(lia)) as (j & M & Hj & -> & HdM & Hbd).
  replace (0 <=? e - 4 + j) with false by (symmetry; apply Z.leb_gt; lia).
  cbn [cond_Zopp].
  assert (Hpow : 2 ^ (- (e - 4 + j)) = 2 ^ (4 - j) * S).
  { unfold S. rewrite <- Z.pow_add_r by lia. f_equal. lia. }
  rewrite Hpow.
  pose proof (Z.div_mod (Zpos m) (12 * S) ltac:(lia)) as Hdiv.
  pose proof (Z.mod_pos_bound (Zpos m) (12 * S) ltac:(lia)) as Hmod.
  set (Y := Zpos m / (12 * S)) in *. set (rho := Zpos m mod (12 * S)) in *.
  assert (HY : 0 <= Y) by (unfold Y; apply Z.div_pos; lia).
  assert (Hq : Zpos M / (2 ^ (4 - j) * S) = Y).
  { symmetry. apply (Z.div_unique_pos _ _ Y (Zpos M - 2 ^ (4 - j) * S * Y)); [|lia].
    replace (12 * S * Y) with (12 * (S * Y)) in Hdiv by ring.
    replace (2 ^ (4 - j) * S * Y) with (2 ^ (4 - j) * (S * Y)) by ring.
    set (a := S * Y) in *.
    destruct Hj as [-> | ->].
    - change (2 ^ 0) with 1 in Hbd. change (2 ^ (4 - 0)) with 16. lia.
    - change (2 ^ 1) with 2 in Hbd. change (2 ^ (4 - 1)) with 8. lia. }
  rewrite Hq. destruct (Y =? 0) eqn:HY0; [|reflexivity].
  apply Z.eqb_eq in HY0. rewrite HY0. reflexivity.
Qed.

(** The months: the remainder, which is exact, rounded to the nearest
    whole. *)
Lemma exact_months :
  let R := (2 * (Zpos m mod (12 * S)) + S) / (2 * S) in
  Math_round (Number_rem b 12) = (if R =? 0 then zero else of_Z R) /\ 0 <= R <= 12.
Proof.
  pose proof scale_positive as HS.
  pose proof (mantissa_bounds m) as Hm53. rewrite Hd in Hm53.
  change (2 ^ (53 - 1)) with 4503599627370496 in Hm53.
  change (2 ^ 53) with 9007199254740992 in Hm53.
  pose proof (Z.mod_pos_bound (Zpos m) (12 * S) ltac:(lia)) as Hmod.
  set (rho := Zpos m mod (12 * S)) in *.
  intros R. subst R.
  assert (HR : 0 <= (2 * rho + S) / (2 * S) <= 12).
  { split; [apply Z.div_pos; lia|].
    apply Z.lt_succ_r. apply Z.div_lt_upper_bound; lia. }
  split; [|exact HR].
  unfold Number_rem. rewrite Hb.
  change (Prim2SF 12) with (S754_finite false 6755399441055744 (-49)).
  cbv iota beta.
  set (ez := Z.min e (-49)).
  assert (Hez : -1000 <= ez <= -49 /\ ez <= e) by (unfold ez; lia).
  assert (Hsc : 2 ^ (- ez) = S * 2 ^ (e - ez)).
  { unfold S. rewrite <- Z.pow_add_r by lia. f_equal. lia. }
  assert (Hsc0 : 0 < 2 ^ (e - ez)) by (apply Z.pow_pos_nonneg; lia).
  assert (HY : 6755399441055744 * 2 ^ (-49 - ez) = 12 * S * 2 ^ (e - ez)).
  { replace (12 * S * 2 ^ (e - ez)) with (12 * 2 ^ (- ez)) by (rewrite Hsc; ring).
    replace (- ez) with (49 + (-49 - ez)) by lia.
    rewrite Z.pow_add_r by lia. change (2 ^ 49) with 562949953421312. lia. }
  rewrite HY, Z.mul_mod_distr_r by lia. fold rho.
  destruct (Z.eq_dec rho 0) as [Hz|Hnz].
  - rewrite Hz, Z.mul_0_l. cbn [Z.eqb].
    replace ((2 * 0 + S) / (2 * S)) with 0 by (symmetry; apply Z.div_small; lia).
    reflexivity.
  - assert (Hr : 0 < rho * 2 ^ (e - ez)) by nia.
    replace (rho * 2 ^ (e - ez) =? 0) with false by (symmetry; apply Z.eqb_neq; lia).
    cbn [cond_Zopp].
    destruct (rho * 2 ^ (e - ez)) as [|r|r] eqn:Hreq; try lia.
    assert (Hr53 : Zpos r < 2 ^ 53).
    { change (2 ^ 53) with 9007199254740992. rewrite <- Hreq.
      destruct (Z.le_gt_cases e (-49)) as [Hle|Hgt].
      - replace (e - ez) with 0 by (unfold ez; lia). change (2 ^ 0) with 1.
        pose proof (Z.mod_le (Zpos m) (12 * S) ltac:(lia) ltac:(lia)) as Hrm.
        fold rho in Hrm. lia.
      - assert (Hez49 : ez = -49) by (unfold ez; lia).
        assert (12 * S * 2 ^ (e - ez) = 6755399441055744).
        { rewrite <- HY, Hez49. reflexivity. }
        nia. }
    pose proof (digits2_bound r Hr53) as Hdr.
    assert (Hdr0 : 0 < Zpos (digits2_pos r)) by lia.
    cbn [binary_normalize].
    replace r with (shlp r 0) at 1 by reflexivity.
    rewrite binary_round_shlp by lia.
    set (E := ez + Z.of_nat 0 + Zpos (digits2_pos r) - 53).
    unfold Math_round.
    rewrite Prim2SF_SF2Prim by (apply valid_53; [apply digits2_norm53; exact Hdr|unfold E; lia]).
    replace (0 <=? E) with false by (symmetry; apply Z.leb_gt; unfold E; lia).
    cbn [cond_Zopp]. rewrite norm53_Z by exact Hdr.
    set (T := 2 ^ (53 - Zpos (digits2_pos r))).
    assert (HT : 0 < T) by (apply Z.pow_pos_nonneg; lia).
    assert (H1 : 2 ^ (- E) = T * 2 ^ (- ez)).
    { unfold T, E. rewrite <- Z.pow_add_r by lia. f_equal. lia. }
    assert (H2 : 2 ^ (- E + 1) = T * (2 * 2 ^ (- ez))).
    { rewrite Z.pow_add_r by (unfold E; lia). rewrite H1. change (2 ^ 1) with 2. ring. }
    rewrite H1, H2.
    replace (Zpos r * T * 2 + T * 2 ^ (- ez)) with (T * (2 * Zpos r + 2 ^ (- ez))) by ring.
    rewrite Z.div_mul_cancel_l by lia.
    rewrite <- Hreq, Hsc.
    replace (2 * (rho * 2 ^ (e - ez)) + S * 2 ^ (e - ez)) with ((2 * rho + S) * 2 ^ (e - ez))
      by ring.
    replace (2 * (S * 2 ^ (e - ez))) with (2 * S * 2 ^ (e - ez)) by ring.
    rewrite Z.div_mul_cancel_r by lia.
    reflexivity.
Qed.

End From12.

Section LongPeriodFacts.
Context {JS : Host} {BR : Browser}.

Lemma string_app_assoc (a b c : string) : ((a ++ b) ++ c = a ++ (b ++ c))%string.
Proof. induction a as [|ch a IH]; cbn; [reflexivity|rewrite IH; reflexivity]. Qed.

Lemma counted_unit_of_Z k unit :
  0 <= k < 2 ^ 53 ->
  counted_unit (of_Z k) unit (unit ++ "s")%string = count_text k unit.
Proof.
  intros Hk. unfold counted_unit, count_text.
  rewrite Number_toString_of_Z by exact Hk.
  change 1%float with (of_Z 1).
  rewrite of_Z_eqb by (try assumption; change (2 ^ 53) with 9007199254740992; lia).
  destruct (Z.eqb_spec k 1) as [->|Hne]; reflexivity.
Qed.

Lemma break_even_period_from_12 b m e :
  (12 <=? b)%float = true -> (b <? 9007199254740992)%float = true ->
  Prim2SF b = S754_finite false m e ->
  let S := 2 ^ (- e) in
  let Y := Zpos m / (12 * S) in
  let R := (2 * (Zpos m mod (12 * S)) + S) / (2 * S) in
  (1 <= Y < 2 ^ 53 /\ 0 <= R <= 12) /\
  break_even_period (Some b) =
    ("You will break even in " ++ count_text Y "year"
     ++ (if (R =? 0)%Z then "" else " and " ++ count_text R "month") ++ ".")%string.
Proof.
  intros H1 H2 Hb S Y R.
  destruct (from_12_shape b H1 H2) as (m' & e' & Hb' & Hd & He & Hm).
  rewrite Hb in Hb'. injection Hb' as <- <-.
  pose proof (mantissa_bounds m) as Hm53. rewrite Hd in Hm53.
  change (2 ^ (53 - 1)) with 4503599627370496 in Hm53.
  change (2 ^ 53) with 9007199254740992 in Hm53.
  assert (HS : 1 <= S) by (unfold S; apply (Z.pow_le_mono_r 2 0); lia).
  destruct (exact_months b m e Hb Hd ltac:(lia)) as [Hmonths HR].
  fold S in Hmonths, HR. cbv zeta in Hmonths, HR. fold R in Hmonths, HR.
  assert (HY : 1 <= Y < 2 ^ 53).
  { unfold Y. split.
    - apply Z.div_le_lower_bound; lia.
    - apply Z.div_lt_upper_bound; [lia|]. change (2 ^ 53) with 9007199254740992. nia. }
  split; [split; assumption|].
  unfold break_even_period.
  rewrite (exact_years b m e Hb Hd ltac:(lia)). fold S Y. rewrite Hmonths.
  change 0%float with (of_Z 0) at 1 3.
  rewrite of_Z_ltb by (try assumption; change (2 ^ 53) with 9007199254740992; lia).
  replace (0 <? Y) with true by (symmetry; apply Z.ltb_lt; lia).
  cbn [andb].
  change "years"%string with ("year" ++ "s")%string.
  change "months"%string with ("month" ++ "s")%string.
  assert (HY0 : 0 <= Y < 2 ^ 53) by lia.
  destruct (R =? 0) eqn:HR0.
  - change (of_Z 0 <? zero)%float with false. cbv iota.
    rewrite counted_unit_of_Z by exact HY0. reflexivity.
  - apply Z.eqb_neq in HR0.
    change (0 <? of_Z R)%float with (of_Z 0 <? of_Z R)%float.
    rewrite of_Z_ltb by (change (2 ^ 53) with 9007199254740992; lia).
    replace (0 <? R) with true by (symmetry; apply Z.ltb_lt; lia).
    rewrite !counted_unit_of_Z by (try exact HY0; change (2 ^ 53) with 9007199254740992; lia).
    rewrite !string_app_assoc. reflexivity.
Qed.

End LongPeriodFacts.

End DisplayFacts.

(** * The claims *)

(** C1 (the claim as stated fails).  With the reference host the scenario
    loan takes 361 months, not 360: the payment, rounded down to 1798.65,
    leaves 1.44 after 360 payments, and a 361st pass clears it. *)
Lemma scenario_300k_takes_361_months :
  exists res,
    (forall fuel, (361 <= fuel)%nat ->
       calculateAmortization (JS:=RefHost.host) fuel 300000 6 30 0 0%Z = Returned res) /\
    monthsToPayoff res = 361 /\
    (monthsToPayoff res =? 360) = false /\
    map amounts (skipn 359 (schedule res)) =
      [(360, 8.96, 1789.69, 1.44); (361, 0.01, 1798.64, 0)].
Proof.
  destruct (run_300k (JS:=RefHost.host) pow_accurate_ref 0%Z)
    as (res & Hrun & Hm & _ & _ & _ & _ & _ & Hlast).
  exists res. split; [|split; [|split]].
  - intros fuel Hle. eapply calculateAmortization_more_fuel; eassumption.
  - exact Hm.
  - rewrite Hm. reflexivity.
  - exact Hlast.
Qed.

(** C1 (amended).  For principal 300000, annualRatePercent 6, termYears 30
    and no extra payment, with [Math.pow(1.005, 360)] within 256 units in the
    last place of the true power, [calculateAmortization] returns
    monthlyPayment 1798.65, monthsToPayoff 361, and a first schedule entry
    with interestPaid 1500.00 and principalPaid 298.65. *)
Theorem scenario_300k_amended {JS : Host} (startDate : Date) (fuel : nat) :
  In (Math_pow 1.005 360) (within_ulps 256 compound_360) ->
  (361 <= fuel)%nat ->
  exists res first rest,
    calculateAmortization fuel 300000 6 30 0 startDate = Returned res /\
    monthlyPayment res = 1798.65 /\
    monthsToPayoff res = 361 /\
    schedule res = first :: rest /\
    interestPaid first = 1500 /\
    principalPaid first = 298.65.
Proof.
  intros Hpow Hfuel.
  destruct (run_300k Hpow startDate) as (res & Hrun & Hm & Hp & _ & _ & _ & Hfirst & _).
  destruct (schedule res) as [|first rest] eqn:Hsch; [discriminate|].
  cbn in Hfirst. injection Hfirst as _ Hi Hpr _.
  exists res, first, rest. repeat split; try assumption.
  eapply calculateAmortization_more_fuel; eassumption.
Qed.

Lemma scenario_300k_amended_witness :
  In (Math_pow (Host:=RefHost.host) 1.005 360) (within_ulps 256 compound_360) /\
  (361 <= 361)%nat /\
  exists res first rest,
    calculateAmortization (JS:=RefHost.host) 361 300000 6 30 0 0%Z = Returned res /\
    monthlyPayment res = 1798.65 /\
    monthsToPayoff res = 361 /\
    schedule res = first :: rest /\
    interestPaid first = 1500 /\
    principalPaid first = 298.65.
Proof.
  split; [exact pow_accurate_ref|]. split; [apply le_n|].
  exact (scenario_300k_amended (JS:=RefHost.host) 0%Z 361 pow_accurate_ref (le_n 361)).
Defined.

(** C2 (the claim as stated fails).  A loan of 10.01 at a zero rate over one
    year with 9.17 extra a month is paid down to 0.01 in its first month;
    the loop stops there, below the cap of 24 months, and the last record
    shows a remaining balance of 0.01, not 0. *)
Lemma one_cent_left_at_payoff :
  exists res x,
    (forall fuel, (1 <= fuel)%nat ->
       calculateAmortization (JS:=RefHost.host) fuel 10.01 0 1 9.17 0%Z = Returned res) /\
    valid_input 10.01 0 1 9.17 = true /\
    monthsToPayoff res = 1 /\
    (monthsToPayoff res <? 1 * 12 * 2) = true /\
    schedule res = [x] /\
    remainingBalance x = 0.01 /\
    (remainingBalance x =? 0) = false.
Proof.
  destruct (run_one_cent_left (JS:=RefHost.host) 0%Z) as (res & x & Hrun & Hm & Hs & Hx).
  assert (Hrb : remainingBalance x = 0.01) by exact (f_equal snd Hx).
  exists res, x. repeat split; try assumption.
  - intros fuel Hle. eapply calculateAmortization_more_fuel; eassumption.
  - rewrite Hm. reflexivity.
  - rewrite Hrb. reflexivity.
Qed.

(** C2 (amended).  Whenever [calculateAmortization] returns with
    monthsToPayoff below 2 x totalMonths (the cap was not hit), the
    remainingBalance of the last schedule entry is not greater than 0.01,
    the balance at which the loop takes the loan as paid; it need not be 0. *)
Theorem last_balance_at_most_one_cent {JS : Host}
    (fuel : nat) (principal annualRate termYears extraMonthlyPayment : float)
    (startDate : Date) (res : AmortizationResult)
    (l : list PaymentRecord) (x : PaymentRecord) :
  calculateAmortization fuel principal annualRate termYears extraMonthlyPayment startDate
    = Returned res ->
  (monthsToPayoff res <? termYears * 12 * 2) = true ->
  schedule res = l ++ [x] ->
  (0.01 <? remainingBalance x) = false.
Proof.
  intros Hres Hlt Hsch.
  apply calculateAmortization_returned in Hres as (_ & s & Hrun & Hm & Hs & _).
  destruct (while_loop_invariant _ _ _ _ _ settled
              ltac:(intros s0 _ _; apply settled_body)
              _ _ _ (settled_initial principal) Hrun) as [Hset Hcond].
  rewrite Hs in Hsch. rewrite (Hset _ _ Hsch).
  unfold loop_cond in Hcond. rewrite <- Hm, Hlt, andb_true_r in Hcond. exact Hcond.
Qed.

Lemma last_balance_at_most_one_cent_witness :
  exists res l x,
    calculateAmortization (JS:=RefHost.host) 12 1200 0 1 0 0%Z = Returned res /\
    (monthsToPayoff res <? 1 * 12 * 2) = true /\
    schedule res = l ++ [x] /\
    (0.01 <? remainingBalance x) = false.
Proof.
  destruct (run_1200 (JS:=RefHost.host) 0%Z) as (res & Hrun & Hm & _ & Hlen).
  assert (Hlt : (monthsToPayoff res <? 1 * 12 * 2) = true) by (rewrite Hm; reflexivity).
  destruct (exists_last (l:=schedule res)) as (l & x & Hsch).
  { intros Hnil. rewrite Hnil in Hlen. discriminate. }
  exists res, l, x. repeat split; try assumption.
  exact (last_balance_at_most_one_cent (JS:=RefHost.host) 12 1200 0 1 0 0%Z res l x
           Hrun Hlt Hsch).
Defined.

(** C3.  [calculateAmortization] throws InvalidInput exactly when
    [principal <= 0 || annualRate < 0 || termYears <= 0 ||
    extraMonthlyPayment < 0]; it throws before the loop makes any pass (with
    no fuel at all), it throws nothing else, and a call that throws returns
    no result. *)
Theorem invalid_input_iff_throws {JS : Host}
    (fuel : nat) (principal annualRate termYears extraMonthlyPayment : float)
    (startDate : Date) :
  (calculateAmortization fuel principal annualRate termYears extraMonthlyPayment startDate
     = Threw InvalidInput
   <-> (principal <=? 0) || (annualRate <? 0) || (termYears <=? 0)
       || (extraMonthlyPayment <? 0) = true) /\
  (forall err,
     calculateAmortization fuel principal annualRate termYears extraMonthlyPayment startDate
       = Threw err ->
     err = InvalidInput /\
     calculateAmortization 0 principal annualRate termYears extraMonthlyPayment startDate
       = Threw err /\
     forall res,
       calculateAmortization fuel principal annualRate termYears extraMonthlyPayment startDate
         <> Returned res).
Proof.
  unfold calculateAmortization. fold (invalid_input principal annualRate termYears extraMonthlyPayment).
  destruct (invalid_input principal annualRate termYears extraMonthlyPayment) eqn:Hinv.
  - split; [tauto|]. intros [] _. repeat split. discriminate.
  - split.
    + split; [|discriminate].
      destruct (while_loop _ _ _ _ _ fuel _); discriminate.
    + intros err. destruct (while_loop _ _ _ _ _ fuel _); discriminate.
Qed.


(** C5.  On the scenario loan, raising the extra monthly payment from 0 to
    0.01 raises the returned totalInterestPaid from 345718.26 to 347500.74
    (monthsToPayoff goes from 361 down to 360): without the extra cent the
    361st payment overpays by about 1797, and the loop takes the overpayment
    off the interest total. *)
Theorem extra_cent_raises_total_interest {JS : Host} (startDate : Date) :
  In (Math_pow 1.005 360) (within_ulps 256 compound_360) ->
  exists res0 res1,
    calculateAmortization 361 300000 6 30 0 startDate = Returned res0 /\
    calculateAmortization 361 300000 6 30 0.01 startDate = Returned res1 /\
    (0 <? 0.01) = true /\
    totalInterestPaid res0 = 345718.26 /\
    totalInterestPaid res1 = 347500.74 /\
    (totalInterestPaid res0 <? totalInterestPaid res1) = true /\
    monthsToPayoff res0 = 361 /\
    monthsToPayoff res1 = 360 /\
    totalInterestSaved res0 = 1795.74.
Proof.
  intros Hpow.
  destruct (run_300k Hpow startDate) as (res0 & Hrun0 & Hm0 & _ & Hi0 & Hs0 & _).
  destruct (run_300k_extra_cent Hpow startDate) as (res1 & Hrun1 & Hm1 & Hi1 & _).
  exists res0, res1. rewrite Hi0, Hi1. repeat split; assumption.
Qed.

Lemma extra_cent_raises_total_interest_witness :
  In (Math_pow (Host:=RefHost.host) 1.005 360) (within_ulps 256 compound_360) /\
  exists res0 res1,
    calculateAmortization (JS:=RefHost.host) 361 300000 6 30 0 0%Z = Returned res0 /\
    calculateAmortization (JS:=RefHost.host) 361 300000 6 30 0.01 0%Z = Returned res1 /\
    (0 <? 0.01) = true /\
    totalInterestPaid res0 = 345718.26 /\
    totalInterestPaid res1 = 347500.74 /\
    (totalInterestPaid res0 <? totalInterestPaid res1) = true /\
    monthsToPayoff res0 = 361 /\
    monthsToPayoff res1 = 360 /\
    totalInterestSaved res0 = 1795.74.
Proof.
  split; [exact pow_accurate_ref|].
  exact (extra_cent_raises_total_interest (JS:=RefHost.host) 0%Z pow_accurate_ref).
Defined.

(** C6.  At a zero rate [calculateMonthlyPayment] returns
    [principal / totalMonths] as it is, not rounded to cents: for 100 over
    one year it returns 8.333333333333334, where rounding gives 8.33, which
    is what [calculateAmortization] takes as the payment of the same loan. *)
Theorem zero_rate_payment_not_rounded {JS : Host} :
  (forall principal termYears,
     (principal <=? 0) || (termYears <=? 0) = false ->
     calculateMonthlyPayment principal 0 termYears = principal / (termYears * 12)) /\
  calculateMonthlyPayment 100 0 1 = 8.333333333333334 /\
  round2 (calculateMonthlyPayment 100 0 1) = 8.33 /\
  (calculateMonthlyPayment 100 0 1 =? round2 (calculateMonthlyPayment 100 0 1)) = false /\
  standardPayment 100 0 1 = 8.33.
Proof.
  split.
  - intros p t Hok. unfold calculateMonthlyPayment. rewrite Hok. reflexivity.
  - repeat split; vm_compute; reflexivity.
Qed.




(** C8.  For every valid input, the schedule [calculateAmortization] returns
    has as many entries as the returned monthsToPayoff says, and its k-th
    entry (from 1) has paymentNumber k.  The counter is a double, exact up to
    2^53: the equalities hold for every returned schedule of at most 2^53
    entries, and a call whose 2 x totalMonths is at most 2^53 - 1 returns
    such a schedule. *)
Theorem schedule_numbered_from_one {JS : Host}
    (principal annualRate termYears extraMonthlyPayment : float) (startDate : Date) :
  valid_input principal annualRate termYears extraMonthlyPayment = true ->
  (forall fuel res,
     calculateAmortization fuel principal annualRate termYears extraMonthlyPayment
       startDate = Returned res ->
     (Z.of_nat (length (schedule res)) <= 2 ^ 53)%Z ->
     monthsToPayoff res = of_nat (length (schedule res)) /\
     forall k x, nth_error (schedule res) k = Some x -> paymentNumber x = of_nat (S k)) /\
  ((termYears * 12 * 2 <=? of_Z MAX_SAFE_INTEGER) = true ->
   exists res,
     (forall fuel, (Z.to_nat MAX_SAFE_INTEGER <= fuel)%nat ->
        calculateAmortization fuel principal annualRate termYears extraMonthlyPayment
          startDate = Returned res) /\
     (Z.of_nat (length (schedule res)) <= 2 ^ 53)%Z).
Proof.
  intros Hv. split.
  - intros fuel res Hres Hlen.
    destruct (calculateAmortization_counted _ _ _ _ _ _ _ Hres) as [Hm Hn]. split.
    + rewrite Hm. unfold of_nat. f_equal. lia.
    + intros k x Hk. rewrite (Hn k x Hk). unfold of_nat. f_equal.
      assert (k < length (schedule res))%nat by (apply nth_error_Some; congruence).
      lia.
  - intros Hcap.
    destruct (calculateAmortization_total principal annualRate termYears
                extraMonthlyPayment startDate Hv Hcap)
      as (res & Hrun & _ & _ & _ & Hlen).
    exists res. split; [exact Hrun|]. unfold MAX_SAFE_INTEGER in Hlen. lia.
Qed.

Lemma schedule_numbered_from_one_witness :
  valid_input 1200 0 1 0 = true /\
  (forall fuel res,
     calculateAmortization (JS:=RefHost.host) fuel 1200 0 1 0 0%Z = Returned res ->
     (Z.of_nat (length (schedule res)) <= 2 ^ 53)%Z ->
     monthsToPayoff res = of_nat (length (schedule res)) /\
     forall k x, nth_error (schedule res) k = Some x -> paymentNumber x = of_nat (S k)) /\
  ((1 * 12 * 2 <=? of_Z MAX_SAFE_INTEGER) = true ->
   exists res,
     (forall fuel, (Z.to_nat MAX_SAFE_INTEGER <= fuel)%nat ->
        calculateAmortization (JS:=RefHost.host) fuel 1200 0 1 0 0%Z = Returned res) /\
     (Z.of_nat (length (schedule res)) <= 2 ^ 53)%Z).
Proof.
  split; [reflexivity|].
  exact (schedule_numbered_from_one (JS:=RefHost.host) 1200 0 1 0 0%Z eq_refl).
Defined.

(** C9 (the claim as stated fails).  A principal of 0.01 is valid, and the
    loop, which runs while the balance is above 0.01, makes no pass: the call
    returns monthsToPayoff = 0 and an empty schedule. *)
Lemma one_cent_loan_has_no_payment :
  exists res,
    (forall fuel, calculateAmortization (JS:=RefHost.host) fuel 0.01 0 1 0 0%Z
                  = Returned res) /\
    valid_input 0.01 0 1 0 = true /\
    monthsToPayoff res = 0 /\
    (1 <=? monthsToPayoff res) = false /\
    schedule res = [].
Proof.
  destruct (run_one_cent_loan (JS:=RefHost.host) 0%Z) as (res & Hrun & Hm & Hs).
  exists res. split; [|split; [|split; [|split]]].
  - intros fuel. eapply calculateAmortization_more_fuel; [eassumption|apply Nat.le_0_l].
  - reflexivity.
  - exact Hm.
  - rewrite Hm. reflexivity.
  - exact Hs.
Qed.

(** C9 (amended).  For every valid input with a principal above 0.01, the
    monthsToPayoff that [calculateAmortization] returns is the double of an
    integer that is at least 1, and the returned schedule is not empty. *)
Theorem payoff_takes_a_month {JS : Host}
    (fuel : nat) (principal annualRate termYears extraMonthlyPayment : float)
    (startDate : Date) (res : AmortizationResult) :
  valid_input principal annualRate termYears extraMonthlyPayment = true ->
  (0.01 <? principal) = true ->
  calculateAmortization fuel principal annualRate termYears extraMonthlyPayment startDate
    = Returned res ->
  (exists m, (1 <= m)%Z /\ monthsToPayoff res = of_Z m) /\
  schedule res <> [].
Proof.
  intros Hv Hp Hres.
  assert (Ht : (0 <? termYears) = true).
  { unfold valid_input in Hv. apply andb_prop in Hv as [Hv _].
    apply andb_prop in Hv as [_ Ht]. exact Ht. }
  pose proof (calculateAmortization_first_pass _ _ _ _ _ _ _ Hp Ht Hres) as Hne.
  destruct (calculateAmortization_counted _ _ _ _ _ _ _ Hres) as [Hm _].
  split; [|exact Hne].
  exists (Z.min (Z.of_nat (length (schedule res))) (2 ^ 53)). split; [|exact Hm].
  destruct (schedule res); [contradiction|]. cbn [length]. lia.
Qed.

Lemma payoff_takes_a_month_witness :
  exists res,
    valid_input 1200 0 1 0 = true /\
    (0.01 <? 1200) = true /\
    calculateAmortization (JS:=RefHost.host) 12 1200 0 1 0 0%Z = Returned res /\
    (exists m, (1 <= m)%Z /\ monthsToPayoff res = of_Z m) /\
    schedule res <> [].
Proof.
  destruct (run_1200 (JS:=RefHost.host) 0%Z) as (res & Hrun & _).
  exists res. split; [reflexivity|]. split; [reflexivity|]. split; [exact Hrun|].
  exact (payoff_takes_a_month (JS:=RefHost.host) 12 1200 0 1 0 0%Z res
           eq_refl eq_refl Hrun).
Defined.

(** C10.  The record of a month is not adjusted for an overpayment.  Every
    record of a returned schedule, the overpaying month's too, shows as
    interestPaid the whole [balance * monthlyRate] and as principalPaid the
    whole [monthlyPayment - interest + extraMonthlyPayment], each rounded to
    2 decimals, for the balance the record before it left.  In a month whose
    payment takes the balance below 0 that principal portion exceeds the
    balance owed, and only the running interest total
    (lowered by the overpayment, not below 0) and the recorded balance (put to
    0) are corrected.  So the interestPaid of the records can add up to more
    than the returned totalInterestPaid: on the scenario loan the 361st
    record shows 1798.64 of principal paid against the 1.44 that was owed,
    and the records hold 347515.45 of interest against a returned total of
    345718.26. *)
Theorem overpayment_not_in_record {JS : Host} :
  (forall fuel principal annualRate termYears extraMonthlyPayment startDate res,
     calculateAmortization fuel principal annualRate termYears extraMonthlyPayment
       startDate = Returned res ->
     ledger (annualRate / 100 / 12) (standardPayment principal annualRate termYears)
       extraMonthlyPayment principal (schedule res)) /\
  (forall monthlyRate monthlyPayment extraMonthlyPayment baseDate s,
     let balance := st_balance s in
     let newBalance :=
       balance - ((monthlyPayment - balance * monthlyRate) + extraMonthlyPayment) in
     let s' := loop_body monthlyRate monthlyPayment extraMonthlyPayment baseDate s in
     (newBalance <? 0) = true ->
     (balance <? (monthlyPayment - balance * monthlyRate) + extraMonthlyPayment) = true /\
     exists x,
       st_schedule s' = st_schedule s ++ [x] /\
       interestPaid x = round2 (balance * monthlyRate) /\
       principalPaid x =
         round2 ((monthlyPayment - balance * monthlyRate) + extraMonthlyPayment) /\
       remainingBalance x = round2 0 /\
       st_totalInterestPaid s' =
         Math_max 0 ((st_totalInterestPaid s + balance * monthlyRate)
                     - Math_abs newBalance)) /\
  (forall startDate,
     In (Math_pow 1.005 360) (within_ulps 256 compound_360) ->
     exists res,
       calculateAmortization 361 300000 6 30 0 startDate = Returned res /\
       map amounts (skipn 359 (schedule res)) =
         [(360, 8.96, 1789.69, 1.44); (361, 0.01, 1798.64, 0)] /\
       (1.44 <? 1798.64) = true /\
       sum_interestPaid (schedule res) = 347515.45000000024 /\
       totalInterestPaid res = 345718.26 /\
       (totalInterestPaid res <? sum_interestPaid (schedule res)) = true).
Proof.
  split; [|split].
  - intros fuel p r t e d res Hres. exact (calculateAmortization_ledger _ _ _ _ _ _ _ Hres).
  - intros mr mp ex bd s balance newBalance s' Hover.
    destruct (body_schedule mr mp ex bd s) as (x & Hsch & _ & Hi & Hp & Hr & _).
    destruct (body_overpayment mr mp ex bd s Hover) as [Htip _].
    split; [exact (FloatFacts.sub_negative _ _ Hover)|].
    exists x. repeat split; try assumption.
    rewrite Hr. unfold month_remaining. fold balance.
    change (month_balance mr mp ex balance) with newBalance. rewrite Hover. reflexivity.
  - intros d Hpow.
    destruct (run_300k Hpow d) as (res & Hrun & _ & _ & Hi & _ & Hsum & _ & Hlast).
    exists res. rewrite Hsum, Hi. repeat split; assumption.
Qed.

Lemma overpayment_not_in_record_witness :
  In (Math_pow (Host:=RefHost.host) 1.005 360) (within_ulps 256 compound_360) /\
  exists res,
    calculateAmortization (JS:=RefHost.host) 361 300000 6 30 0 0%Z = Returned res /\
    map amounts (skipn 359 (schedule res)) =
      [(360, 8.96, 1789.69, 1.44); (361, 0.01, 1798.64, 0)] /\
    (1.44 <? 1798.64) = true /\
    sum_interestPaid (schedule res) = 347515.45000000024 /\
    totalInterestPaid res = 345718.26 /\
    (totalInterestPaid res <? sum_interestPaid (schedule res)) = true.
Proof.
  split; [exact pow_accurate_ref|].
  exact (proj2 (proj2 (overpayment_not_in_record (JS:=RefHost.host))) 0%Z pow_accurate_ref).
Defined.

(** * Further properties of the amortization engine *)

(** X1.  In a schedule that [calculateAmortization] returns, every record
    but the last shows a remaining balance above 0.01: the loan is not paid
    off before its last record. *)
Theorem balance_open_before_last_record {JS : Host}
    (fuel : nat) (principal annualRate termYears extraMonthlyPayment : float)
    (startDate : Date) (res : AmortizationResult) (k : nat) (x : PaymentRecord) :
  calculateAmortization fuel principal annualRate termYears extraMonthlyPayment startDate
    = Returned res ->
  nth_error (schedule res) k = Some x ->
  (S k < length (schedule res))%nat ->
  (0.01 <? remainingBalance x) = true.
Proof.
  apply calculateAmortization_open.
Qed.

Lemma balance_open_before_last_record_witness :
  exists res x,
    calculateAmortization (JS:=RefHost.host) 12 1200 0 1 0 0%Z = Returned res /\
    nth_error (schedule res) 0 = Some x /\
    (1 < length (schedule res))%nat /\
    (0.01 <? remainingBalance x) = true.
Proof.
  destruct (run_1200_first (JS:=RefHost.host) 0%Z) as (res & x & Hrun & Hx & Hlen).
  assert (Hlt : (1 < length (schedule res))%nat) by (rewrite Hlen; lia).
  exists res, x. repeat split; try assumption.
  exact (balance_open_before_last_record (JS:=RefHost.host) 12 1200 0 1 0 0%Z res 0 x
           Hrun Hx Hlt).
Defined.

(** X2.  Only the last month of a returned schedule can overpay: if the
    payment of the record at index [k] takes the balance the record before
    it left below 0, that record is the last one and shows a remaining
    balance of 0. *)
Theorem overpayment_only_in_last_month {JS : Host}
    (fuel : nat) (principal annualRate termYears extraMonthlyPayment : float)
    (startDate : Date) (res : AmortizationResult) (k : nat) (x : PaymentRecord) :
  calculateAmortization fuel principal annualRate termYears extraMonthlyPayment startDate
    = Returned res ->
  nth_error (schedule res) k = Some x ->
  (month_balance (annualRate / 100 / 12) (standardPayment principal annualRate termYears)
     extraMonthlyPayment (opening principal (schedule res) k) <? 0) = true ->
  S k = length (schedule res) /\ remainingBalance x = 0.
Proof.
  intros Hres Hk Hover.
  pose proof (calculateAmortization_ledger _ _ _ _ _ _ _ Hres) as Hl.
  destruct (ledger_nth _ _ _ _ _ _ _ Hl Hk) as (_ & _ & Hr).
  unfold month_remaining in Hr. rewrite Hover in Hr.
  change (round2 0) with 0%float in Hr.
  split; [|exact Hr].
  assert (Hlen : (k < length (schedule res))%nat)
    by (apply nth_error_Some; rewrite Hk; discriminate).
  destruct (Nat.eq_dec (S k) (length (schedule res))) as [Heq|Hne]; [exact Heq|].
  assert (Hopen : (0.01 <? remainingBalance x) = true).
  { apply (calculateAmortization_open _ _ _ _ _ _ _ _ _ Hres Hk). lia. }
  rewrite Hr in Hopen. discriminate.
Qed.

Lemma overpayment_only_in_last_month_witness :
  exists res x,
    calculateAmortization (JS:=RefHost.host) 1 1000 0 0.01 0 0%Z = Returned res /\
    nth_error (schedule res) 0 = Some x /\
    1%nat = length (schedule res) /\
    remainingBalance x = 0.
Proof.
  destruct (run_fractional_term_overpays (JS:=RefHost.host) 0%Z)
    as (res & x & Hrun & Hx & Hover).
  exists res, x. split; [exact Hrun|]. split; [exact Hx|].
  exact (overpayment_only_in_last_month (JS:=RefHost.host) 1 1000 0 0.01 0 0%Z res 0 x
           Hrun Hx Hover).
Defined.

(** X3.  The record at index [k] of a returned schedule is dated [k + 1]
    months ([setMonth(getMonth() + paymentNumber)]) after the first day of
    the month of the start date, for every schedule of at most 2^53
    records. *)
Theorem record_dated_by_payment_number {JS : Host}
    (fuel : nat) (principal annualRate termYears extraMonthlyPayment : float)
    (startDate : Date) (res : AmortizationResult) (k : nat) (x : PaymentRecord) :
  calculateAmortization fuel principal annualRate termYears extraMonthlyPayment startDate
    = Returned res ->
  (Z.of_nat (length (schedule res)) <= 2 ^ 53)%Z ->
  nth_error (schedule res) k = Some x ->
  date x = Date_addMonths (Date_firstOfMonth startDate) (of_nat (S k)).
Proof.
  intros Hres Hlen Hk.
  destruct (calculateAmortization_final _ _ _ _ _ _ _ Hres)
    as (s & Hs & _ & _ & _ & Hd & _).
  destruct (calculateAmortization_counted _ _ _ _ _ _ _ Hres) as [_ Hnum].
  rewrite (Hd x) by (rewrite <- Hs; eapply nth_error_In; exact Hk).
  rewrite (Hnum k x Hk). unfold of_nat. f_equal. f_equal.
  assert (k < length (schedule res))%nat by (apply nth_error_Some; rewrite Hk; discriminate).
  lia.
Qed.

Lemma record_dated_by_payment_number_witness :
  exists res x,
    calculateAmortization (JS:=RefHost.host) 12 1200 0 1 0 7%Z = Returned res /\
    (Z.of_nat (length (schedule res)) <= 2 ^ 53)%Z /\
    nth_error (schedule res) 0 = Some x /\
    date x = 8%Z.
Proof.
  destruct (run_1200_first (JS:=RefHost.host) 7%Z) as (res & x & Hrun & Hx & Hlen).
  assert (Hle : (Z.of_nat (length (schedule res)) <= 2 ^ 53)%Z) by (rewrite Hlen; lia).
  exists res, x. repeat split; try assumption.
  exact (record_dated_by_payment_number (JS:=RefHost.host) 12 1200 0 1 0 7%Z res 0 x
           Hrun Hle Hx).
Defined.

(** X4.  Nothing [calculateAmortization] returns as interest or balance is
    negative: neither totalInterestPaid, nor totalInterestSaved, nor the
    interestPaid or the remainingBalance of any record is below 0 (each may
    be NaN, which a principal that is not a number gives). *)
Theorem interest_and_balances_never_negative {JS : Host}
    (fuel : nat) (principal annualRate termYears extraMonthlyPayment : float)
    (startDate : Date) (res : AmortizationResult) :
  calculateAmortization fuel principal annualRate termYears extraMonthlyPayment startDate
    = Returned res ->
  (totalInterestPaid res <? 0) = false /\
  (totalInterestSaved res <? 0) = false /\
  forall x, In x (schedule res) ->
    (interestPaid x <? 0) = false /\ (remainingBalance x <? 0) = false.
Proof.
  intros Hres.
  destruct (calculateAmortization_final _ _ _ _ _ _ _ Hres)
    as (s & Hs & Ht & _ & _ & _ & (_ & Hi & Ha) & _).
  split; [|split].
  - rewrite Ht. apply FloatSigns.round2_not_negative. exact Hi.
  - rewrite (calculateAmortization_saved _ _ _ _ _ _ _ Hres).
    apply FloatSigns.round2_not_negative. apply FloatSigns.Math_max_0_not_negative.
  - rewrite Hs. exact Ha.
Qed.

Lemma interest_and_balances_never_negative_witness :
  exists res,
    calculateAmortization (JS:=RefHost.host) 12 1200 0 1 0 0%Z = Returned res /\
    (totalInterestPaid res <? 0) = false /\
    (totalInterestSaved res <? 0) = false /\
    forall x, In x (schedule res) ->
      (interestPaid x <? 0) = false /\ (remainingBalance x <? 0) = false.
Proof.
  destruct (run_1200 (JS:=RefHost.host) 0%Z) as (res & Hrun & _).
  exists res. split; [exact Hrun|].
  exact (interest_and_balances_never_negative (JS:=RefHost.host) 12 1200 0 1 0 0%Z res Hrun).
Defined.

(** X5.  The start date decides the dates of the records and nothing else:
    with another start date the call returns the same monthsToPayoff,
    totalInterestPaid, totalInterestSaved and monthlyPayment, and records
    with the same payment numbers and amounts. *)
Theorem start_date_changes_only_dates {JS : Host}
    (fuel : nat) (principal annualRate termYears extraMonthlyPayment : float)
    (startDate startDate' : Date) (res : AmortizationResult) :
  calculateAmortization fuel principal annualRate termYears extraMonthlyPayment startDate
    = Returned res ->
  exists res',
    calculateAmortization fuel principal annualRate termYears extraMonthlyPayment startDate'
      = Returned res' /\
    monthsToPayoff res' = monthsToPayoff res /\
    totalInterestPaid res' = totalInterestPaid res /\
    totalInterestSaved res' = totalInterestSaved res /\
    monthlyPayment res' = monthlyPayment res /\
    map amounts (schedule res') = map amounts (schedule res).
Proof.
  unfold calculateAmortization.
  destruct (invalid_input principal annualRate termYears extraMonthlyPayment);
    [discriminate|].
  fold (initial principal).
  destruct (while_loop _ _ _ _ (Date_firstOfMonth startDate) fuel (initial principal))
    as [s|] eqn:Hrun; [|discriminate].
  intros [= <-].
  destruct (while_loop_same_amounts _ _ _ _ _ (Date_firstOfMonth startDate') fuel
              (initial principal) (initial principal) s
              (conj eq_refl (conj eq_refl (conj eq_refl eq_refl))) Hrun)
    as (s' & -> & Hb & Hi & Hm & Hl).
  eexists. split; [reflexivity|]. cbn. rewrite Hi.
  repeat split; auto.
Qed.

Lemma start_date_changes_only_dates_witness :
  exists res res',
    calculateAmortization (JS:=RefHost.host) 12 1200 0 1 0 0%Z = Returned res /\
    calculateAmortization (JS:=RefHost.host) 12 1200 0 1 0 31%Z = Returned res' /\
    monthsToPayoff res' = monthsToPayoff res /\
    totalInterestPaid res' = totalInterestPaid res /\
    totalInterestSaved res' = totalInterestSaved res /\
    monthlyPayment res' = monthlyPayment res /\
    map amounts (schedule res') = map amounts (schedule res).
Proof.
  destruct (run_1200 (JS:=RefHost.host) 0%Z) as (res & Hrun & _).
  destruct (start_date_changes_only_dates (JS:=RefHost.host) 12 1200 0 1 0 0%Z 31%Z res Hrun)
    as (res' & Hrun' & H).
  exists res, res'. split; [exact Hrun|]. split; [exact Hrun'|exact H].
Defined.

(** X6.  A call that returns has an empty schedule exactly when the loop
    makes no pass: when the principal is not above 0.01 or the term is not
    above 0 (a principal or a term that is not a number passes the
    validation).  Then monthsToPayoff and totalInterestPaid are 0. *)
Theorem schedule_empty_iff_no_pass {JS : Host}
    (fuel : nat) (principal annualRate termYears extraMonthlyPayment : float)
    (startDate : Date) (res : AmortizationResult) :
  calculateAmortization fuel principal annualRate termYears extraMonthlyPayment startDate
    = Returned res ->
  (schedule res = [] <-> (0.01 <? principal) && (0 <? termYears) = false) /\
  (schedule res = [] -> monthsToPayoff res = 0 /\ totalInterestPaid res = 0).
Proof.
  intros Hres.
  assert (Hiff : schedule res = [] <-> (0.01 <? principal) && (0 <? termYears) = false).
  { split.
    - intros Hnil. destruct (0.01 <? principal) eqn:Hp; [|reflexivity].
      destruct (0 <? termYears) eqn:Ht; [|reflexivity].
      destruct (calculateAmortization_first_pass _ _ _ _ _ _ _ Hp Ht Hres Hnil).
    - intros Hno. apply (calculateAmortization_no_pass _ _ _ _ _ _ _ Hno Hres). }
  split; [exact Hiff|].
  intros Hnil. apply Hiff in Hnil.
  apply (calculateAmortization_no_pass _ _ _ _ _ _ _ Hnil Hres).
Qed.

Lemma schedule_empty_iff_no_pass_witness :
  exists res,
    calculateAmortization (JS:=RefHost.host) 0 nan 0 1 0 0%Z = Returned res /\
    (schedule res = [] <-> (0.01 <? nan) && (0 <? 1) = false) /\
    (schedule res = [] -> monthsToPayoff res = 0 /\ totalInterestPaid res = 0).
Proof.
  destruct (run_nan_principal (JS:=RefHost.host) 0%Z) as (res & Hrun).
  exists res. split; [exact Hrun|].
  exact (schedule_empty_iff_no_pass (JS:=RefHost.host) 0 nan 0 1 0 0%Z res Hrun).
Defined.

(** X7.  The monthlyPayment that [calculateAmortization] returns is the
    payment [calculateMonthlyPayment] computes for the same loan when the
    monthly rate is not zero; at a zero rate it is that payment rounded to 2
    decimals. *)
Theorem engine_payment_is_calculateMonthlyPayment {JS : Host}
    (fuel : nat) (principal annualRate termYears extraMonthlyPayment : float)
    (startDate : Date) (res : AmortizationResult) :
  calculateAmortization fuel principal annualRate termYears extraMonthlyPayment startDate
    = Returned res ->
  monthlyPayment res =
    if annualRate / 100 / 12 =? 0
    then round2 (calculateMonthlyPayment principal annualRate termYears)
    else calculateMonthlyPayment principal annualRate termYears.
Proof.
  intros Hres.
  destruct (calculateAmortization_returned _ _ _ _ _ _ _ Hres) as (Hok & s & _ & _ & _ & -> & _).
  destruct (accepted_parts _ _ _ _ Hok) as (Hp & _ & Ht & _).
  unfold standardPayment, calculateMonthlyPayment. rewrite Hp, Ht. cbn [orb].
  destruct (annualRate / 100 / 12 =? 0); reflexivity.
Qed.

Lemma engine_payment_is_calculateMonthlyPayment_witness :
  exists res,
    calculateAmortization (JS:=RefHost.host) 12 1200 0 1 0 0%Z = Returned res /\
    monthlyPayment res =
      if 0 / 100 / 12 =? 0
      then round2 (calculateMonthlyPayment (JS:=RefHost.host) 1200 0 1)
      else calculateMonthlyPayment (JS:=RefHost.host) 1200 0 1.
Proof.
  destruct (run_1200 (JS:=RefHost.host) 0%Z) as (res & Hrun & _).
  exists res. split; [exact Hrun|].
  exact (engine_payment_is_calculateMonthlyPayment (JS:=RefHost.host)
           12 1200 0 1 0 0%Z res Hrun).
Defined.

(** * Further properties of the refinance analysis *)

(** X8.  [calculateRefinanceBreakEven] reports [isValid = true] exactly
    when the new payment is below the original one, or the difference of
    the two is not a number (an original payment that is NaN passes the
    validation); it gives a break-even month count in exactly those cases,
    and never a totalSavingsOverRemainingTerm. *)
Theorem refinance_valid_iff_payment_lower
    (originalMonthlyPayment newMonthlyPayment closingCosts : float)
    (res : RefinanceBreakEven) :
  calculateRefinanceBreakEven originalMonthlyPayment newMonthlyPayment closingCosts
    = Returned res ->
  let savings := originalMonthlyPayment - newMonthlyPayment in
  (isValid res = true <->
     (newMonthlyPayment <? originalMonthlyPayment) = true \/ (savings =? savings) = false) /\
  (isValid res = true <-> exists b, breakEvenMonths res = Some b) /\
  totalSavingsOverRemainingTerm res = None.
Proof.
  intros Hres savings.
  destruct (calculateRefinanceBreakEven_returned _ _ _ _ Hres)
    as (_ & _ & _ & [[Hs ->]|[Hs ->]]); fold savings in Hs; cbn;
    (split; [|split; [|reflexivity]]).
  - split; [discriminate|]. intros H. exfalso.
    assert (Hn : (savings <=? 0) = false).
    { apply FloatSigns.not_leb_zero. unfold savings. rewrite FloatSigns.sub_positive.
      destruct H as [H|H]; [left; exact H|right; apply FloatSigns.nan_spec; exact H]. }
    congruence.
  - split; [discriminate|]. intros [b Hb]. discriminate.
  - split; [|reflexivity]. intros _.
    apply FloatSigns.not_leb_zero in Hs. unfold savings in Hs.
    rewrite FloatSigns.sub_positive in Hs.
    destruct Hs as [H|H]; [left; exact H|right; apply FloatSigns.nan_spec; exact H].
  - split; [eauto|reflexivity].
Qed.

Lemma refinance_valid_iff_payment_lower_witness :
  exists res,
    calculateRefinanceBreakEven nan 1700 3000 = Returned res /\
    (isValid res = true <-> (1700 <? nan) = true \/ (nan - 1700 =? nan - 1700) = false) /\
    (isValid res = true <-> exists b, breakEvenMonths res = Some b) /\
    totalSavingsOverRemainingTerm res = None.
Proof.
  eexists. split; [vm_compute; reflexivity|].
  exact (refinance_valid_iff_payment_lower nan 1700 3000 _ eq_refl).
Defined.

(** X9.  The break-even month count that [calculateRefinanceBreakEven]
    returns is never negative, and neither are the monthly savings of a
    result it reports as valid. *)
Theorem break_even_never_negative
    (originalMonthlyPayment newMonthlyPayment closingCosts : float)
    (res : RefinanceBreakEven) :
  calculateRefinanceBreakEven originalMonthlyPayment newMonthlyPayment closingCosts
    = Returned res ->
  (forall b, breakEvenMonths res = Some b -> (b <? 0) = false) /\
  (isValid res = true -> (monthlySavings res <? 0) = false).
Proof.
  intros Hres.
  destruct (calculateRefinanceBreakEven_returned _ _ _ _ Hres)
    as (_ & _ & Hc & [[Hs ->]|[Hs ->]]); cbn; split; try discriminate.
  - intros b [= <-]. apply FloatSigns.round2_not_negative.
    apply FloatSigns.div_not_negative; assumption.
  - intros _. apply FloatSigns.round2_not_negative.
    destruct (originalMonthlyPayment - newMonthlyPayment <? 0) eqn:Hlt; [|reflexivity].
    rewrite (FloatSigns.ltb_leb _ _ Hlt) in Hs. discriminate.
Qed.

Lemma break_even_never_negative_witness :
  exists res,
    calculateRefinanceBreakEven 2000 1700 3000 = Returned res /\
    (forall b, breakEvenMonths res = Some b -> (b <? 0) = false) /\
    (isValid res = true -> (monthlySavings res <? 0) = false).
Proof.
  eexists. split; [vm_compute; reflexivity|].
  exact (break_even_never_negative 2000 1700 3000 _ eq_refl).
Defined.

(** * Further properties of the presentation layer *)

(** X10.  For a whole number of months [n] below 2^53, [formatPayoffTime]
    returns the text of [n div 12] years and [n mod 12] months: the months
    alone when there is no full year, the years alone when no month is
    left, both joined by "and" otherwise, each with "1 year" / "1 month" in
    the singular. *)
Theorem formatPayoffTime_whole_months {JS : Host} {BR : Browser} (n : Z) :
  (0 <= n < 2 ^ 53)%Z ->
  formatPayoffTime (of_Z n) = payoff_text n.
Proof. apply DisplayFacts.formatPayoffTime_of_Z. Qed.

Lemma formatPayoffTime_whole_months_witness :
  (0 <= 361 < 2 ^ 53)%Z /\
  formatPayoffTime (JS:=RefHost.host) (BR:=RefBrowser.browser) (of_Z 361)
    = "30 years and 1 month"%string.
Proof.
  split; [lia|].
  exact (formatPayoffTime_whole_months (JS:=RefHost.host) (BR:=RefBrowser.browser) 361
           ltac:(lia)).
Defined.

(** X11.  [populateAmortizationTable] appends one row of five cells per
    record, in the order of the schedule.  A schedule of more than 5
    records gets exactly one native ad row, for which one object is pushed
    to [adsbygoogle]: before the eleventh record when there are more than
    20 records, before the record in the middle otherwise, so never as the
    first or the last row.  A schedule of 5 records or fewer gets no ad. *)
Theorem table_rows_and_native_ad {JS : Host} {BR : Browser}
    (st : Currency) (schedule : list PaymentRecord) :
  (Z.of_nat (List.length schedule) < 2 ^ 53)%Z ->
  let n := List.length schedule in
  let position := if (20 <? n)%nat then 10%nat else (n / 2)%nat in
  let tb := populateAmortizationTable st schedule in
  ((n <= 5)%nat ->
   tableRows tb = map (paymentRow st) schedule /\ adsPushed tb = 0%nat) /\
  ((5 < n)%nat ->
   tableRows tb = map (paymentRow st) (firstn position schedule)
                    ++ NativeAdRow :: map (paymentRow st) (skipn position schedule) /\
   adsPushed tb = 1%nat /\ (3 <= position < n)%nat).
Proof. apply DisplayFacts.populateAmortizationTable_rows. Qed.

Lemma table_rows_and_native_ad_witness :
  exists res,
    calculateAmortization (JS:=RefHost.host) 12 1200 0 1 0 0%Z = Returned res /\
    (Z.of_nat (List.length (schedule res)) < 2 ^ 53)%Z /\
    let tb := populateAmortizationTable (BR:=RefBrowser.browser)
                (Currency_initial []) (schedule res) in
    tableRows tb
      = map (paymentRow (BR:=RefBrowser.browser) (Currency_initial []))
            (firstn 6 (schedule res))
          ++ NativeAdRow :: map (paymentRow (BR:=RefBrowser.browser) (Currency_initial []))
                              (skipn 6 (schedule res)) /\
    adsPushed tb = 1%nat.
Proof.
  destruct (run_1200 (JS:=RefHost.host) 0%Z) as (res & Hrun & _ & _ & Hlen).
  assert (Hlt : (Z.of_nat (List.length (schedule res)) < 2 ^ 53)%Z) by (rewrite Hlen; lia).
  exists res. split; [exact Hrun|]. split; [exact Hlt|].
  destruct (table_rows_and_native_ad (JS:=RefHost.host) (BR:=RefBrowser.browser)
              (Currency_initial []) (schedule res) Hlt) as [_ Had].
  rewrite Hlen in Had. destruct (Had ltac:(lia)) as (Hrows & Hpush & _).
  split; assumption.
Defined.

(** X12.  For a valid break-even result of at least 0.01 and less than 12
    months, [displayRefinanceResults] writes "You will break even in"
    followed by a count of days, [Math.round(breakEvenMonths * 30)], only
    when the break-even months are below 0.5; from 0.5 on it writes the
    months rounded to the nearest whole, which is between 1 and 12: never
    years, and "12 months" from 11.5 on. *)
Theorem break_even_text_below_a_year {JS : Host} {BR : Browser}
    (has_savings has_newPayment : bool) (st : Currency)
    (breakEvenResult : RefinanceBreakEven) (newMonthlyPayment b : float) :
  isValid breakEvenResult = true ->
  (monthlySavings breakEvenResult <=? 0) = false ->
  breakEvenMonths breakEvenResult = Some b ->
  (0.01 <=? b) = true -> (b <? 12) = true ->
  exists view,
    displayRefinanceResults true true has_savings has_newPayment st breakEvenResult
      newMonthlyPayment = Some view /\
    highlighted view = true /\
    breakEvenText view =
      ("You will break even in "
       ++ (if (b <? 0.5)%float
           then counted_unit (Math_round (b * 30)) "day" "days"
           else counted_unit (Math_round b) "month" "months")
       ++ ".")%string /\
    ((b <? 0.5) = false -> exists k, (1 <= k <= 12)%Z /\ Math_round b = of_Z k).
Proof.
  intros Hv Hs Hb H1 H2.
  destruct (DisplayFacts.break_even_period_below_12 b H1 H2) as [Htext Hk].
  unfold displayRefinanceResults. rewrite Hv, Hs, Hb. cbn [negb orb].
  eexists. split; [reflexivity|]. cbn [highlighted breakEvenText].
  split; [reflexivity|]. split; [exact Htext|exact Hk].
Qed.

Lemma break_even_text_below_a_year_witness :
  exists view,
    displayRefinanceResults (JS:=RefHost.host) (BR:=RefBrowser.browser)
      true true true true (Currency_initial [])
      {| breakEvenMonths := Some 11.6; monthlySavings := 100;
         totalSavingsOverRemainingTerm := None; isValid := true |} 1700 = Some view /\
    breakEvenText view = "You will break even in 12 months."%string.
Proof.
  destruct (break_even_text_below_a_year (JS:=RefHost.host) (BR:=RefBrowser.browser)
              true true (Currency_initial [])
              {| breakEvenMonths := Some 11.6; monthlySavings := 100;
                 totalSavingsOverRemainingTerm := None; isValid := true |} 1700 11.6
              eq_refl eq_refl eq_refl eq_refl eq_refl)
    as (view & Hview & _ & Htext & _).
  exists view. split; [exact Hview|]. rewrite Htext. vm_compute. reflexivity.
Defined.

(** X13.  Whatever values the currency selector takes, one after the
    other, as long as none of them names a property that every object
    inherits, [currentLocale] stays a key of [currencyMap] and
    [currentCurrency] the currency code of that key: [formatCurrency]
    is never given a locale and a currency that do not belong together.
    A value that is not in the map, or a page without the selector, leaves
    the state as it is. *)
Theorem currency_follows_locale {JS : Host} {BR : Browser}
    (selections : list (option string)) (spans : list (option string)) :
  (forall value, In (Some value) selections -> currencyMap_get value <> Inherited) ->
  let st := fold_left (fun st selector => updateCurrencyDisplay selector st) selections
              (Currency_initial spans) in
  exists info,
    In (currentLocale st, info) currencyMap /\
    currentCurrency st = Some (currency info) /\
    forall amount,
      formatCurrency st amount None None
        = Intl_format_currency (currentLocale st) (Some (currency info)) amount.
Proof.
  intros Hsel st. subst st.
  assert (Hgen : forall st0,
            (exists info, In (currentLocale st0, info) currencyMap /\
                          currentCurrency st0 = Some (currency info)) ->
            exists info,
              In (currentLocale (fold_left (fun st selector => updateCurrencyDisplay selector st)
                                   selections st0), info) currencyMap /\
              currentCurrency (fold_left (fun st selector => updateCurrencyDisplay selector st)
                                 selections st0) = Some (currency info)).
  { induction selections as [|selector l IH]; intros st0 Hst0; [exact Hst0|].
    cbn [fold_left]. apply IH.
    - intros value Hin. apply Hsel. right. exact Hin.
    - destruct selector as [value|]; [|exact Hst0].
      unfold updateCurrencyDisplay.
      destruct (currencyMap_get value) as [info| |] eqn:Hget.
      + exists info. split; [exact (DisplayFacts.currencyMap_get_own _ _ Hget)|reflexivity].
      + destruct (Hsel value (or_introl eq_refl) Hget).
      + exact Hst0. }
  destruct (Hgen (Currency_initial spans)) as (info & Hin & Hcur).
  { eexists. split; [left; reflexivity|reflexivity]. }
  exists info. split; [exact Hin|]. split; [exact Hcur|].
  intros amount. unfold formatCurrency. rewrite Hcur. reflexivity.
Qed.

Lemma currency_follows_locale_witness :
  let st := fold_left (fun st selector =>
                         updateCurrencyDisplay (JS:=RefHost.host) (BR:=RefBrowser.browser)
                           selector st)
              [Some "de-DE"; None; Some "fr-FR"]%string (Currency_initial [None]) in
  exists info,
    In (currentLocale st, info) currencyMap /\
    currentCurrency st = Some (currency info) /\
    forall amount,
      formatCurrency (JS:=RefHost.host) (BR:=RefBrowser.browser) st amount None None
        = Intl_format_currency (JS:=RefHost.host) (Browser:=RefBrowser.browser)
            (currentLocale st) (Some (currency info)) amount.
Proof.
  apply (currency_follows_locale (JS:=RefHost.host) (BR:=RefBrowser.browser)
           [Some "de-DE"; None; Some "fr-FR"]%string [None]).
  intros value [[= <-]|[H|[[= <-]|[]]]]; try discriminate H; vm_compute; discriminate.
Defined.

(** X14.  For a date whose month, day and year the browser reports as the
    whole numbers [m] (0 to 11), [d] (1 to 31) and [y] (0 up to 2^53),
    [formatDate] returns the month counted from 1 and the day, each with
    two digits, and the year, separated by slashes. *)
Theorem formatDate_month_day_year {JS : Host} {BR : Browser}
    (date : Date) (m d y : Z) :
  Date_getMonth date = of_Z m -> (0 <= m <= 11)%Z ->
  Date_getDate date = of_Z d -> (1 <= d <= 31)%Z ->
  Date_getFullYear date = of_Z y -> (0 <= y < 2 ^ 53)%Z ->
  formatDate date
    = (two_digits (m + 1) ++ "/" ++ two_digits d ++ "/" ++ decimal y)%string.
Proof.
  intros Hm Hmr Hd Hdr Hy Hyr. unfold formatDate. rewrite Hm, Hd, Hy.
  rewrite FloatFacts.of_Z_succ by (unfold MAX_SAFE_INTEGER; lia).
  rewrite !DisplayFacts.Number_toString_of_Z
    by (try assumption; change (2 ^ 53)%Z with 9007199254740992%Z; lia).
  rewrite !DisplayFacts.padStart_two_digits by lia.
  reflexivity.
Qed.

Lemma formatDate_month_day_year_witness :
  Date_getMonth (JS:=RefHost.host) (Browser:=RefBrowser.browser) 8%Z = of_Z 8 /\
  Date_getDate (JS:=RefHost.host) (Browser:=RefBrowser.browser) 8%Z = of_Z 1 /\
  Date_getFullYear (JS:=RefHost.host) (Browser:=RefBrowser.browser) 8%Z = of_Z 1970 /\
  formatDate (JS:=RefHost.host) (BR:=RefBrowser.browser) 8%Z = "09/01/1970"%string.
Proof.
  split; [reflexivity|]. split; [reflexivity|]. split; [reflexivity|].
  exact (formatDate_month_day_year (JS:=RefHost.host) (BR:=RefBrowser.browser) 8%Z 8 1 1970
           eq_refl ltac:(lia) eq_refl ltac:(lia) eq_refl ltac:(lia)).
Defined.

(** X15.  For a schedule of more than 60 records, numbered from 1 as
    [calculateAmortization] numbers them, [createLoanChart] draws one bar
    per year of twelve payments, the last year holding what is left: the
    bars are labelled "Year 1", "Year 2", ... in this order, a year's
    principal and interest are the sums of its records' principalPaid and
    interestPaid, added up from 0 in the order of the payments, and its
    balance is the remainingBalance of its last record. *)
Theorem chart_of_long_schedule_by_year {JS : Host} {BR : Browser}
    (st : Currency) (schedule : list PaymentRecord) (sym : string) :
  (60 < List.length schedule)%nat ->
  (Z.of_nat (List.length schedule) < 2 ^ 32)%Z ->
  numbered_from 0 schedule ->
  current_symbol st = Some sym ->
  exists chart,
    createLoanChart st schedule = Some chart /\
    let years := seq 0 (years_of schedule) in
    labels chart = map (fun j => ("Year " ++ decimal (Z.of_nat j + 1))%string) years /\
    principalPaidData chart = map (fun j => year_principal (year_records j schedule)) years /\
    interestPaidData chart = map (fun j => year_interest (year_records j schedule)) years /\
    remainingBalanceData chart = map (fun j => year_balance (year_records j schedule)) years /\
    xTitle chart = "Year"%string.
Proof.
  intros Hlong Hlen Hnum Hsym.
  assert (H53 : (Z.of_nat (List.length schedule) < 2 ^ 53)%Z).
  { change (2 ^ 32)%Z with 4294967296%Z in Hlen.
    change (2 ^ 53)%Z with 9007199254740992%Z. lia. }
  assert (Hagg : (60 <? of_nat (List.length schedule)) = true).
  { change 60 with (of_Z 60). unfold of_nat. rewrite DisplayFacts.of_Z_ltb by (try assumption; cbn; lia).
    apply Z.ltb_lt. lia. }
  assert (Hyears : (Z.of_nat (years_of schedule) < 2 ^ 32)%Z).
  { unfold years_of.
    assert ((List.length schedule + 11) / 12 <= List.length schedule)%nat
      by (apply Nat.Div0.div_le_upper_bound; lia).
    lia. }
  unfold createLoanChart. rewrite Hagg, Hsym.
  pose proof (DisplayFacts.chartCallback_fold schedule [] ltac:(cbn [List.length]; lia) Hnum) as Hfold.
  cbn [app] in Hfold. change (map (year_entry []) (seq 0 (years_of []))) with
    (@nil (float * YearData)) in Hfold.
  rewrite Hfold.
  change (map (year_entry schedule) (seq 0 (years_of schedule)))
    with (map (fun i => (of_nat i, year_summary i (year_records i schedule)))
            (seq 0 (years_of schedule))).
  rewrite (DisplayFacts.Object_values_years (fun i => year_summary i (year_records i schedule)))
    by exact Hyears.
  eexists. split; [reflexivity|]. cbn zeta.
  cbn [labels principalPaidData interestPaidData remainingBalanceData xTitle].
  rewrite !map_map. repeat split; reflexivity.
Qed.

Lemma chart_of_long_schedule_by_year_witness :
  exists res chart,
    calculateAmortization (JS:=RefHost.host) 72 7200 0 6 0 0%Z = Returned res /\
    createLoanChart (JS:=RefHost.host) (BR:=RefBrowser.browser)
      (Currency_initial []) (schedule res) = Some chart /\
    labels chart = ["Year 1"; "Year 2"; "Year 3"; "Year 4"; "Year 5"; "Year 6"]%string.
Proof.
  destruct (run_7200 (JS:=RefHost.host) 0%Z) as (res & Hrun & Hlen).
  assert (Hnum : numbered_from 0 (schedule res)).
  { destruct (calculateAmortization_counted _ _ _ _ _ _ _ Hrun) as [_ Hnum].
    intros k x Hk. rewrite (Hnum k x Hk). unfold of_nat. f_equal.
    assert (k < List.length (schedule res))%nat
      by (apply nth_error_Some; rewrite Hk; discriminate).
    cbn [Nat.add]. lia. }
  destruct (chart_of_long_schedule_by_year (JS:=RefHost.host) (BR:=RefBrowser.browser)
              (Currency_initial []) (schedule res) "$"%string
              ltac:(rewrite Hlen; lia) ltac:(rewrite Hlen; lia) Hnum eq_refl)
    as (chart & Hchart & Hlabels & _).
  exists res, chart. split; [exact Hrun|]. split; [exact Hchart|].
  rewrite Hlabels. unfold years_of. rewrite Hlen. reflexivity.
Defined.


(** X17.  What [displayResults] shows for a result of
    [calculateAmortization] with fewer than 2^53 records: the payoff time is
    the text of as many months as the schedule has records; a schedule that
    is not empty replaces the rows of the table by its own; an empty one
    (a principal not above 0.01) shows "0 months" and leaves the table, the
    chart and the ads of the calculation before in place. *)
Theorem displayResults_of_amortization {JS : Host} {BR : Browser}
    (fuel : nat) (principal annualRate termYears extraMonthlyPayment : float)
    (startDate : Date) (res : AmortizationResult) (st : Currency) (page : ResultsPage) :
  calculateAmortization fuel principal annualRate termYears extraMonthlyPayment startDate
    = Returned res ->
  (Z.of_nat (List.length (schedule res)) < 2 ^ 53)%Z ->
  let page' := fst (displayResults st res page) in
  newPayoffTimeText page' = payoff_text (Z.of_nat (List.length (schedule res))) /\
  (schedule res <> [] ->
   amortizationTableBody page' = tableRows (populateAmortizationTable st (schedule res)) /\
   loanChart page' = createLoanChart st (schedule res)) /\
  ((0.01 <? principal) && (0 <? termYears) = false ->
   newPayoffTimeText page' = "0 months"%string /\
   amortizationTableBody page' = amortizationTableBody page /\
   loanChart page' = loanChart page /\
   adsbygoogle page' = adsbygoogle page).
Proof.
  intros Hres Hlen page'.
  destruct (calculateAmortization_counted _ _ _ _ _ _ _ Hres) as [Hm _].
  rewrite Z.min_l in Hm by lia.
  assert (Hpos : (0 <? of_nat (List.length (schedule res)))
                 = negb (Nat.eqb (List.length (schedule res)) 0)).
  { change 0 with (of_Z 0). unfold of_nat.
    rewrite DisplayFacts.of_Z_ltb by (try assumption; cbn; lia).
    destruct (List.length (schedule res)); reflexivity. }
  assert (Htext : newPayoffTimeText page'
                  = payoff_text (Z.of_nat (List.length (schedule res)))).
  { subst page'. unfold displayResults.
    destruct (0 <? of_nat _); [destruct (createLoanChart _ _)|];
      cbn [fst newPayoffTimeText]; rewrite Hm; apply DisplayFacts.formatPayoffTime_of_Z; lia. }
  split; [exact Htext|]. split.
  - intros Hne. subst page'. unfold displayResults. rewrite Hpos.
    destruct (schedule res) as [|x l] eqn:Hs; [contradiction|]. cbn [List.length Nat.eqb negb].
    destruct (createLoanChart st (x :: l)); split; reflexivity.
  - intros Hno.
    destruct (calculateAmortization_no_pass _ _ _ _ _ _ _ Hno Hres) as (Hnil & _).
    rewrite Htext. subst page'. unfold displayResults. rewrite Hpos, Hnil.
    cbn. repeat split; reflexivity.
Qed.

Lemma displayResults_of_amortization_witness :
  exists res,
    calculateAmortization (JS:=RefHost.host) 0 0.01 0 1 0 0%Z = Returned res /\
    (Z.of_nat (List.length (schedule res)) < 2 ^ 53)%Z /\
    forall st page,
      newPayoffTimeText
        (fst (displayResults (JS:=RefHost.host) (BR:=RefBrowser.browser) st res page))
      = "0 months"%string.
Proof.
  destruct (run_one_cent_loan (JS:=RefHost.host) 0%Z) as (res & Hrun & _ & Hnil).
  assert (Hlen : (Z.of_nat (List.length (schedule res)) < 2 ^ 53)%Z)
    by (rewrite Hnil; cbn; lia).
  exists res. split; [exact Hrun|]. split; [exact Hlen|].
  intros st page.
  destruct (displayResults_of_amortization (JS:=RefHost.host) (BR:=RefBrowser.browser)
              0 0.01 0 1 0 0%Z res st page Hrun Hlen) as (_ & _ & Hempty).
  destruct (Hempty eq_refl) as (Htext & _). exact Htext.
Defined.

(** X18.  A principal that is not a number (what [parseFloat] reads from an
    empty field) passes the validation of [calculateAmortization].  With a
    rate, a term and an extra payment that pass as well, the loan form shows
    no alert: it stores a payment that is NaN as the original loan's
    payment, shows a payoff time of "0 months", and leaves the table and
    the chart as they were.  After that the refinance form, whatever is
    entered, asks to calculate the original loan first. *)
Theorem blank_principal_blocks_refinance {JS : Host} {BR : Browser}
    (fuel : nat) (annualRate termYears extraMonthlyPaymentField : float)
    (startDate : Date) (app : App) :
  (annualRate <? 0) = false ->
  (termYears <=? 0) = false ->
  (Number_or_0 extraMonthlyPaymentField <? 0) = false ->
  exists app1,
    loanCalculatorForm_submit fuel nan annualRate termYears extraMonthlyPaymentField
      startDate app = Returned app1 /\
    alerts app1 = alerts app /\
    (exists payment, originalLoanMonthlyPayment app1 = Some payment /\ is_nan payment = true) /\
    newPayoffTimeText (app_results app1) = "0 months"%string /\
    amortizationTableBody (app_results app1) = amortizationTableBody (app_results app) /\
    loanChart (app_results app1) = loanChart (app_results app) /\
    forall refinancePrincipal refinanceInterestRate refinanceTerm refinanceClosingCosts,
      refinanceForm_submit refinancePrincipal refinanceInterestRate refinanceTerm
        refinanceClosingCosts app1
      = alert "Please calculate your original loan first using the Loan Calculator tab."
          app1.
Proof.
  intros Hr Ht He.
  assert (Hinv : invalid_input nan annualRate termYears
                   (Number_or_0 extraMonthlyPaymentField) = false).
  { unfold invalid_input. rewrite Hr, Ht, He. reflexivity. }
  unfold loanCalculatorForm_submit, calculateAmortization. rewrite Hinv.
  rewrite while_loop_unfold.
  change (loop_cond (termYears * 12 * 2)
            {| st_balance := nan; st_totalInterestPaid := 0;
               st_monthsToPayoff := 0; st_schedule := [] |}) with false.
  cbv iota. unfold displayResults.
  cbn [schedule List.length monthsToPayoff st_monthsToPayoff st_schedule monthlyPayment].
  change (0 <? of_nat 0) with false. cbv iota.
  eexists. split; [reflexivity|].
  cbn [alerts originalLoanMonthlyPayment app_results newPayoffTimeText
       amortizationTableBody loanChart].
  split; [reflexivity|]. split.
  { eexists. split; [reflexivity|]. apply DisplayFacts.standardPayment_nan. }
  split; [reflexivity|]. split; [reflexivity|]. split; [reflexivity|].
  intros P R T C. unfold refinanceForm_submit. cbn [originalLoanMonthlyPayment].
  rewrite DisplayFacts.standardPayment_nan. reflexivity.
Qed.

Lemma blank_principal_blocks_refinance_witness :
  exists app app1,
    loanCalculatorForm_submit (JS:=RefHost.host) (BR:=RefBrowser.browser)
      0 nan 5 30 nan 0%Z app = Returned app1 /\
    alerts app1 = alerts app /\
    refinanceForm_submit (JS:=RefHost.host) (BR:=RefBrowser.browser) 250000 4 30 3000 app1
    = alert "Please calculate your original loan first using the Loan Calculator tab." app1.
Proof.
  set (page := {| standardPaymentText := ""; newPayoffTimeText := "";
                  totalInterestSavedText := ""; amortizationTableBody := [];
                  adsbygoogle := 0; loanChart := None; resultsVisible := false |}).
  set (app := {| app_currency := Currency_initial []; originalLoanMonthlyPayment := None;
                 app_results := page; app_refinance := None; alerts := [] |}).
  destruct (blank_principal_blocks_refinance (JS:=RefHost.host) (BR:=RefBrowser.browser)
              0 5 30 nan 0%Z app eq_refl eq_refl eq_refl)
    as (app1 & Hsubmit & Halerts & _ & _ & _ & _ & Hrefi).
  exists app, app1. split; [exact Hsubmit|]. split; [exact Halerts|]. apply Hrefi.
Defined.

(** X19.  Neither [calculateMonthlyPayment] nor the monthlyPayment of
    [calculateAmortization] is negative, for a principal and a rate that
    are not negative and a term that passes [termYears <= 0], as long as,
    at a rate that is not zero, [Math.pow] gives the compound factor as
    more than 1 (the base is above 1) or as NaN. *)
Theorem payment_never_negative {JS : Host}
    (principal annualRate termYears : float) :
  (principal <? 0) = false -> (annualRate <? 0) = false -> (termYears <=? 0) = false ->
  ((annualRate / 100 / 12 =? 0) = false ->
   (Math_pow (1 + annualRate / 100 / 12) (termYears * 12) <=? 1) = false) ->
  (calculateMonthlyPayment principal annualRate termYears <? 0) = false /\
  forall fuel extraMonthlyPayment startDate res,
    calculateAmortization fuel principal annualRate termYears extraMonthlyPayment startDate
      = Returned res ->
    (monthlyPayment res <? 0) = false.
Proof.
  intros Hp Hr Ht Hpow.
  destruct (DisplayFacts.payment_not_negative principal annualRate termYears Hp Hr Ht Hpow) as [Hs Hc].
  split; [exact Hc|].
  intros fuel e d res Hres.
  destruct (calculateAmortization_returned _ _ _ _ _ _ _ Hres) as (_ & s & _ & _ & _ & -> & _).
  exact Hs.
Qed.

Lemma payment_never_negative_witness :
  (calculateMonthlyPayment (JS:=RefHost.host) 1200 0 1 <? 0) = false /\
  forall fuel extraMonthlyPayment startDate res,
    calculateAmortization (JS:=RefHost.host) fuel 1200 0 1 extraMonthlyPayment startDate
      = Returned res ->
    (monthlyPayment res <? 0) = false.
Proof.
  apply (payment_never_negative (JS:=RefHost.host) 1200 0 1); try reflexivity.
  intros H. discriminate H.
Defined.

(** X20.  Once a loan with a payment above zero has been calculated, and
    the refinance form holds a principal, a rate and a term that pass its
    validation, the form shows the error of [calculateRefinanceBreakEven]
    exactly when the closing costs are negative; otherwise it shows the
    analysis, with the payment of the new loan as
    [calculateMonthlyPayment] computes it.  (An empty field counts as 0;
    [Math.pow] is taken to give the compound factor as more than 1 or as
    NaN.) *)
Theorem refinance_form_error_only_for_negative_costs {JS : Host} {BR : Browser}
    (refinancePrincipalField refinanceInterestRateField refinanceTermField
       refinanceClosingCostsField original : float) (app : App) :
  let refinancePrincipal := Number_or_0 refinancePrincipalField in
  let refinanceInterestRate := Number_or_0 refinanceInterestRateField in
  let refinanceTerm := Number_or_0 refinanceTermField in
  let refinanceClosingCosts := Number_or_0 refinanceClosingCostsField in
  let app' := refinanceForm_submit refinancePrincipalField refinanceInterestRateField
                refinanceTermField refinanceClosingCostsField app in
  originalLoanMonthlyPayment app = Some original ->
  (0 <? original) = true ->
  (refinancePrincipal <=? 0) = false ->
  (refinanceInterestRate <? 0) = false ->
  (refinanceTerm <=? 0) = false ->
  ((refinanceInterestRate / 100 / 12 =? 0) = false ->
   (Math_pow (1 + refinanceInterestRate / 100 / 12) (refinanceTerm * 12) <=? 1) = false) ->
  ((refinanceClosingCosts <? 0) = true ->
   app' = alert ("Error: " ++ refinance_error) app) /\
  ((refinanceClosingCosts <? 0) = false ->
   alerts app' = alerts app /\
   exists view,
     app_refinance app' = Some view /\
     newPaymentText view
       = Some (formatCurrency (app_currency app)
                 (calculateMonthlyPayment refinancePrincipal refinanceInterestRate
                    refinanceTerm) None None)).
Proof.
  intros P R T C app' Horig Hpos HP HR HT Hpow. subst app'.
  destruct (DisplayFacts.positive_truthy original Hpos) as [Htruthy Hle].
  assert (HP0 : (P <? 0) = false).
  { destruct (P <? 0) eqn:Hlt; [|reflexivity].
    rewrite (FloatSigns.ltb_leb _ _ Hlt) in HP. discriminate. }
  destruct (DisplayFacts.payment_not_negative P R T HP0 HR HT Hpow) as [_ Hnew].
  unfold refinanceForm_submit. rewrite Horig, Htruthy, Hle. cbn [orb].
  fold P R T C. rewrite HP, HR, HT. cbn [orb].
  unfold calculateRefinanceBreakEven. rewrite Hle, Hnew. cbn [orb].
  split; intros HC; rewrite HC.
  - reflexivity.
  - destruct (original - calculateMonthlyPayment P R T <=? 0);
      cbn [alerts app_refinance]; (split; [reflexivity|]);
      unfold displayRefinanceResults; cbn [negb orb];
      match goal with |- context [if ?c then _ else _] => destruct c end;
      eexists; split; reflexivity.
Qed.

Lemma refinance_form_error_only_for_negative_costs_witness :
  exists app view,
    originalLoanMonthlyPayment app = Some 1798.65 /\
    alerts (refinanceForm_submit (JS:=RefHost.host) (BR:=RefBrowser.browser)
              250000 0 30 3000 app) = alerts app /\
    app_refinance (refinanceForm_submit (JS:=RefHost.host) (BR:=RefBrowser.browser)
                     250000 0 30 3000 app) = Some view /\
    newPaymentText view
      = Some (formatCurrency (JS:=RefHost.host) (BR:=RefBrowser.browser) (app_currency app)
                (calculateMonthlyPayment (JS:=RefHost.host) (Number_or_0 250000)
                   (Number_or_0 0) (Number_or_0 30)) None None).
Proof.
  set (page := {| standardPaymentText := ""; newPayoffTimeText := "";
                  totalInterestSavedText := ""; amortizationTableBody := [];
                  adsbygoogle := 0; loanChart := None; resultsVisible := false |}).
  set (app := {| app_currency := Currency_initial []; originalLoanMonthlyPayment := Some 1798.65;
                 app_results := page; app_refinance := None; alerts := [] |}).
  destruct (refinance_form_error_only_for_negative_costs
              (JS:=RefHost.host) (BR:=RefBrowser.browser)
              250000 0 30 3000 1798.65 app eq_refl eq_refl eq_refl eq_refl eq_refl
              ltac:(intros H; discriminate H)) as [_ Hok].
  destruct (Hok eq_refl) as (Halerts & view & Hview & Htext).
  exists app, view. split; [reflexivity|]. split; [exact Halerts|].
  split; [exact Hview|exact Htext].
Defined.

(** X21.  For a valid break-even result of 12 months or more (below 2^53),
    the years and months that [displayRefinanceResults] writes carry no
    floating-point error.  The break-even count is the double
    [m * 2^e]; with [S = 2^(-e)] it is the fraction [m / S], the years
    written are [Y], the whole part of [m / S] divided by 12, and the months
    written are [R], what is left, [(m mod 12 S) / S], rounded to the
    nearest whole with a half going up.  [R] is a whole number from 0 to
    12: the text is "Y years" when it is 0 and "Y years and R months"
    otherwise, so from 11.5 months past a full year on it reads "and 12
    months". *)
Theorem break_even_text_from_a_year {JS : Host} {BR : Browser}
    (has_savings has_newPayment : bool) (st : Currency)
    (breakEvenResult : RefinanceBreakEven) (newMonthlyPayment b : float)
    (m : positive) (e : Z) :
  isValid breakEvenResult = true ->
  (monthlySavings breakEvenResult <=? 0) = false ->
  breakEvenMonths breakEvenResult = Some b ->
  (12 <=? b) = true -> (b <? 9007199254740992) = true ->
  Prim2SF b = S754_finite false m e ->
  let S := (2 ^ (- e))%Z in
  let Y := (Zpos m / (12 * S))%Z in
  let R := ((2 * (Zpos m mod (12 * S)) + S) / (2 * S))%Z in
  (1 <= Y < 2 ^ 53)%Z /\ (0 <= R <= 12)%Z /\
  exists view,
    displayRefinanceResults true true has_savings has_newPayment st breakEvenResult
      newMonthlyPayment = Some view /\
    highlighted view = true /\
    breakEvenText view =
      ("You will break even in " ++ count_text Y "year"
       ++ (if (R =? 0)%Z then "" else " and " ++ count_text R "month") ++ ".")%string.
Proof.
  intros Hv Hs Hbe H1 H2 Hb S Y R.
  destruct (DisplayFacts.break_even_period_from_12 b m e H1 H2 Hb) as [[HY HR] Htext].
  split; [exact HY|]. split; [exact HR|].
  unfold displayRefinanceResults. rewrite Hv, Hs, Hbe. cbn [negb orb].
  eexists. split; [reflexivity|]. cbn [highlighted breakEvenText].
  split; [reflexivity|exact Htext].
Qed.

Lemma break_even_text_from_a_year_witness :
  exists view,
    displayRefinanceResults (JS:=RefHost.host) (BR:=RefBrowser.browser)
      true true true true (Currency_initial [])
      {| breakEvenMonths := Some 23.6; monthlySavings := 100;
         totalSavingsOverRemainingTerm := None; isValid := true |} 1700 = Some view /\
    breakEvenText view = "You will break even in 1 year and 12 months."%string.
Proof.
  destruct (break_even_text_from_a_year (JS:=RefHost.host) (BR:=RefBrowser.browser)
              true true (Currency_initial [])
              {| breakEvenMonths := Some 23.6; monthlySavings := 100;
                 totalSavingsOverRemainingTerm := None; isValid := true |} 1700 23.6
              6642809450371482%positive (-48)%Z
              eq_refl eq_refl eq_refl eq_refl eq_refl eq_refl)
    as (_ & _ & view & Hview & _ & Htext).
  exists view. split; [exact Hview|]. rewrite Htext. vm_compute. reflexivity.
Defined.
